(** * Call-center orchestration core: routing engine, agent frame,
      message bus and event system.

    A shallow embedding of
      - [src/agents/routing_agent.py]      (module [Routing]),
      - [src/core/base_agent.py]           (module [Agent]),
      - [src/communication/message_bus.py] (module [Bus]),
      - [src/communication/event_system.py](module [Events]),
    followed by the properties established about them.

    Conventions.  Python [int] is [Z].  Python [float] quantities
    (performance scores, load percentages, thresholds, elapsed seconds)
    are the exact rationals [Q] they stand for; nothing below depends on
    rounding.  A [dict] whose iteration order the code relies on
    is an association list in insertion order; a [dict] used only through
    lookups is a [gmap].  [datetime] values are microseconds on the UTC
    time line.  Code that can raise lives in the state-and-exception monad
    [M]: a raise keeps the state reached so far, as in Python. *)

From Stdlib Require Import ZArith QArith String Ascii List Bool Lia Lqa Sorted Permutation.
From stdpp Require Import base option list gmap strings.
Import ListNotations.

Local Open Scope string_scope.
Local Open Scope list_scope.
Local Open Scope Z_scope.

(* ===================================================================== *)
(** * Exceptions and the state-and-exception monad *)
(* ===================================================================== *)

(** The exception classes the modelled code raises or catches.  All of
    them derive from Python's [Exception], so [except Exception] catches
    every constructor of this type. *)
Inductive exn : Type :=
| KeyError (key : string)
| AttributeError (what : string)
| HandlerError (what : string)
| AgentException (what : string)
| CommunicationException (what : string).

(** [str(e)] *)
Definition exn_str (e : exn) : string :=
  match e with
  | KeyError k => k
  | AttributeError s | HandlerError s
  | AgentException s | CommunicationException s => s
  end.

Inductive result (A : Type) : Type :=
| Ok (a : A)
| Raise (e : exn).
Arguments Ok {A} a.
Arguments Raise {A} e.

Definition M (S A : Type) : Type := S -> result A * S.

Definition ret {S A} (a : A) : M S A := fun s => (Ok a, s).

Definition bind {S A B} (m : M S A) (k : A -> M S B) : M S B :=
  fun s =>
    match m s with
    | (Ok a, s') => k a s'
    | (Raise e, s') => (Raise e, s')
    end.

Definition raise {S A} (e : exn) : M S A := fun s => (Raise e, s).
Definition get {S} : M S S := fun s => (Ok s, s).
Definition modify {S} (f : S -> S) : M S unit := fun s => (Ok tt, f s).

(** [try: m  except Exception as e: h e] *)
Definition try_except {S A} (m : M S A) (h : exn -> M S A) : M S A :=
  fun s =>
    match m s with
    | (Ok a, s') => (Ok a, s')
    | (Raise e, s') => h e s'
    end.

(** [for x in l: body x], stopping at the first raise. *)
Fixpoint for_each {S A} (l : list A) (body : A -> M S unit) : M S unit :=
  match l with
  | [] => ret tt
  | x :: l' => bind (body x) (fun _ => for_each l' body)
  end.

(** [m] takes every state to an [R]-related one, whether it returns or
    raises. *)
Definition preserves {S A} (R : S -> S -> Prop) (m : M S A) : Prop :=
  forall s, R s (snd (m s)).

Declare Scope monad_scope.
Delimit Scope monad_scope with monad.
Notation "x <- m ;; k" := (bind m (fun x => k))
  (at level 100, m at next level, right associativity) : monad_scope.
Notation "m ;; k" := (bind m (fun _ => k))
  (at level 100, right associativity) : monad_scope.

(* ===================================================================== *)
(** * Python helpers *)
(* ===================================================================== *)

(** Values of the dynamically typed maps ([Dict[str, Any]]) that the
    routing rules compare: strings, booleans and integers. *)
Inductive PyVal : Type :=
| VStr (s : string)
| VBool (b : bool)
| VInt (n : Z).

(** Python [==] on those values ([bool] is a subclass of [int]). *)
Definition py_eqb (a b : PyVal) : bool :=
  match a, b with
  | VStr s, VStr t => String.eqb s t
  | VBool x, VBool y => Bool.eqb x y
  | VInt x, VInt y => Z.eqb x y
  | VBool x, VInt n | VInt n, VBool x => Z.eqb n (if x then 1 else 0)
  | _, _ => false
  end.

(** Truthiness of a [str] and of an [Optional[str]]. *)
Definition str_truthy (s : string) : bool := negb (String.eqb s "").
Definition opt_truthy (o : option string) : bool :=
  match o with Some s => str_truthy s | None => false end.

(** [x in l] for a list of strings. *)
Definition str_in (x : string) (l : list string) : bool :=
  existsb (String.eqb x) l.

(** [kw in s] for strings: substring test. *)
Fixpoint str_contains (kw s : string) : bool :=
  String.prefix kw s ||
  match s with
  | EmptyString => false
  | String _ s' => str_contains kw s'
  end.

(** [s.lower()] on ASCII letters. *)
Definition ascii_lower (c : ascii) : ascii :=
  let n := nat_of_ascii c in
  if (Nat.leb 65 n && Nat.leb n 90)%bool then ascii_of_nat (n + 32) else c.

Fixpoint str_lower (s : string) : string :=
  match s with
  | EmptyString => EmptyString
  | String c s' => String (ascii_lower c) (str_lower s')
  end.



(** Dictionaries in insertion order. *)
Section Dict.
Context {V : Type}.

(** [d.get(k)] *)
Fixpoint dict_get (k : string) (d : list (string * V)) : option V :=
  match d with
  | [] => None
  | (k', v) :: d' => if String.eqb k k' then Some v else dict_get k d'
  end.

(** [d[k] = v]: overwrite in place, or append a new key. *)
Fixpoint dict_set (k : string) (v : V) (d : list (string * V))
  : list (string * V) :=
  match d with
  | [] => [(k, v)]
  | (k', v') :: d' =>
      if String.eqb k k' then (k', v) :: d' else (k', v') :: dict_set k v d'
  end.

(** In-place update of the object stored under [k] (no-op when absent). *)
Fixpoint dict_update (k : string) (f : V -> V) (d : list (string * V))
  : list (string * V) :=
  match d with
  | [] => []
  | (k', v') :: d' =>
      if String.eqb k k' then (k', f v') :: d' else (k', v') :: dict_update k f d'
  end.
End Dict.

(** [l.pop(i)] for an index that is in range. *)
Fixpoint list_pop {A} (i : nat) (l : list A) : list A :=
  match l, i with
  | [], _ => []
  | _ :: l', O => l'
  | x :: l', S i' => x :: list_pop i' l'
  end.

(** Python's stable sort, as the insertion sort it agrees with: the new
    element is placed before the first element it does not come after. *)
Section StableSort.
Context {A : Type} (before : A -> A -> bool).
(* [before x y]: x may stay in front of y when x was in front already *)

Fixpoint stable_insert (x : A) (l : list A) : list A :=
  match l with
  | [] => [x]
  | y :: l' => if before x y then x :: y :: l' else y :: stable_insert x l'
  end.

Fixpoint stable_sort (l : list A) : list A :=
  match l with
  | [] => []
  | x :: l' => stable_insert x (stable_sort l')
  end.
End StableSort.

(* ===================================================================== *)
(** * [src/agents/routing_agent.py] *)
(* ===================================================================== *)

Module Routing.

Inductive RoutingDecision : Type :=
| AUTO_RESOLVE | AGENT_TRANSFER | ESCALATE | CALLBACK | END_CALL.

Inductive AgentSkillLevel : Type :=
| JUNIOR | INTERMEDIATE | SENIOR | SPECIALIST | SUPERVISOR.

#[global] Instance RoutingDecision_eq_dec : EqDecision RoutingDecision.
Proof. solve_decision. Defined.
#[global] Instance AgentSkillLevel_eq_dec : EqDecision AgentSkillLevel.
Proof. solve_decision. Defined.

(** [@dataclass AgentProfile] *)
Record AgentProfile : Type := {
  agent_id : string;
  name : string;
  skill_level : AgentSkillLevel;
  specializations : list string;
  current_load : Z;
  max_capacity : Z;
  availability : bool;
  performance_score : Q;
  languages : list string
}.

Definition is_available (a : AgentProfile) : bool :=
  availability a && (current_load a <? max_capacity a).

Definition load_percentage (a : AgentProfile) : Q :=
  if 0 <? max_capacity a
  then (inject_Z (current_load a) / inject_Z (max_capacity a)) * 100
  else 0.


(** [agent.current_load += 1] *)
Definition incr_load (a : AgentProfile) : AgentProfile :=
  {| agent_id := agent_id a; name := name a; skill_level := skill_level a;
     specializations := specializations a;
     current_load := current_load a + 1;
     max_capacity := max_capacity a; availability := availability a;
     performance_score := performance_score a; languages := languages a |}.

(** [@dataclass RoutingRule] *)
Record RoutingRule : Type := {
  rule_id : string;
  rule_name : string;
  conditions : list (string * PyVal);
  action : RoutingDecision;
  priority : Z;
  target_skill_level : option AgentSkillLevel;
  target_specialization : option string
}.

(** The keys the engine reads from a call's [metadata] dict; [None] is an
    absent key. *)
Record Metadata : Type := {
  md_priority : option PyVal;
  md_language : option string;
  md_customer_phone : option string
}.

(** The keys the engine reads from a call's [summary] dict. *)
Record Summary : Type := {
  topics : list string;
  action_items : list string;
  customer_issues : list string;
  sentiment : option PyVal;
  resolution_confidence : option Q
}.

(** [message.payload] of a routing request, with fields of the declared
    types. *)
Record Payload : Type := {
  call_id : string;
  metadata : Metadata;
  summary : Summary;
  quality_score : option Q
}.

(** What the two clocks show while one request is handled:
    [datetime.utcnow()] in microseconds, and the weekday and hour of the
    local [datetime.now()]. *)
Record Clock : Type := {
  utcnow : Z;
  weekday : Z;
  hour : Z
}.

(** An entry of [self.queue]. *)
Record QueueItem : Type := {
  q_call_id : string;
  q_metadata : Metadata;
  q_rule : RoutingRule;
  queued_at : Z
}.

(** The routing messages handed to [send_message], by their [action]. *)
Inductive RouteMsg : Type :=
| MsgAutoResolve (call : string)
| MsgTransfer (call agent : string)
| MsgEscalate (call supervisor : string)
| MsgCallback (call : string)
| MsgEndCall (call : string)
| MsgError (error : string).

(** An entry of [self.active_routes] / of [self.routing_history]. *)
Record Route : Type := {
  r_decision : RoutingDecision;
  r_target : option string;
  r_timestamp : Z
}.

(** The fields of [RoutingAgent].  [outbox] is the trace of the messages
    passed to [send_message], oldest first. *)
Record RoutingAgent : Type := {
  available_agents : list (string * AgentProfile);
  routing_rules : list RoutingRule;
  active_routes : gmap string Route;
  queue : list QueueItem;
  routing_history : list (string * Route);
  auto_resolve_threshold : Q;
  escalation_threshold : Q;
  max_queue_time : Q;
  outbox : list RouteMsg
}.

Definition with_agents (f : list (string * AgentProfile) -> list (string * AgentProfile))
    (st : RoutingAgent) : RoutingAgent :=
  {| available_agents := f (available_agents st);
     routing_rules := routing_rules st; active_routes := active_routes st;
     queue := queue st; routing_history := routing_history st;
     auto_resolve_threshold := auto_resolve_threshold st;
     escalation_threshold := escalation_threshold st;
     max_queue_time := max_queue_time st; outbox := outbox st |}.

Definition with_active_routes (f : gmap string Route -> gmap string Route)
    (st : RoutingAgent) : RoutingAgent :=
  {| available_agents := available_agents st;
     routing_rules := routing_rules st; active_routes := f (active_routes st);
     queue := queue st; routing_history := routing_history st;
     auto_resolve_threshold := auto_resolve_threshold st;
     escalation_threshold := escalation_threshold st;
     max_queue_time := max_queue_time st; outbox := outbox st |}.

Definition with_queue (f : list QueueItem -> list QueueItem)
    (st : RoutingAgent) : RoutingAgent :=
  {| available_agents := available_agents st;
     routing_rules := routing_rules st; active_routes := active_routes st;
     queue := f (queue st); routing_history := routing_history st;
     auto_resolve_threshold := auto_resolve_threshold st;
     escalation_threshold := escalation_threshold st;
     max_queue_time := max_queue_time st; outbox := outbox st |}.

Definition with_history (f : list (string * Route) -> list (string * Route))
    (st : RoutingAgent) : RoutingAgent :=
  {| available_agents := available_agents st;
     routing_rules := routing_rules st; active_routes := active_routes st;
     queue := queue st; routing_history := f (routing_history st);
     auto_resolve_threshold := auto_resolve_threshold st;
     escalation_threshold := escalation_threshold st;
     max_queue_time := max_queue_time st; outbox := outbox st |}.

Definition with_outbox (f : list RouteMsg -> list RouteMsg)
    (st : RoutingAgent) : RoutingAgent :=
  {| available_agents := available_agents st;
     routing_rules := routing_rules st; active_routes := active_routes st;
     queue := queue st; routing_history := routing_history st;
     auto_resolve_threshold := auto_resolve_threshold st;
     escalation_threshold := escalation_threshold st;
     max_queue_time := max_queue_time st; outbox := f (outbox st) |}.

(** [_load_routing_rules] *)
Definition _load_routing_rules : list RoutingRule :=
  [ {| rule_id := "R001"; rule_name := "High Priority Escalation";
       conditions := [("priority", VStr "urgent"); ("sentiment", VStr "negative")];
       action := ESCALATE; priority := 1;
       target_skill_level := Some SUPERVISOR; target_specialization := None |};
    {| rule_id := "R002"; rule_name := "Technical Issues";
       conditions := [("category", VStr "technical"); ("complexity", VStr "high")];
       action := AGENT_TRANSFER; priority := 2;
       target_skill_level := Some SPECIALIST;
       target_specialization := Some "technical_support" |};
    {| rule_id := "R003"; rule_name := "Billing Inquiries";
       conditions := [("category", VStr "billing")];
       action := AGENT_TRANSFER; priority := 3;
       target_skill_level := None; target_specialization := Some "billing" |};
    {| rule_id := "R004"; rule_name := "Simple FAQ";
       conditions := [("complexity", VStr "low"); ("category", VStr "general")];
       action := AUTO_RESOLVE; priority := 4;
       target_skill_level := None; target_specialization := None |};
    {| rule_id := "R005"; rule_name := "After Hours";
       conditions := [("business_hours", VBool false)];
       action := CALLBACK; priority := 5;
       target_skill_level := None; target_specialization := None |} ].

(** The mock pool of [_initialize_agent_pool]. *)
Definition mock_agents : list AgentProfile :=
  [ {| agent_id := "AGT001"; name := "Senior Agent 1"; skill_level := SENIOR;
       specializations := ["technical_support"; "billing"];
       current_load := 2; max_capacity := 5; availability := true;
       performance_score := 92 # 100; languages := ["en"; "es"] |};
    {| agent_id := "AGT002"; name := "Specialist Agent 1"; skill_level := SPECIALIST;
       specializations := ["technical_support"];
       current_load := 3; max_capacity := 4; availability := true;
       performance_score := 88 # 100; languages := ["en"] |};
    {| agent_id := "AGT003"; name := "Junior Agent 1"; skill_level := JUNIOR;
       specializations := ["general"; "billing"];
       current_load := 1; max_capacity := 6; availability := true;
       performance_score := 75 # 100; languages := ["en"; "fr"] |};
    {| agent_id := "SUP001"; name := "Supervisor 1"; skill_level := SUPERVISOR;
       specializations := ["all"];
       current_load := 0; max_capacity := 3; availability := true;
       performance_score := 95 # 100; languages := ["en"; "es"; "fr"] |} ].

(** [for agent in agents: self.available_agents[agent.agent_id] = agent] *)
Definition register_agents (agents : list AgentProfile)
    (pool : list (string * AgentProfile)) : list (string * AgentProfile) :=
  fold_left (fun d a => dict_set (agent_id a) a d) agents pool.

Definition _initialize_agent_pool : M RoutingAgent unit :=
  modify (with_agents (register_agents mock_agents)).

(** [RoutingAgent.__init__] with the three configured thresholds. *)
Definition init (auto_resolve escalation max_queue : Q) : RoutingAgent :=
  {| available_agents := []; routing_rules := []; active_routes := ∅;
     queue := []; routing_history := [];
     auto_resolve_threshold := auto_resolve;
     escalation_threshold := escalation;
     max_queue_time := max_queue; outbox := [] |}.

(** [_initialize] *)
Definition _initialize : M RoutingAgent unit :=
  fun st =>
    _initialize_agent_pool
      {| available_agents := available_agents st;
         routing_rules := _load_routing_rules;
         active_routes := active_routes st;
         queue := queue st; routing_history := routing_history st;
         auto_resolve_threshold := auto_resolve_threshold st;
         escalation_threshold := escalation_threshold st;
         max_queue_time := max_queue_time st; outbox := outbox st |}.

(** [send_message]: the frame's implementation only logs; the message is
    recorded in [outbox]. *)
Definition send_message (m : RouteMsg) : M RoutingAgent unit :=
  modify (with_outbox (fun o => o ++ [m])).

Definition category_keywords : list (string * list string) :=
  [ ("technical", ["technical"; "error"; "bug"; "crash"; "not working"]);
    ("billing", ["billing"; "payment"; "invoice"; "charge"; "refund"]);
    ("general", ["information"; "question"; "help"; "support"]) ].

(** [_determine_category] *)
Definition _determine_category (s : Summary) : string :=
  match
    List.find
      (fun '(_, keywords) =>
         existsb (fun topic =>
                    existsb (fun keyword => str_contains keyword (str_lower topic))
                            keywords)
                 (topics s))
      category_keywords
  with
  | Some (category, _) => category
  | None => "general"
  end.

(** [_assess_complexity] *)
Definition _assess_complexity (s : Summary) : string :=
  let n_items := Z.of_nat (length (action_items s)) in
  let n_issues := Z.of_nat (length (customer_issues s)) in
  if (3 <? n_items) || (2 <? n_issues) then "high"
  else if (1 <? n_items) || (0 <? n_issues) then "medium"
  else "low".

(** [_check_rule_conditions]: a declared key is compared only when it is a
    key of [factors]. *)
Definition _check_rule_conditions (rule : RoutingRule)
    (factors : list (string * PyVal)) : bool :=
  forallb
    (fun '(key, expected_value) =>
       match dict_get key factors with
       | Some v => py_eqb v expected_value
       | None => true
       end)
    (conditions rule).

(** [_is_business_hours]: Monday to Friday, 9 to 18. *)
Definition _is_business_hours (c : Clock) : bool :=
  (weekday c <? 5) && (9 <=? hour c) && (hour c <? 18).

Definition Qltb (a b : Q) : bool := negb (Qle_bool b a).

(** Comparison of the sort keys [(performance_score, -load_percentage)]. *)
Definition key_lt (a b : AgentProfile) : bool :=
  Qltb (performance_score a) (performance_score b)
  || (Qeq_bool (performance_score a) (performance_score b)
      && Qltb (- load_percentage a) (- load_percentage b)).

(** The four tests of the candidate loop of [_find_best_agent]. *)
Definition is_candidate (skill : option AgentSkillLevel)
    (specialization : option string) (language : string)
    (agent : AgentProfile) : bool :=
  is_available agent
  && match skill with
     | Some s => bool_decide (skill_level agent = s)
     | None => true
     end
  && match specialization with
     | Some sp => negb (str_truthy sp) || str_in sp (specializations agent)
     | None => true
     end
  && str_in language (languages agent).

(** [_find_best_agent]: candidates in pool order, sorted by key in
    descending order ([reverse=True] keeps ties in their original order),
    first one wins. *)
Definition _find_best_agent (pool : list (string * AgentProfile))
    (skill : option AgentSkillLevel) (specialization : option string)
    (language : string) : option string :=
  let candidates :=
    List.filter (is_candidate skill specialization language) (List.map snd pool) in
  match stable_sort (fun a b => negb (key_lt a b)) candidates with
  | [] => None
  | best :: _ => Some (agent_id best)
  end.

(** [_find_supervisor] *)
Definition _find_supervisor (pool : list (string * AgentProfile)) : option string :=
  match
    List.filter (fun a => bool_decide (skill_level a = SUPERVISOR) && is_available a)
                (List.map snd pool)
  with
  | [] => None
  | s :: _ => Some (agent_id s)
  end.

(** [self.available_agents[k]] *)
Definition lookup_agent (k : string) : M RoutingAgent AgentProfile :=
  fun st =>
    match dict_get k (available_agents st) with
    | Some a => (Ok a, st)
    | None => (Raise (KeyError k), st)
    end.

Local Open Scope monad_scope.

Definition _handle_auto_resolve (call : string) : M RoutingAgent unit :=
  send_message (MsgAutoResolve call).

Definition _transfer_to_agent (call target : string) : M RoutingAgent unit :=
  _ <- lookup_agent target ;;
  send_message (MsgTransfer call target).

Definition _escalate_to_supervisor (call supervisor : string) : M RoutingAgent unit :=
  _ <- lookup_agent supervisor ;;
  send_message (MsgEscalate call supervisor).

Definition _schedule_callback (call : string) : M RoutingAgent unit :=
  send_message (MsgCallback call).

Definition _end_call (call : string) : M RoutingAgent unit :=
  send_message (MsgEndCall call).

(** [self.available_agents[target].current_load += 1] *)
Definition bump_load (target : string) : M RoutingAgent unit :=
  _ <- lookup_agent target ;;
  modify (with_agents (dict_update target incr_load)).

(** [_execute_routing] *)
Definition _execute_routing (call : string) (decision : RoutingDecision)
    (target : option string) (now : Z) : M RoutingAgent unit :=
  modify (with_active_routes
            (fun routes =>
               <[call := {| r_decision := decision; r_target := target;
                            r_timestamp := now |}]> routes)) ;;
  match decision with
  | AUTO_RESOLVE => _handle_auto_resolve call
  | AGENT_TRANSFER =>
      match target with
      | Some t =>
          if str_truthy t
          then _transfer_to_agent call t ;; bump_load t
          else ret tt
      | None => ret tt
      end
  | ESCALATE =>
      match target with
      | Some t =>
          if str_truthy t
          then _escalate_to_supervisor call t ;; bump_load t
          else ret tt
      | None => ret tt
      end
  | CALLBACK => _schedule_callback call
  | END_CALL => _end_call call
  end.

(** [_add_to_queue] *)
Definition _add_to_queue (call : string) (md : Metadata) (rule : RoutingRule)
    (now : Z) : M RoutingAgent unit :=
  modify (with_queue
            (fun q => q ++ [ {| q_call_id := call; q_metadata := md;
                                q_rule := rule; queued_at := now |} ])).

(** [d.get(k, default)] on an optional field. *)
Definition get_or {A} (o : option A) (d : A) : A :=
  match o with Some a => a | None => d end.

(** The [factors] dict that [_make_routing_decision] builds for a call. *)
Definition routing_factors (md : Metadata) (s : Summary) (c : Clock)
    : list (string * PyVal) :=
  [ ("priority", get_or (md_priority md) (VStr "normal"));
    ("category", VStr (_determine_category s));
    ("complexity", VStr (_assess_complexity s));
    ("sentiment", get_or (sentiment s) (VStr "neutral"));
    ("business_hours", VBool (_is_business_hours c)) ].

(** The body of the rule loop of [_make_routing_decision] for a rule whose
    conditions are met. *)
Definition apply_rule (call : string) (md : Metadata) (now : Z)
    (rule : RoutingRule) : M RoutingAgent (RoutingDecision * option string) :=
  if bool_decide (action rule = AGENT_TRANSFER) then
    st <- get ;;
    let target :=
      _find_best_agent (available_agents st) (target_skill_level rule)
        (target_specialization rule) (get_or (md_language md) "en") in
    if negb (opt_truthy target)
    then _add_to_queue call md rule now ;; ret (CALLBACK, None)
    else ret (action rule, target)
  else ret (action rule, None).

(** The default routing after the rule loop. *)
Definition default_routing (md : Metadata) (s : Summary)
    (quality : option Q) : M RoutingAgent (RoutingDecision * option string) :=
  st <- get ;;
  if Qle_bool (auto_resolve_threshold st) (get_or (resolution_confidence s) (1 # 2))
  then ret (AUTO_RESOLVE, None)
  else if match quality with
          | Some q => negb (Qeq_bool q 0) && Qltb q (escalation_threshold st)
          | None => false
          end
  then ret (ESCALATE, _find_supervisor (available_agents st))
  else
    ret (AGENT_TRANSFER,
         _find_best_agent (available_agents st) None
           (Some (_determine_category s)) (get_or (md_language md) "en")).

(** The [for rule in sorted(...)] loop: the first rule whose conditions
    are met returns from the function. *)
Fixpoint rule_loop (call : string) (md : Metadata) (s : Summary)
    (quality : option Q) (c : Clock) (rules : list RoutingRule)
    : M RoutingAgent (RoutingDecision * option string) :=
  match rules with
  | [] => default_routing md s quality
  | rule :: rest =>
      if _check_rule_conditions rule (routing_factors md s c)
      then apply_rule call md (utcnow c) rule
      else rule_loop call md s quality c rest
  end.

(** [sorted(self.routing_rules, key=lambda r: r.priority)] *)
Definition sorted_rules (rules : list RoutingRule) : list RoutingRule :=
  stable_sort (fun a b => priority a <=? priority b) rules.

(** [_make_routing_decision] *)
Definition _make_routing_decision (call : string) (md : Metadata) (s : Summary)
    (quality : option Q) (c : Clock)
    : M RoutingAgent (RoutingDecision * option string) :=
  st <- get ;;
  rule_loop call md s quality c (sorted_rules (routing_rules st)).

(** [_record_routing_decision] *)
Definition _record_routing_decision (call : string) (decision : RoutingDecision)
    (target : option string) (now : Z) : M RoutingAgent unit :=
  modify (with_history
            (fun h => h ++ [(call, {| r_decision := decision; r_target := target;
                                      r_timestamp := now |})])).

Definition _send_error_response (error : string) : M RoutingAgent unit :=
  send_message (MsgError error).

(** [_handle_routing_request] *)
Definition _handle_routing_request (p : Payload) (c : Clock) : M RoutingAgent unit :=
  try_except
    ( dt <- _make_routing_decision (call_id p) (metadata p) (summary p)
              (quality_score p) c ;;
      _execute_routing (call_id p) (fst dt) (snd dt) (utcnow c) ;;
      _record_routing_decision (call_id p) (fst dt) (snd dt) (utcnow c) )
    (fun e => _send_error_response (exn_str e)).

(** [timedelta.total_seconds()] of a difference in microseconds. *)
Definition total_seconds (delta : Z) : Q := delta # 1000000.

(** One iteration of the loop of [_process_queue]; [processed] is the
    list of indices collected so far. *)
Definition sweep_item (current_time : Z) (i : nat) (item : QueueItem)
    (processed : list nat) : M RoutingAgent (list nat) :=
  st <- get ;;
  let target :=
    _find_best_agent (available_agents st) (target_skill_level (q_rule item))
      (target_specialization (q_rule item))
      (get_or (md_language (q_metadata item)) "en") in
  match target with
  | Some t =>
      if str_truthy t
      then _transfer_to_agent (q_call_id item) t ;; ret (processed ++ [i])
      else if Qltb (max_queue_time st) (total_seconds (current_time - queued_at item))
      then _schedule_callback (q_call_id item) ;; ret (processed ++ [i])
      else ret processed
  | None =>
      if Qltb (max_queue_time st) (total_seconds (current_time - queued_at item))
      then _schedule_callback (q_call_id item) ;; ret (processed ++ [i])
      else ret processed
  end.

(** [for i, item in enumerate(self.queue)], from index [i] on. *)
Fixpoint sweep_loop (current_time : Z) (i : nat) (items : list QueueItem)
    (processed : list nat) : M RoutingAgent (list nat) :=
  match items with
  | [] => ret processed
  | item :: rest =>
      processed' <- sweep_item current_time i item processed ;;
      sweep_loop current_time (S i) rest processed'
  end.

(** [_process_queue] *)
Definition _process_queue (now : Z) : M RoutingAgent unit :=
  st <- get ;;
  processed <- sweep_loop now 0 (queue st) [] ;;
  modify (with_queue (fun q => fold_left (fun q i => list_pop i q) (rev processed) q)).

(** [_redistribute_load]: computes the pool utilisation for the log and
    changes nothing. *)
Definition system_load (pool : list (string * AgentProfile)) : option Q :=
  let total_load := fold_right Z.add 0 (List.map (fun ka => current_load (snd ka)) pool) in
  let total_capacity := fold_right Z.add 0 (List.map (fun ka => max_capacity (snd ka)) pool) in
  if 0 <? total_capacity
  then Some ((inject_Z total_load / inject_Z total_capacity) * 100)%Q
  else None.

Definition _redistribute_load : M RoutingAgent unit :=
  st <- get ;;
  let _ := system_load (available_agents st) in
  ret tt.

(** The engine's entry points: a routing request arriving on the inbound
    queue, a tick of the queue monitor, a tick of the load balancer. *)
Inductive Op : Type :=
| HandleRoutingRequest (p : Payload) (c : Clock)
| ProcessQueue (now : Z)
| RedistributeLoad.

Definition run_op (op : Op) : M RoutingAgent unit :=
  match op with
  | HandleRoutingRequest p c => _handle_routing_request p c
  | ProcessQueue now => _process_queue now
  | RedistributeLoad => _redistribute_load
  end.

(** The state after an operation; an exception escaping it is logged by
    the caller and leaves the state as the raise found it. *)
Definition step (st : RoutingAgent) (op : Op) : RoutingAgent := snd (run_op op st).

Definition run_ops (ops : list Op) (st : RoutingAgent) : RoutingAgent :=
  fold_left step ops st.

(** The pool is keyed the way [_initialize_agent_pool] keys it: each
    profile under its own [agent_id], each key once. *)
Definition pool_keyed (pool : list (string * AgentProfile)) : Prop :=
  NoDup (List.map fst pool) /\ Forall (fun ka => fst ka = agent_id (snd ka)) pool.


(** Every worker's load is within its capacity. *)
Definition loads_within_capacity (pool : list (string * AgentProfile)) : Prop :=
  Forall (fun ka => current_load (snd ka) <= max_capacity (snd ka)) pool.

(** What the sweep at [now] does with one queue entry, read off the pool
    and the threshold of [st]: the worker it finds, whether the entry has
    waited longer than [max_queue_time], the message it sends. *)
Definition sweep_target (st : RoutingAgent) (item : QueueItem) : option string :=
  _find_best_agent (available_agents st) (target_skill_level (q_rule item))
    (target_specialization (q_rule item))
    (get_or (md_language (q_metadata item)) "en").

Definition expired (st : RoutingAgent) (now : Z) (item : QueueItem) : bool :=
  Qltb (max_queue_time st) (total_seconds (now - queued_at item)).

Definition sweep_outcome (st : RoutingAgent) (now : Z) (item : QueueItem)
    : option RouteMsg :=
  if opt_truthy (sweep_target st item)
  then Some (MsgTransfer (q_call_id item) (get_or (sweep_target st item) ""))
  else if expired st now item then Some (MsgCallback (q_call_id item))
  else None.

Definition sweep_handles (st : RoutingAgent) (now : Z) (item : QueueItem) : bool :=
  match sweep_outcome st now item with Some _ => true | None => false end.

Definition sweep_messages (st : RoutingAgent) (now : Z) (items : list QueueItem)
    : list RouteMsg :=
  flat_map (fun item => match sweep_outcome st now item with
                        | Some m => [m]
                        | None => []
                        end) items.

(** The indices, counted from [i], of the entries the sweep handles. *)
Fixpoint sweep_marks (st : RoutingAgent) (now : Z) (i : nat)
    (items : list QueueItem) : list nat :=
  match items with
  | [] => []
  | item :: rest =>
      (if sweep_handles st now item then [i] else [])
      ++ sweep_marks st now (S i) rest
  end.

(** No worker of the pool passes the four tests of the candidate loop
    for the entry. *)
Definition no_matching_worker (st : RoutingAgent) (item : QueueItem) : Prop :=
  forall k a, In (k, a) (available_agents st) ->
    is_candidate (target_skill_level (q_rule item))
      (target_specialization (q_rule item))
      (get_or (md_language (q_metadata item)) "en") a = false.

(** The two states have the same pool. *)
Definition same_pool (s s' : RoutingAgent) : Prop :=
  available_agents s' = available_agents s.

(** The worker whose load [_execute_routing] increments for a decision:
    the target of a transfer or an escalation, when there is one. *)
Definition assigns (decision : RoutingDecision) (target : option string)
    : option string :=
  match decision with
  | AGENT_TRANSFER | ESCALATE => if opt_truthy target then target else None
  | _ => None
  end.

(** The pool after the load of [assigned] has been incremented. *)
Definition pool_after (assigned : option string)
    (pool : list (string * AgentProfile)) : list (string * AgentProfile) :=
  match assigned with
  | Some t => dict_update t incr_load pool
  | None => pool
  end.

(** The load of the worker stored under [k] ([None] when there is none). *)
Definition load_of (k : string) (st : RoutingAgent) : option Z :=
  option_map current_load (dict_get k (available_agents st)).

(** *** Concrete engines and calls *)

(** The engine as [__init__] and [_initialize] leave it under the default
    configuration (thresholds 0.8 and 0.3, five minutes of queue time). *)
Definition default_engine : RoutingAgent :=
  snd (_initialize (init (8 # 10) (3 # 10) 300)).

(** A Monday at ten in the morning. *)
Definition office_hours : Clock := {| utcnow := 0; weekday := 0; hour := 10 |}.

Definition empty_summary : Summary :=
  {| topics := []; action_items := []; customer_issues := [];
     sentiment := None; resolution_confidence := None |}.

Definition empty_metadata : Metadata :=
  {| md_priority := None; md_language := None; md_customer_phone := None |}.

(** An urgent call with negative sentiment. *)
Definition urgent_negative_call : Payload :=
  {| call_id := "call-1";
     metadata := {| md_priority := Some (VStr "urgent"); md_language := None;
                    md_customer_phone := None |};
     summary := {| topics := []; action_items := []; customer_issues := [];
                   sentiment := Some (VStr "negative");
                   resolution_confidence := None |};
     quality_score := None |}.

(** A billing call in English waiting in the queue of the default engine
    since time 0, tagged with the billing rule. *)
Definition billing_rule : RoutingRule :=
  {| rule_id := "R003"; rule_name := "Billing Inquiries";
     conditions := [("category", VStr "billing")];
     action := AGENT_TRANSFER; priority := 3;
     target_skill_level := None; target_specialization := Some "billing" |}.

Definition engine_with_waiting_call : RoutingAgent :=
  with_queue (fun _ => [ {| q_call_id := "call-9"; q_metadata := empty_metadata;
                            q_rule := billing_rule; queued_at := 0 |} ])
             default_engine.

(** A call that needs a technical-support specialist speaking German,
    which the default pool does not have, queued at time 0. *)
Definition technical_rule : RoutingRule :=
  {| rule_id := "R002"; rule_name := "Technical Issues";
     conditions := [("category", VStr "technical"); ("complexity", VStr "high")];
     action := AGENT_TRANSFER; priority := 2;
     target_skill_level := Some SPECIALIST;
     target_specialization := Some "technical_support" |}.

Definition german_call : QueueItem :=
  {| q_call_id := "call-7";
     q_metadata := {| md_priority := None; md_language := Some "de";
                      md_customer_phone := None |};
     q_rule := technical_rule; queued_at := 0 |}.

Definition engine_with_german_call : RoutingAgent :=
  with_queue (fun _ => [german_call]) default_engine.

(** Two rules without conditions, a transfer rule of priority 1 and an
    end-call rule of priority 2, over an empty pool. *)
Definition transfer_first : RoutingRule :=
  {| rule_id := "A"; rule_name := "transfer"; conditions := [];
     action := AGENT_TRANSFER; priority := 1;
     target_skill_level := None; target_specialization := Some "billing" |}.

Definition end_call_second : RoutingRule :=
  {| rule_id := "B"; rule_name := "end"; conditions := [];
     action := END_CALL; priority := 2;
     target_skill_level := None; target_specialization := None |}.

Definition engine_two_rules : RoutingAgent :=
  {| available_agents := []; routing_rules := [end_call_second; transfer_first];
     active_routes := ∅; queue := []; routing_history := [];
     auto_resolve_threshold := 8 # 10; escalation_threshold := 3 # 10;
     max_queue_time := 300; outbox := [] |}.

(** *** Rule evaluation as the specification words it *)

(** Every declared condition key has a corresponding call attribute, and
    the attribute's value is the expected one. *)
Definition conditions_hold (rule : RoutingRule) (factors : list (string * PyVal))
    : bool :=
  forallb
    (fun '(key, expected_value) =>
       match dict_get key factors with
       | Some v => py_eqb v expected_value
       | None => false
       end)
    (conditions rule).

(** "The first rule, in ascending priority, whose every declared
    condition key matches the corresponding call attribute value exactly
    supplies the action": the decision carries that rule's action. *)
Definition first_match_supplies_action : Prop :=
  forall st call md s quality c rule,
    List.find (fun r => conditions_hold r (routing_factors md s c))
              (sorted_rules (routing_rules st)) = Some rule ->
    exists target,
      fst (_make_routing_decision call md s quality c st) = Ok (action rule, target).

(** *** Descriptions used by the further properties *)

(** The messages [_execute_routing] sends for a decision. *)
Definition decision_messages (call : string) (decision : RoutingDecision)
    (target : option string) : list RouteMsg :=
  match decision with
  | AUTO_RESOLVE => [MsgAutoResolve call]
  | AGENT_TRANSFER =>
      if opt_truthy target then [MsgTransfer call (get_or target "")] else []
  | ESCALATE =>
      if opt_truthy target then [MsgEscalate call (get_or target "")] else []
  | CALLBACK => [MsgCallback call]
  | END_CALL => [MsgEndCall call]
  end.

(** The route recorded for a decision. *)
Definition route_of (decision : RoutingDecision) (target : option string)
    (now : Z) : Route :=
  {| r_decision := decision; r_target := target; r_timestamp := now |}.

(** Profile [a'] is profile [a] with a load that is not smaller. *)
Definition only_load_grew (a a' : AgentProfile) : Prop :=
  agent_id a' = agent_id a /\ name a' = name a
  /\ skill_level a' = skill_level a
  /\ specializations a' = specializations a
  /\ max_capacity a' = max_capacity a
  /\ availability a' = availability a
  /\ performance_score a' = performance_score a
  /\ languages a' = languages a
  /\ current_load a <= current_load a'.

(** Pool [pool'] has the keys of [pool], in the same order, and each
    profile differs from the old one at most by a load that grew. *)
Definition pool_grew (pool pool' : list (string * AgentProfile)) : Prop :=
  Forall2 (fun ka ka' => fst ka' = fst ka /\ only_load_grew (snd ka) (snd ka'))
          pool pool'.


(** No rule's conditions are met by the call. *)
Definition no_rule_matches (st : RoutingAgent) (p : Payload) (c : Clock) : Prop :=
  List.find
    (fun r => _check_rule_conditions r (routing_factors (metadata p) (summary p) c))
    (sorted_rules (routing_rules st)) = None.

(** A technical call of high complexity in German. *)
Definition german_technical_call : Payload :=
  {| call_id := "call-7";
     metadata := {| md_priority := None; md_language := Some "de";
                    md_customer_phone := None |};
     summary := {| topics := ["System ERROR on login"];
                   action_items := ["a"; "b"; "c"; "d"];
                   customer_issues := [];
                   sentiment := None; resolution_confidence := None |};
     quality_score := None |}.

(** A call the summarizer is confident about, which no rule of the
    default engine matches during office hours. *)
Definition confident_call : Payload :=
  {| call_id := "call-3";
     metadata := empty_metadata;
     summary := {| topics := ["question"]; action_items := ["a"; "b"];
                   customer_issues := [];
                   sentiment := None; resolution_confidence := Some (85 # 100) |};
     quality_score := None |}.

End Routing.

(* ===================================================================== *)
(** * [src/core/base_agent.py]: messages *)
(* ===================================================================== *)

Module Msg.

Inductive MessageType : Type :=
| CALL_INTAKE | TRANSCRIPTION | SUMMARY | QUALITY_SCORE
| ROUTING | ERROR | STATUS | CONTROL.

#[global] Instance MessageType_eq_dec : EqDecision MessageType.
Proof. solve_decision. Defined.

(** [MessageType.X.value] *)
Definition type_value (t : MessageType) : string :=
  match t with
  | CALL_INTAKE => "call_intake" | TRANSCRIPTION => "transcription"
  | SUMMARY => "summary" | QUALITY_SCORE => "quality_score"
  | ROUTING => "routing" | ERROR => "error"
  | STATUS => "status" | CONTROL => "control"
  end.

(** What the [type] attribute of a [Message] holds: the model class sets
    [use_enum_values], so depending on how the message was built the
    attribute is an enum member or the member's plain string value. *)
Inductive TypeField : Type :=
| Member (t : MessageType)
| Plain (s : string).

(** [str(x)] of the attribute; members of a [str]-mixin enum compare equal
    to their value. *)
Definition field_str (f : TypeField) : string :=
  match f with Member t => type_value t | Plain s => s end.

(** [message.type in message_types] *)
Definition type_in (f : TypeField) (l : list MessageType) : bool :=
  existsb (fun t => String.eqb (field_str f) (type_value t)) l.

(** [message.type.value]: a plain [str] has no attribute [value]. *)
Definition field_value {S} (f : TypeField) : M S string :=
  match f with
  | Member t => ret (type_value t)
  | Plain _ => raise (AttributeError "'str' object has no attribute 'value'")
  end.

(** [class Message(BaseModel)]; [timestamp], [metadata], [correlation_id]
    and [reply_to] play no role in the modelled code. *)
Record Message : Type := {
  id : string;
  type : TypeField;
  sender : string;
  recipient : string;
  payload : list (string * PyVal)
}.

End Msg.

(* ===================================================================== *)
(** * [src/core/base_agent.py]: the agent frame *)
(* ===================================================================== *)

Module Agent.

Inductive AgentState : Type :=
| IDLE | INITIALIZING | READY | PROCESSING | ERROR | SHUTDOWN.

#[global] Instance AgentState_eq_dec : EqDecision AgentState.
Proof. solve_decision. Defined.

(** The lifecycle fields of [BaseAgent].  [state_history] holds the
    recorded [(old_state, new_state)] pairs, oldest first (their
    timestamps are dropped); [_tasks] counts the tasks created so far;
    [handlers_registered] tells whether [_register_handlers] has run. *)
Record BaseAgent : Type := {
  state : AgentState;
  state_history : list (AgentState * AgentState);
  handlers_registered : bool;
  _running : bool;
  _tasks : nat
}.

(** [BaseAgent.__init__] *)
Definition new : BaseAgent :=
  {| state := IDLE; state_history := []; handlers_registered := false;
     _running := false; _tasks := 0 |}.

(** [set_state] *)
Definition set_state (s : AgentState) : M BaseAgent unit :=
  modify (fun a =>
    {| state := s;
       state_history := state_history a ++ [(state a, s)];
       handlers_registered := handlers_registered a;
       _running := _running a; _tasks := _tasks a |}).

(** [get_state] *)
Definition get_state : M BaseAgent AgentState :=
  fun a => (Ok (state a), a).

Definition _register_handlers : M BaseAgent unit :=
  modify (fun a =>
    {| state := state a; state_history := state_history a;
       handlers_registered := true;
       _running := _running a; _tasks := _tasks a |}).

Definition set_running (b : bool) : M BaseAgent unit :=
  modify (fun a =>
    {| state := state a; state_history := state_history a;
       handlers_registered := handlers_registered a;
       _running := b; _tasks := _tasks a |}).

(** [task = asyncio.create_task(...); self._tasks.append(task)] *)
Definition spawn_task : M BaseAgent unit :=
  modify (fun a =>
    {| state := state a; state_history := state_history a;
       handlers_registered := handlers_registered a;
       _running := _running a; _tasks := S (_tasks a) |}).

(** An abstract hook ([_initialize], [_start], [_stop]) of the concrete
    agent: it returns, or it raises.  No hook under [src/agents] touches
    the lifecycle state; the tasks a [_start] hook appends to [_tasks]
    are not counted. *)
Definition hook (succeeds : bool) (what : string) : M BaseAgent unit :=
  if succeeds then ret tt else raise (HandlerError what).

Local Open Scope monad_scope.

(** [initialize] *)
Definition initialize (hook_ok : bool) : M BaseAgent unit :=
  try_except
    ( set_state INITIALIZING ;;
      _register_handlers ;;
      hook hook_ok "_initialize" ;;
      set_state READY )
    (fun e =>
       set_state ERROR ;;
       raise (AgentException (String.append "Initialization failed: " (exn_str e)))).

(** [start] *)
Definition start (hook_ok : bool) : M BaseAgent unit :=
  a <- get ;;
  if negb (bool_decide (state a = READY))
  then raise (AgentException "Agent must be in READY state to start")
  else
    set_running true ;;
    spawn_task ;;
    hook hook_ok "_start".

(** [stop], awaited from outside the agent's own tasks: cancelling and
    awaiting the tasks then leaves the fields alone. *)
Definition stop (hook_ok : bool) : M BaseAgent unit :=
  set_running false ;;
  hook hook_ok "_stop" ;;
  set_state SHUTDOWN.

(** [restart] *)
Definition restart (stop_ok init_ok start_ok : bool) : M BaseAgent unit :=
  stop stop_ok ;;
  initialize init_ok ;;
  start start_ok.

(** Who awaits a lifecycle method: code outside the agent's tasks (the
    orchestrator, a test), or one of the tasks listed in [_tasks] (the
    message loop, when [_handle_control_message] awaits [restart]). *)
Inductive Caller : Type :=
| FromOutside
| FromOwnTask.

(** How an awaited method ends for its caller: it returns or raises, or
    the await never completes. *)
Inductive Ending : Type :=
| Ends (r : result unit)
| Hangs.

(** [stop] as [who] sees it.  Run by one of the agent's own tasks, the
    loop over [self._tasks] requests the cancellation of the task that
    is running [stop], and [asyncio.gather] over that same task can then
    never complete: the method does not reach [set_state]. *)
Definition stop_by (who : Caller) (hook_ok : bool) (a : BaseAgent)
    : Ending * BaseAgent :=
  match who with
  | FromOutside => (Ends (fst (stop hook_ok a)), snd (stop hook_ok a))
  | FromOwnTask =>
      match (set_running false ;; hook hook_ok "_stop") a with
      | (Ok _, a') => (Hangs, a')
      | (Raise e, a') => (Ends (Raise e), a')
      end
  end.

(** [restart] as [who] sees it. *)
Definition restart_by (who : Caller) (stop_ok init_ok start_ok : bool)
    (a : BaseAgent) : Ending * BaseAgent :=
  match stop_by who stop_ok a with
  | (Ends (Ok _), a1) =>
      (Ends (fst ((initialize init_ok ;; start start_ok) a1)),
       snd ((initialize init_ok ;; start start_ok) a1))
  | (ending, a1) => (ending, a1)
  end.

(** A call of one of the four lifecycle operations, with the outcome of
    each hook it runs. *)
Inductive Call : Type :=
| Initialize (hook_ok : bool)
| Start (hook_ok : bool)
| Stop (hook_ok : bool)
| Restart (stop_ok init_ok start_ok : bool).

Definition run_call (c : Call) : M BaseAgent unit :=
  match c with
  | Initialize ok => initialize ok
  | Start ok => start ok
  | Stop ok => stop ok
  | Restart so io st => restart so io st
  end.

(** The agent after a sequence of calls; a call that raises leaves the
    agent as the raise found it and the caller goes on. *)
Definition run_calls (cs : list Call) (a : BaseAgent) : BaseAgent :=
  fold_left (fun a c => snd (run_call c a)) cs a.

(** The transition table of the specification: Idle -> Initializing ->
    Ready -> (Ready <-> Processing) -> Shutdown, any state -> Error,
    Error -> Initializing. *)
Definition legal_transition (old new : AgentState) : bool :=
  match old, new with
  | _, ERROR => true
  | IDLE, INITIALIZING => true
  | INITIALIZING, READY => true
  | READY, PROCESSING => true
  | PROCESSING, READY => true
  | READY, SHUTDOWN => true
  | PROCESSING, SHUTDOWN => true
  | ERROR, INITIALIZING => true
  | _, _ => false
  end.

(** The transitions the frame records: [initialize] enters Initializing
    from whatever state the agent is in and leaves it for Ready or Error;
    [stop] enters Shutdown from whatever state the agent is in. *)
Definition recorded_transition (old new : AgentState) : bool :=
  match old, new with
  | _, INITIALIZING => true
  | INITIALIZING, READY => true
  | INITIALIZING, ERROR => true
  | _, SHUTDOWN => true
  | _, _ => false
  end.

(** The recorded history is a chain of transitions from [from] to [to]. *)
Fixpoint links (from : AgentState) (h : list (AgentState * AgentState))
    (to : AgentState) : Prop :=
  match h with
  | [] => from = to
  | (old, new) :: h' => old = from /\ links new h' to
  end.

(** What holds of an agent after any sequence of lifecycle calls. *)
Definition lifecycle_ok (a : BaseAgent) : Prop :=
  Forall (fun tr => recorded_transition (fst tr) (snd tr) = true) (state_history a)
  /\ Forall (fun tr => fst tr <> PROCESSING /\ snd tr <> PROCESSING) (state_history a)
  /\ links IDLE (state_history a) (state a)
  /\ state a <> PROCESSING.

(** "Every state transition recorded is an element of the legal
    transition table", for a new agent and any sequence of calls. *)
Definition transitions_legal : Prop :=
  forall cs : list Call,
    Forall (fun tr => legal_transition (fst tr) (snd tr) = true)
           (state_history (run_calls cs new)).

End Agent.

(* ===================================================================== *)
(** * [src/communication/message_bus.py] *)
(* ===================================================================== *)

(** [class MessageBroker(ABC)].  [H] is the type of the registered
    callables.  [broker_publish] is given the way to call a handler in the
    caller's state [S]: a broker that delivers synchronously runs the
    handlers there. *)
Class MessageBroker (H B : Type) : Type := {
  broker_connect : M B unit;
  broker_disconnect : M B unit;
  broker_publish :
    forall {S : Type}, (H -> Msg.Message -> M S unit) ->
                       string -> Msg.Message -> B -> M S B;
  broker_subscribe : string -> H -> M B unit;
  broker_unsubscribe : string -> nat -> M B unit
}.

(** A broker touches the state of the caller of [publish] only by calling
    handlers: whatever every handler call preserves, the publish
    preserves. *)
Definition publishes_through_handlers (H B : Type) `{MessageBroker H B} : Prop :=
  forall (S : Type) (R : S -> S -> Prop),
    Reflexive R -> Transitive R ->
    forall invoke : H -> Msg.Message -> M S unit,
      (forall h m, preserves R (invoke h m)) ->
      forall topic message b, preserves R (broker_publish invoke topic message b).

(** [class MemoryBroker] *)
Module MemoryBroker.
Section WithHandlers.
Context {H : Type}.

Record t : Type := { subscriptions : gmap string (list H) }.

Definition new : t := {| subscriptions := ∅ |}.

Definition connect : M t unit := ret tt.
Definition disconnect : M t unit := ret tt.

Local Open Scope monad_scope.

(** [publish]: an exception of a handler is logged and dropped.  A
    handler runs in the caller's state; the handlers this repository
    registers ([receive_message] of an agent) do not call back into the
    broker while it iterates.  [Live.publish] below is the same method
    for handlers that do. *)
Definition publish {S : Type} (invoke : H -> Msg.Message -> M S unit)
    (topic : string) (message : Msg.Message) (b : t) : M S t :=
  match subscriptions b !! topic with
  | Some handlers =>
      for_each handlers
        (fun handler => try_except (invoke handler message) (fun _ => ret tt)) ;;
      ret b
  | None => ret b
  end.

(** [subscribe] *)
Definition subscribe (topic : string) (handler : H) : M t unit :=
  modify (fun b =>
    {| subscriptions :=
         <[topic := default [] (subscriptions b !! topic) ++ [handler]]>
           (subscriptions b) |}).

(** [unsubscribe]: [self.subscriptions[topic].clear()] whatever
    [handler_id] is. *)
Definition unsubscribe (topic : string) (handler_id : nat) : M t unit :=
  modify (fun b =>
    match subscriptions b !! topic with
    | Some _ => {| subscriptions := <[topic := []]> (subscriptions b) |}
    | None => b
    end).

(** The handlers a publish on [topic] calls. *)
Definition subscribers (b : t) (topic : string) : list H :=
  default [] (subscriptions b !! topic).

(** Calling a handler whose call is recorded in a trace, oldest call
    first, and which then returns or, when [raises] says so, raises. *)
Definition recorded_call (raises : H -> Msg.Message -> bool)
    (handler : H) (message : Msg.Message) : M (list (H * Msg.Message)) unit :=
  modify (fun trace => trace ++ [(handler, message)]) ;;
  if raises handler message then raise (HandlerError "handler") else ret tt.
End WithHandlers.
Arguments t H : clear implicits.

(** *** Callbacks that reach the broker

    [publish] above hands each handler the caller's state and reads the
    topic's list once.  A handler is any callable, though: it can hold a
    reference to the broker and call its methods while the loop
    [for handler in self.subscriptions[topic]] runs.  That loop walks,
    by index, the very list object that [subscribe] appends to and
    [unsubscribe] clears (no method of the broker rebinds or deletes an
    entry of the dict), and its [except Exception] lets through what is
    no [Exception].  The definitions below run the callbacks against the
    broker itself. *)
Module Live.
Section Reentrant.
Context {H : Type}.

(** The broker together with the trace of the callbacks made so far,
    oldest first. *)
Record World : Type := {
  w_broker : t H;
  w_calls : list (H * Msg.Message)
}.

(** How a callback ends: it returns, it raises an [Exception], or it
    raises a [BaseException] that is no [Exception]
    ([asyncio.CancelledError], [KeyboardInterrupt], [SystemExit]). *)
Inductive Outcome : Type :=
| Returns
| Raises (e : exn)
| Escapes (what : string).

(** What the callback of a handler does with a message: any change of
    the world, and an outcome. *)
Variable callback : H -> Msg.Message -> World -> Outcome * World.

(** How a publish ends: it returns, an exception leaves it, or the
    fuel of the model ran out before the loop ended. *)
Inductive Delivery : Type :=
| Delivered
| Propagated (what : string)
| OutOfFuel.

Definition log_call (handler : H) (message : Msg.Message) (w : World) : World :=
  {| w_broker := w_broker w; w_calls := w_calls w ++ [(handler, message)] |}.

(** The loop over the list: the iterator holds an index and stops when
    the index is no longer inside the list as it is then. *)
Fixpoint deliver (fuel : nat) (topic : string) (message : Msg.Message)
    (i : nat) (w : World) : Delivery * World :=
  match fuel with
  | O => (OutOfFuel, w)
  | S fuel' =>
      match subscribers (w_broker w) topic !! i with
      | None => (Delivered, w)
      | Some handler =>
          match callback handler message (log_call handler message w) with
          | (Escapes what, w') => (Propagated what, w')
          | (_, w') => deliver fuel' topic message (S i) w'
          end
      end
  end.

(** [publish] *)
Definition publish (fuel : nat) (topic : string) (message : Msg.Message)
    (w : World) : Delivery * World :=
  match subscriptions (w_broker w) !! topic with
  | Some _ => deliver fuel topic message 0 w
  | None => (Delivered, w)
  end.

(** A broker method called from inside a callback. *)
Definition on_broker (m : M (t H) unit) (w : World) : World :=
  {| w_broker := snd (m (w_broker w)); w_calls := w_calls w |}.

(** The callbacks leave the subscriber list of [topic] and the trace as
    they find them, and none raises past [except Exception]. *)
Definition leaves_topic_alone (topic : string) (message : Msg.Message) : Prop :=
  forall handler w,
    (forall what, fst (callback handler message w) <> Escapes what)
    /\ subscribers (w_broker (snd (callback handler message w))) topic
       = subscribers (w_broker w) topic
    /\ w_calls (snd (callback handler message w)) = w_calls w.
End Reentrant.
Arguments World H : clear implicits.




(** Handlers 1 and 2 subscribed, in this order, to "calls". *)
Definition two_subscribers : World nat :=
  {| w_broker := snd (subscribe "calls" 2%nat (snd (subscribe "calls" 1%nat new)));
     w_calls := [] |}.
End Live.

#[global] Instance broker {H} : MessageBroker H (t H) := {
  broker_connect := connect;
  broker_disconnect := disconnect;
  broker_publish := @publish H;
  broker_subscribe := subscribe;
  broker_unsubscribe := unsubscribe
}.
End MemoryBroker.

(** [class RedisBroker], as far as a process sees it without the network:
    [server_up] tells whether the part of an operation that leaves the
    process (serialising the message, talking to the server) succeeds,
    [channel_log] is what has been sent to the server.  The handlers of a
    channel form a set; the listener loop that calls them is not part of
    this model. *)
Module RedisBroker.
Section WithHandlers.
Context {H : Type} `{EqDecision H}.

Record t : Type := {
  redis_client : bool;          (* [self.redis_client is not None] *)
  pubsub : bool;                (* [self.pubsub is not None] *)
  subscriptions : gmap string (list H);
  _listening : bool;
  server_up : bool;
  channel_log : list (string * Msg.Message)
}.

Definition new (up : bool) : t :=
  {| redis_client := false; pubsub := false; subscriptions := ∅;
     _listening := false; server_up := up; channel_log := [] |}.

Definition channel_of (topic : string) : string :=
  String.append "call_center_" topic.

Local Open Scope monad_scope.

(** A network operation. *)
Definition network (what : string) : M t unit :=
  b <- get ;;
  if server_up b then ret tt else raise (HandlerError what).

Definition connect : M t unit :=
  try_except
    ( modify (fun b =>
        {| redis_client := true; pubsub := pubsub b;
           subscriptions := subscriptions b; _listening := _listening b;
           server_up := server_up b; channel_log := channel_log b |}) ;;
      network "ping" ;;
      modify (fun b =>
        {| redis_client := redis_client b; pubsub := true;
           subscriptions := subscriptions b; _listening := _listening b;
           server_up := server_up b; channel_log := channel_log b |}) )
    (fun e =>
       raise (CommunicationException
                (String.append "Failed to connect to Redis: " (exn_str e)))).

Definition disconnect : M t unit :=
  modify (fun b =>
    {| redis_client := redis_client b; pubsub := pubsub b;
       subscriptions := subscriptions b; _listening := false;
       server_up := server_up b; channel_log := channel_log b |}).

(** [publish]: the handlers are called later, by the listener loop. *)
Definition publish_here (topic : string) (message : Msg.Message) : M t unit :=
  try_except
    ( b <- get ;;
      if negb (redis_client b)
      then raise (CommunicationException "Not connected to Redis")
      else
        network "publish" ;;
        modify (fun b =>
          {| redis_client := redis_client b; pubsub := pubsub b;
             subscriptions := subscriptions b; _listening := _listening b;
             server_up := server_up b;
             channel_log := channel_log b ++ [(channel_of topic, message)] |}) )
    (fun e =>
       raise (CommunicationException
                (String.append "Failed to publish message: " (exn_str e)))).

Definition publish {S : Type} (invoke : H -> Msg.Message -> M S unit)
    (topic : string) (message : Msg.Message) (b : t) : M S t :=
  match publish_here topic message b with
  | (Ok _, b') => ret b'
  | (Raise e, _) => raise e
  end.

Definition set_add (h : H) (l : list H) : list H :=
  if bool_decide (h ∈ l) then l else l ++ [h].

Definition subscribe (topic : string) (handler : H) : M t unit :=
  try_except
    ( b <- get ;;
      if negb (pubsub b)
      then raise (CommunicationException "Not connected to Redis")
      else
        (match subscriptions b !! channel_of topic with
         | Some _ => ret tt
         | None => network "subscribe"
         end) ;;
        modify (fun b =>
          {| redis_client := redis_client b; pubsub := pubsub b;
             subscriptions :=
               <[channel_of topic :=
                   set_add handler
                     (default [] (subscriptions b !! channel_of topic))]>
                 (subscriptions b);
             _listening := true;
             server_up := server_up b; channel_log := channel_log b |}) )
    (fun e =>
       raise (CommunicationException
                (String.append "Failed to subscribe: " (exn_str e)))).

Definition unsubscribe (topic : string) (handler_id : nat) : M t unit :=
  b <- get ;;
  match subscriptions b !! channel_of topic with
  | Some (_ :: _) =>
      modify (fun b =>
        {| redis_client := redis_client b; pubsub := pubsub b;
           subscriptions := <[channel_of topic := []]> (subscriptions b);
           _listening := _listening b;
           server_up := server_up b; channel_log := channel_log b |}) ;;
      (if pubsub b then network "unsubscribe"
       else raise (AttributeError "'NoneType' object has no attribute 'unsubscribe'"))
  | _ => ret tt
  end.
End WithHandlers.
Arguments t H : clear implicits.

#[global] Instance broker {H} `{EqDecision H} : MessageBroker H (t H) := {
  broker_connect := connect;
  broker_disconnect := disconnect;
  broker_publish := @publish H;
  broker_subscribe := subscribe;
  broker_unsubscribe := unsubscribe
}.
End RedisBroker.

(** [class MessageBus] *)
Module MessageBus.
Import Msg.

(** [class MessageHandler]; [handler_func] is the identity [id(f)] of the
    subscriber's function. *)
Record MessageHandler : Type := {
  handler_func : nat;
  message_types : list MessageType;
  message_count : Z
}.

(** The closure [wrapped_handler] that [subscribe] registers with the
    broker: the variables it captures. *)
Record Wrapped : Type := {
  w_topic : string;
  w_func : nat;
  w_types : option (list MessageType)
}.

#[global] Instance Wrapped_eq_dec : EqDecision Wrapped.
Proof. solve_decision. Defined.

(** An entry of [message_history]. *)
Record AuditEntry : Type := {
  a_topic : string;
  a_message_id : string;
  a_message_type : string;
  a_sender : string;
  a_recipient : string;
  a_action : string
}.

Section WithBroker.
Context {B : Type} `{MessageBroker Wrapped B}.

(** How a subscriber's function behaves on a message: [true] when it
    raises. *)
Variable raises : nat -> Message -> bool.

(** The fields of [MessageBus].  [invocations] is the trace of the calls
    of subscribers' functions, oldest first. *)
Record t : Type := {
  broker : option B;
  handlers : gmap string (list MessageHandler);
  message_history : list AuditEntry;
  is_connected : bool;
  messages_sent : Z;
  messages_received : Z;
  errors : Z;
  invocations : list (nat * Message)
}.

(** [MessageBus.__init__] *)
Definition new : t :=
  {| broker := None; handlers := ∅; message_history := [];
     is_connected := false; messages_sent := 0; messages_received := 0;
     errors := 0; invocations := [] |}.

Definition set_broker (b : option B) : M t unit :=
  modify (fun bus =>
    {| broker := b; handlers := handlers bus;
       message_history := message_history bus;
       is_connected := is_connected bus; messages_sent := messages_sent bus;
       messages_received := messages_received bus; errors := errors bus;
       invocations := invocations bus |}).

Definition set_handlers (f : gmap string (list MessageHandler) ->
                             gmap string (list MessageHandler)) : M t unit :=
  modify (fun bus =>
    {| broker := broker bus; handlers := f (handlers bus);
       message_history := message_history bus;
       is_connected := is_connected bus; messages_sent := messages_sent bus;
       messages_received := messages_received bus; errors := errors bus;
       invocations := invocations bus |}).

Definition record_history (e : AuditEntry) : M t unit :=
  modify (fun bus =>
    {| broker := broker bus; handlers := handlers bus;
       message_history := message_history bus ++ [e];
       is_connected := is_connected bus; messages_sent := messages_sent bus;
       messages_received := messages_received bus; errors := errors bus;
       invocations := invocations bus |}).

Definition set_connected (c : bool) : M t unit :=
  modify (fun bus =>
    {| broker := broker bus; handlers := handlers bus;
       message_history := message_history bus;
       is_connected := c; messages_sent := messages_sent bus;
       messages_received := messages_received bus; errors := errors bus;
       invocations := invocations bus |}).

(** [self.messages_sent += 1] *)
Definition count_sent : M t unit :=
  modify (fun bus =>
    {| broker := broker bus; handlers := handlers bus;
       message_history := message_history bus;
       is_connected := is_connected bus; messages_sent := messages_sent bus + 1;
       messages_received := messages_received bus; errors := errors bus;
       invocations := invocations bus |}).

(** [self.messages_received += 1] *)
Definition count_received : M t unit :=
  modify (fun bus =>
    {| broker := broker bus; handlers := handlers bus;
       message_history := message_history bus;
       is_connected := is_connected bus; messages_sent := messages_sent bus;
       messages_received := messages_received bus + 1; errors := errors bus;
       invocations := invocations bus |}).

(** [self.errors += 1] *)
Definition count_error : M t unit :=
  modify (fun bus =>
    {| broker := broker bus; handlers := handlers bus;
       message_history := message_history bus;
       is_connected := is_connected bus; messages_sent := messages_sent bus;
       messages_received := messages_received bus; errors := errors bus + 1;
       invocations := invocations bus |}).

Local Open Scope monad_scope.

(** [await handler_func(message)], for a subscriber's function that
    returns or raises an [Exception] and does not call back into the
    bus. *)
Definition call_handler_func (f : nat) (message : Message) : M t unit :=
  modify (fun bus =>
    {| broker := broker bus; handlers := handlers bus;
       message_history := message_history bus;
       is_connected := is_connected bus; messages_sent := messages_sent bus;
       messages_received := messages_received bus; errors := errors bus;
       invocations := invocations bus ++ [(f, message)] |}) ;;
  if raises f message then raise (HandlerError "handler_func") else ret tt.

(** The metrics loop of [wrapped_handler]: the first handler of the
    list with the given function gets [message_count += 1]. *)
Fixpoint bump_count (f : nat) (l : list MessageHandler) : list MessageHandler :=
  match l with
  | [] => []
  | h :: l' =>
      if Nat.eqb (handler_func h) f
      then {| handler_func := handler_func h;
              message_types := message_types h;
              message_count := message_count h + 1 |} :: l'
      else h :: bump_count f l'
  end.

(** [wrapped_handler] *)
Definition wrapped_handler (w : Wrapped) (message : Message) : M t unit :=
  try_except
    ( if match w_types w with
         | Some ((_ :: _) as types) => negb (type_in (type message) types)
         | _ => false
         end
      then ret tt
      else
        call_handler_func (w_func w) message ;;
        count_received ;;
        set_handlers (fun hs =>
          match hs !! w_topic w with
          | Some l => <[w_topic w := bump_count (w_func w) l]> hs
          | None => hs
          end) )
    (fun _ => count_error).

(** [initialize], given the broker object its first branch constructs. *)
Definition initialize (fresh : B) : M t unit :=
  try_except
    ( match broker_connect fresh with
      | (Ok _, b) => set_broker (Some b)
      | (Raise e, b) => set_broker (Some b) ;; raise e
      end ;;
      set_connected true )
    (fun e =>
       raise (CommunicationException
                (String.append "Message bus initialization failed: " (exn_str e)))).

(** [shutdown] *)
Definition shutdown : M t unit :=
  bus <- get ;;
  match broker bus with
  | Some b =>
      match broker_disconnect b with
      | (Ok _, b') => set_broker (Some b')
      | (Raise e, b') => set_broker (Some b') ;; raise e
      end
  | None => ret tt
  end ;;
  set_connected false.

(** [self.broker.m(...)] for a method [m] of the broker that runs in the
    broker's own state. *)
Definition on_broker (m : M B unit) : M t unit :=
  bus <- get ;;
  match broker bus with
  | Some b =>
      match m b with
      | (Ok _, b') => set_broker (Some b')
      | (Raise e, b') => set_broker (Some b') ;; raise e
      end
  | None => raise (AttributeError "'NoneType' object has no attribute")
  end.

(** [await self.broker.publish(topic, message)] *)
Definition delegate_publish (topic : string) (message : Message) : M t unit :=
  bus <- get ;;
  match broker bus with
  | Some b =>
      b' <- broker_publish wrapped_handler topic message b ;;
      set_broker (Some b')
  | None => raise (AttributeError "'NoneType' object has no attribute 'publish'")
  end.

(** [publish] *)
Definition publish (topic : string) (message : Message) : M t unit :=
  try_except
    ( bus <- get ;;
      if negb (is_connected bus)
      then raise (CommunicationException "Message bus not connected")
      else
        delegate_publish topic message ;;
        count_sent ;;
        type_name <- field_value (type message) ;;
        record_history
          {| a_topic := topic; a_message_id := id message;
             a_message_type := type_name;
             a_sender := sender message; a_recipient := recipient message;
             a_action := "published" |} )
    (fun e =>
       count_error ;;
       raise (CommunicationException
                (String.append "Publish failed: " (exn_str e)))).

(** [subscribe]; the result is the subscription token
    [str(id(handler_func))], kept as the number it prints. *)
Definition subscribe (topic : string) (f : nat)
    (types : option (list MessageType)) : M t nat :=
  try_except
    ( bus <- get ;;
      if negb (is_connected bus)
      then raise (CommunicationException "Message bus not connected")
      else
        on_broker (broker_subscribe topic
                     {| w_topic := topic; w_func := f; w_types := types |}) ;;
        set_handlers (fun hs =>
          <[topic := default [] (hs !! topic)
                     ++ [ {| handler_func := f;
                             message_types := default [] types;
                             message_count := 0 |} ]]> hs) ;;
        ret f )
    (fun e =>
       count_error ;;
       raise (CommunicationException
                (String.append "Subscribe failed: " (exn_str e)))).

(** [unsubscribe] *)
Definition unsubscribe (topic : string) (handler_id : nat) : M t unit :=
  try_except
    ( on_broker (broker_unsubscribe topic handler_id) ;;
      set_handlers (fun hs =>
        match hs !! topic with
        | Some l =>
            <[topic := List.filter
                         (fun h => negb (Nat.eqb (handler_func h) handler_id)) l]> hs
        | None => hs
        end) )
    (fun e =>
       raise (CommunicationException
                (String.append "Unsubscribe failed: " (exn_str e)))).

(** The functions the bus lists as registered on [topic]. *)
Definition registered (bus : t) (topic : string) : list nat :=
  List.map handler_func (default [] (handlers bus !! topic)).

(** From [s] to [s'] nothing was counted as sent, no error count was
    lost, and the connection flag is the same. *)
Definition bus_progress (s s' : t) : Prop :=
  messages_sent s' = messages_sent s
  /\ errors s <= errors s'
  /\ is_connected s' = is_connected s.

(** From [s] to [s'] no subscriber's function was called. *)
Definition bus_silent (s s' : t) : Prop := invocations s' = invocations s.
End WithBroker.
Arguments t B : clear implicits.

(** *** What a publish does with the wrapped handlers of a topic *)

(** The wrapped handler lets the message through to the subscriber's
    function: no kinds were given at subscription, or the message's kind
    is one of them. *)
Definition accepts (w : Wrapped) (message : Message) : bool :=
  match w_types w with
  | Some ((_ :: _) as types) => type_in (type message) types
  | _ => true
  end.

(** The calls of subscribers' functions for a message, in the order of
    the wrapped handlers. *)
Definition calls_of (ws : list Wrapped) (message : Message) : list (nat * Message) :=
  List.map (fun w => (w_func w, message))
           (List.filter (fun w => accepts w message) ws).

(** How many of the called functions return, and how many raise. *)
Definition returned (raises : nat -> Message -> bool) (ws : list Wrapped)
    (message : Message) : Z :=
  Z.of_nat (length (List.filter
                      (fun w => accepts w message && negb (raises (w_func w) message))
                      ws)).

Definition raised (raises : nat -> Message -> bool) (ws : list Wrapped)
    (message : Message) : Z :=
  Z.of_nat (length (List.filter
                      (fun w => accepts w message && raises (w_func w) message)
                      ws)).

(** *** Concrete buses and messages *)

Definition sample_message : Message :=
  {| id := "m-1"; type := Member ROUTING; sender := "intake";
     recipient := "routing"; payload := [("call_id", VStr "call-1")] |}.

(** The same message as the constructor [Message(type=MessageType.ROUTING,
    ...)] stores it: [use_enum_values] keeps the member's string. *)
Definition constructed_message : Message :=
  {| id := "m-1"; type := Plain "routing"; sender := "intake";
     recipient := "routing"; payload := [("call_id", VStr "call-1")] |}.

(** A bus that was never initialized. *)
Definition fresh_bus : t (MemoryBroker.t Wrapped) := new.

(** A bus connected to a Redis server that has since gone down. *)
Definition redis_bus_server_down : t (RedisBroker.t Wrapped) :=
  {| broker := Some {| RedisBroker.redis_client := true;
                       RedisBroker.pubsub := true;
                       RedisBroker.subscriptions := ∅;
                       RedisBroker._listening := false;
                       RedisBroker.server_up := false;
                       RedisBroker.channel_log := [] |};
     handlers := ∅; message_history := []; is_connected := true;
     messages_sent := 0; messages_received := 0; errors := 0;
     invocations := [] |}.

(** An in-memory bus with the functions 1 and 2 subscribed, in this
    order, to the topic "calls". *)
Definition memory_bus_two_handlers : t (MemoryBroker.t Wrapped) :=
  snd (subscribe "calls" 2 None
         (snd (subscribe "calls" 1 None
                 (snd (initialize MemoryBroker.new new))))).

End MessageBus.

(* ===================================================================== *)
(** * [src/communication/event_system.py] *)
(* ===================================================================== *)

Module Events.

Inductive EventType : Type :=
| CALL_STARTED | CALL_ENDED | TRANSCRIPTION_COMPLETED | SUMMARY_GENERATED
| QUALITY_SCORED | CALL_ROUTED | AGENT_ASSIGNED | ESCALATION_TRIGGERED
| SYSTEM_ALERT | PERFORMANCE_METRIC.

#[global] Instance EventType_eq_dec : EqDecision EventType.
Proof. solve_decision. Defined.

(** [@dataclass Event]; the [data] map and [correlation_id] play no role
    in the modelled code. *)
Record Event : Type := {
  id : string;
  type : EventType;
  source : string;
  timestamp : Z
}.

(** [class EventListener].  [listener_id] is the identity [id(listener)];
    a filter or a handler returns a value or raises an [Exception], and
    does not call back into the event system. *)
Record EventListener : Type := {
  listener_id : nat;
  event_types : list EventType;
  handler : Event -> result unit;
  filter_func : option (Event -> result bool)
}.

(** The fields of [EventSystem].  [event_queue] is the [asyncio.Queue],
    head first; [delivered] is the trace of the handler calls, oldest
    first. *)
Record EventSystem : Type := {
  listeners : list (EventType * list EventListener);
  event_history : list Event;
  max_history : Z;
  is_running : bool;
  event_queue : list Event;
  events_published : Z;
  events_processed : Z;
  listener_count : Z;
  delivered : list (nat * Event)
}.

(** [EventSystem.__init__] *)
Definition new (max_history : Z) : EventSystem :=
  {| listeners := []; event_history := []; max_history := max_history;
     is_running := false; event_queue := [];
     events_published := 0; events_processed := 0; listener_count := 0;
     delivered := [] |}.

(** [l[start:]] with Python's treatment of a negative or too large
    [start]. *)
Definition py_slice_from {A} (start : Z) (l : list A) : list A :=
  let len := Z.of_nat (length l) in
  let i := if start <? 0 then Z.max (len + start) 0 else Z.min start len in
  drop (Z.to_nat i) l.

(** [_add_to_history] *)
Definition _add_to_history (event : Event) : M EventSystem unit :=
  modify (fun es =>
    let history := event_history es ++ [event] in
    {| listeners := listeners es;
       event_history :=
         if max_history es <? Z.of_nat (length history)
         then py_slice_from (- max_history es) history
         else history;
       max_history := max_history es; is_running := is_running es;
       event_queue := event_queue es;
       events_published := events_published es;
       events_processed := events_processed es;
       listener_count := listener_count es;
       delivered := delivered es |}).

(** [self.listeners.get(t)] *)
Fixpoint listeners_of (t : EventType) (d : list (EventType * list EventListener))
    : option (list EventListener) :=
  match d with
  | [] => None
  | (t', ls) :: d' => if bool_decide (t = t') then Some ls else listeners_of t d'
  end.

Local Open Scope monad_scope.

Definition log_delivery (l : EventListener) (event : Event) : M EventSystem unit :=
  modify (fun es =>
    {| listeners := listeners es; event_history := event_history es;
       max_history := max_history es; is_running := is_running es;
       event_queue := event_queue es;
       events_published := events_published es;
       events_processed := events_processed es;
       listener_count := listener_count es;
       delivered := delivered es ++ [(listener_id l, event)] |}).

(** The body of the loop of [_notify_listeners] for one listener. *)
Definition notify_one (event : Event) (l : EventListener) : M EventSystem unit :=
  try_except
    ( keep <- match filter_func l with
              | Some f =>
                  match f event with
                  | Ok b => ret b
                  | Raise e => raise e
                  end
              | None => ret true
              end ;;
      if keep
      then
        log_delivery l event ;;
        match handler l event with
        | Ok _ => ret tt
        | Raise e => raise e
        end
      else ret tt )
    (fun _ => ret tt).

(** [_notify_listeners] *)
Definition _notify_listeners (event : Event) : M EventSystem unit :=
  es <- get ;;
  match listeners_of (type event) (listeners es) with
  | Some ls => for_each ls (notify_one event)
  | None => ret tt
  end.

(** [publish] *)
Definition publish (event : Event) : M EventSystem unit :=
  modify (fun es =>
    {| listeners := listeners es; event_history := event_history es;
       max_history := max_history es; is_running := is_running es;
       event_queue := event_queue es ++ [event];
       events_published := events_published es + 1;
       events_processed := events_processed es;
       listener_count := listener_count es;
       delivered := delivered es |}).

(** What [_process_events] does with an event it took from the queue:
    history, listeners, counter. *)
Definition process_event (event : Event) : M EventSystem unit :=
  _add_to_history event ;;
  _notify_listeners event ;;
  modify (fun es =>
    {| listeners := listeners es; event_history := event_history es;
       max_history := max_history es; is_running := is_running es;
       event_queue := event_queue es;
       events_published := events_published es;
       events_processed := events_processed es + 1;
       listener_count := listener_count es;
       delivered := delivered es |}).

(** One turn of the loop of [_process_events]: an empty queue times out
    and the loop goes on. *)
Definition process_next : M EventSystem unit :=
  es <- get ;;
  match event_queue es with
  | [] => ret tt
  | event :: rest =>
      modify (fun es =>
        {| listeners := listeners es; event_history := event_history es;
           max_history := max_history es; is_running := is_running es;
           event_queue := rest;
           events_published := events_published es;
           events_processed := events_processed es;
           listener_count := listener_count es;
           delivered := delivered es |}) ;;
      try_except (process_event event) (fun _ => ret tt)
  end.

(** The event system after the loop has consumed the given events one
    after the other. *)
Definition after_events (events : list Event) (es : EventSystem) : EventSystem :=
  fold_left (fun es e => snd (process_event e es)) events es.

(** [self.listeners[t] = ls]: overwrite in place, or append a new key. *)
Fixpoint listeners_set (t : EventType) (ls : list EventListener)
    (d : list (EventType * list EventListener))
    : list (EventType * list EventListener) :=
  match d with
  | [] => [(t, ls)]
  | (t', ls') :: d' =>
      if bool_decide (t = t') then (t', ls) :: d' else (t', ls') :: listeners_set t ls d'
  end.

(** [del self.listeners[t]] *)
Definition listeners_del (t : EventType)
    (d : list (EventType * list EventListener))
    : list (EventType * list EventListener) :=
  List.filter (fun tl => negb (bool_decide (t = fst tl))) d.

(** The body of the loop of [subscribe] for one event type. *)
Definition add_listener (l : EventListener)
    (d : list (EventType * list EventListener)) (t : EventType)
    : list (EventType * list EventListener) :=
  listeners_set t (default [] (listeners_of t d) ++ [l]) d.

(** [subscribe], for the listener object it creates; the result is the
    listener id [str(id(listener))], kept as the number it prints. *)
Definition subscribe (l : EventListener) : M EventSystem nat :=
  modify (fun es =>
    {| listeners := fold_left (add_listener l) (event_types l) (listeners es);
       event_history := event_history es;
       max_history := max_history es; is_running := is_running es;
       event_queue := event_queue es;
       events_published := events_published es;
       events_processed := events_processed es;
       listener_count := listener_count es + 1;
       delivered := delivered es |}) ;;
  ret (listener_id l).

(** The body of the loop of [unsubscribe] for one event type: filter the
    list, delete the key when the list has become empty. *)
Definition drop_listener (listener_id0 : nat)
    (d : list (EventType * list EventListener)) (t : EventType)
    : list (EventType * list EventListener) :=
  match listeners_of t d with
  | Some ls =>
      let ls' := List.filter
                   (fun l => negb (Nat.eqb (listener_id l) listener_id0)) ls in
      match ls' with
      | [] => listeners_del t (listeners_set t ls' d)
      | _ => listeners_set t ls' d
      end
  | None => d
  end.

(** [unsubscribe]: the loop runs over a snapshot of the keys. *)
Definition unsubscribe (listener_id0 : nat) : M EventSystem unit :=
  modify (fun es =>
    {| listeners := fold_left (drop_listener listener_id0)
                      (List.map fst (listeners es)) (listeners es);
       event_history := event_history es;
       max_history := max_history es; is_running := is_running es;
       event_queue := event_queue es;
       events_published := events_published es;
       events_processed := events_processed es;
       listener_count := listener_count es - 1;
       delivered := delivered es |}).

(** [get_event_history], before the events are turned into dicts. *)
Definition get_event_history (event_type : option EventType)
    (source0 : option string) (limit : option Z) (es : EventSystem) : list Event :=
  let events := event_history es in
  let events :=
    match event_type with
    | Some t => List.filter (fun e => bool_decide (type e = t)) events
    | None => events
    end in
  let events :=
    match source0 with
    | Some s =>
        if str_truthy s
        then List.filter (fun e => String.eqb (source e) s) events
        else events
    | None => events
    end in
  match limit with
  | Some n => if n =? 0 then events else py_slice_from (- n) events
  | None => events
  end.

Definition with_delivered (f : list (nat * Event) -> list (nat * Event))
    (es : EventSystem) : EventSystem :=
  {| listeners := listeners es; event_history := event_history es;
     max_history := max_history es; is_running := is_running es;
     event_queue := event_queue es;
     events_published := events_published es;
     events_processed := events_processed es;
     listener_count := listener_count es;
     delivered := f (delivered es) |}.

(** The listener is called for the event: it has no filter, or its
    filter returns true. *)
Definition passes (event : Event) (l : EventListener) : bool :=
  match filter_func l with
  | None => true
  | Some f => match f event with Ok b => b | Raise _ => false end
  end.

(** What becomes of the entry of one event type when the listener with
    the given id is unsubscribed. *)
Definition without (listener_id0 : nat) (o : option (list EventListener))
    : option (list EventListener) :=
  match o with
  | Some ls =>
      match List.filter (fun l => negb (Nat.eqb (listener_id l) listener_id0)) ls with
      | [] => None
      | ls' => Some ls'
      end
  | None => None
  end.

(** The [listeners] dict is a dict, and no key has an empty list. *)
Definition listeners_wf (d : list (EventType * list EventListener)) : Prop :=
  NoDup (List.map fst d) /\ Forall (fun tl => snd tl <> []) d.

(** A listener without filter whose handler returns. *)
Definition quiet_listener (listener_id0 : nat) (types : list EventType)
    : EventListener :=
  {| listener_id := listener_id0; event_types := types;
     handler := fun _ => Ok tt; filter_func := None |}.

(** An event system of bound 10 with listener 7 on call starts. *)
Definition one_listener_system : EventSystem :=
  snd (subscribe (quiet_listener 7 [CALL_STARTED]) (new 10)).

(** What the producers and the processing loop do to the event system. *)
Inductive Op : Type :=
| Publish (event : Event)
| Tick.

Definition run_op (o : Op) : M EventSystem unit :=
  match o with
  | Publish e => publish e
  | Tick => process_next
  end.

Definition run_ops (ops : list Op) (es : EventSystem) : EventSystem :=
  fold_left (fun es o => snd (run_op o es)) ops es.

(** The events of the [Publish] operations, in order. *)
Definition published (ops : list Op) : list Event :=
  flat_map (fun o => match o with Publish e => [e] | Tick => [] end) ops.

(** What the counters and the queue say about the events published so
    far. *)
Definition queue_accounts (pub : list Event) (es : EventSystem) : Prop :=
  exists k : nat,
    events_processed es = Z.of_nat k
    /\ (k <= length pub)%nat
    /\ event_queue es = drop k pub
    /\ events_published es = Z.of_nat (length pub).

(** From [s] to [s'] the history and its bound are the same. *)
Definition keeps_history (s s' : EventSystem) : Prop :=
  event_history s' = event_history s /\ max_history s' = max_history s.

(** The last [n] elements of a list. *)
Definition last_n {A} (n : nat) (l : list A) : list A := drop (length l - n) l.

Definition sample_event : Event :=
  {| id := "e-1"; type := CALL_STARTED; source := "intake"; timestamp := 0 |}.

End Events.

(* ===================================================================== *)
(** * [src/core/base_agent.py]: the metrics of an agent *)
(* ===================================================================== *)

Module Metrics.

(** [class AgentMetrics]; the clock fields ([start_time],
    [last_error_time]) are left out. *)
Record AgentMetrics : Type := {
  messages_processed : Z;
  messages_failed : Z;
  total_processing_time : Q;
  average_processing_time : Q;
  last_error : option string
}.

(** [AgentMetrics.__init__] *)
Definition new : AgentMetrics :=
  {| messages_processed := 0; messages_failed := 0;
     total_processing_time := 0; average_processing_time := 0;
     last_error := None |}.

(** [record_success] *)
Definition record_success (processing_time : Q) (m : AgentMetrics) : AgentMetrics :=
  let processed := messages_processed m + 1 in
  let total := (total_processing_time m + processing_time)%Q in
  {| messages_processed := processed;
     messages_failed := messages_failed m;
     total_processing_time := total;
     average_processing_time := (total / inject_Z processed)%Q;
     last_error := last_error m |}.

(** [record_failure] *)
Definition record_failure (error : string) (m : AgentMetrics) : AgentMetrics :=
  {| messages_processed := messages_processed m;
     messages_failed := messages_failed m + 1;
     total_processing_time := total_processing_time m;
     average_processing_time := average_processing_time m;
     last_error := Some error |}.

(** The ["success_rate"] entry of [get_stats]. *)
Definition success_rate (m : AgentMetrics) : Q :=
  if 0 <? messages_processed m + messages_failed m
  then (inject_Z (messages_processed m)
        / inject_Z (messages_processed m + messages_failed m))%Q
  else 0%Q.

(** What the run loop reports for one message: the time a handled
    message took, or the text of the exception. *)
Inductive Outcome : Type :=
| Handled (processing_time : Q)
| Failed (error : string).

Definition record (m : AgentMetrics) (o : Outcome) : AgentMetrics :=
  match o with
  | Handled t => record_success t m
  | Failed e => record_failure e m
  end.

(** The metrics after the run loop has reported the given outcomes. *)
Definition after (outcomes : list Outcome) (m : AgentMetrics) : AgentMetrics :=
  fold_left record outcomes m.

Definition is_handled (o : Outcome) : bool :=
  match o with Handled _ => true | Failed _ => false end.

End Metrics.

(* ===================================================================== *)
(** * [src/main.py]: the orchestrator and its agents *)
(* ===================================================================== *)

Module System.
Import Agent.

(** The fields of [CallCenterSystem] that concern the agents: the
    [agents] dict in insertion order and the [is_running] flag. *)
Record CallCenterSystem : Type := {
  agents : list (string * BaseAgent);
  is_running : bool
}.

(** The loop [for agent_name, agent in self.agents.items()] of [start]:
    an agent whose state is not ready is started; an exception leaves
    the loop.  [hook_ok] tells for each agent whether its [_start] hook
    returns. *)
Fixpoint start_loop (hook_ok : string -> bool)
    (done todo : list (string * BaseAgent))
    : result unit * list (string * BaseAgent) :=
  match todo with
  | [] => (Ok tt, done)
  | (agent_name, agent) :: rest =>
      if negb (bool_decide (state agent = READY))
      then match Agent.start (hook_ok agent_name) agent with
           | (Ok _, agent') => start_loop hook_ok (done ++ [(agent_name, agent')]) rest
           | (Raise e, agent') => (Raise e, done ++ (agent_name, agent') :: rest)
           end
      else start_loop hook_ok (done ++ [(agent_name, agent)]) rest
  end.

(** [start], up to the loop that waits for the system to stop. *)
Definition start_agents (hook_ok : string -> bool) : M CallCenterSystem unit :=
  fun sys =>
    if is_running sys then (Ok tt, sys)
    else
      match start_loop hook_ok [] (agents sys) with
      | (r, agents') => (r, {| agents := agents'; is_running := true |})
      end.

(** The loop of [shutdown] over the agents: an exception of [stop] is
    logged and the loop goes on. *)
Definition stop_all (hook_ok : string -> bool)
    (l : list (string * BaseAgent)) : list (string * BaseAgent) :=
  List.map (fun na => (fst na, snd (Agent.stop (hook_ok (fst na)) (snd na)))) l.

(** [shutdown] up to the end of its loop over the agents; the calls that
    follow (bus, event system, database) do not touch the agents. *)
Definition shutdown (hook_ok : string -> bool) : M CallCenterSystem unit :=
  fun sys =>
    if negb (is_running sys) then (Ok tt, sys)
    else (Ok tt, {| agents := stop_all hook_ok (agents sys); is_running := false |}).

End System.

(* ===================================================================== *)
(** * Properties *)
(* ===================================================================== *)

(** ** The monad: what a computation leaves related *)

Section Preserves.
Context {S : Type} (R : S -> S -> Prop).
Context `{!Reflexive R} `{!Transitive R}.

Local Abbreviation preserves := (preserves R).

Lemma preserves_ret {A} (a : A) : preserves (ret a).
Proof. intros s. reflexivity. Qed.

Lemma preserves_raise {A} (e : exn) : preserves (@raise S A e).
Proof. intros s. reflexivity. Qed.

Lemma preserves_get : preserves (@get S).
Proof. intros s. reflexivity. Qed.

Lemma preserves_modify (f : S -> S) :
  (forall s, R s (f s)) -> preserves (modify f).
Proof. intros Hf s. apply Hf. Qed.

Lemma preserves_bind {A B} (m : M S A) (k : A -> M S B) :
  preserves m -> (forall a, preserves (k a)) -> preserves (bind m k).
Proof.
  intros Hm Hk s. unfold bind. specialize (Hm s).
  destruct (m s) as [[a|e] s1]; simpl in *; [|assumption].
  etransitivity; [eassumption|apply Hk].
Qed.

Lemma preserves_try_except {A} (m : M S A) (h : exn -> M S A) :
  preserves m -> (forall e, preserves (h e)) -> preserves (try_except m h).
Proof.
  intros Hm Hh s. unfold try_except. specialize (Hm s).
  destruct (m s) as [[a|e] s1]; simpl in *; [assumption|].
  etransitivity; [eassumption|apply Hh].
Qed.

Lemma preserves_for_each {A} (l : list A) (body : A -> M S unit) :
  (forall x, preserves (body x)) -> preserves (for_each l body).
Proof.
  intros Hb. induction l as [|x l IH]; simpl.
  - apply preserves_ret.
  - apply preserves_bind; [apply Hb|intros _; apply IH].
Qed.
End Preserves.

(** ** Dictionaries in insertion order *)

Section DictFacts.
Context {V : Type}.
Implicit Types (d : list (string * V)) (k : string).

Lemma dict_get_In k d v : dict_get k d = Some v -> In (k, v) d.
Proof.
  induction d as [|[k' v'] d IH]; simpl; [discriminate|].
  destruct (String.eqb_spec k k') as [->|Hne].
  - intros [= ->]. now left.
  - intros Hg. right. now apply IH.
Qed.

Lemma dict_get_unique k d v :
  NoDup (List.map fst d) -> In (k, v) d -> dict_get k d = Some v.
Proof.
  induction d as [|[k' v'] d IH]; simpl; [intros _ []|].
  intros Hnd Hin. apply NoDup_cons in Hnd as [Hfresh Hnd].
  destruct (String.eqb_spec k k') as [->|Hne].
  - destruct Hin as [[= ->]|Hin]; [reflexivity|].
    exfalso. apply Hfresh. apply list_elem_of_In.
    change k' with (fst (k', v)). now apply in_map.
  - destruct Hin as [[= -> ->]|Hin]; [congruence|]. now apply IH.
Qed.

Lemma dict_update_keys k (f : V -> V) d :
  List.map fst (dict_update k f d) = List.map fst d.
Proof.
  induction d as [|[k' v'] d IH]; simpl; [reflexivity|].
  destruct (String.eqb k k'); simpl; [reflexivity|]. now rewrite IH.
Qed.

(** A property of all entries survives an in-place update that keeps it
    for the entry found under the key. *)
Lemma dict_update_Forall (P : string * V -> Prop) k (f : V -> V) d :
  Forall P d ->
  (forall v, dict_get k d = Some v -> P (k, v) -> P (k, f v)) ->
  Forall P (dict_update k f d).
Proof.
  induction d as [|[k' v'] d IH]; simpl; intros HF Hk; [constructor|].
  apply Forall_cons_1 in HF as [Hhd Htl].
  destruct (String.eqb_spec k k') as [->|Hne].
  - constructor; [|assumption]. now apply Hk.
  - constructor; [assumption|]. now apply IH.
Qed.

Lemma dict_set_keys_fresh k (v : V) d :
  dict_get k d = None -> List.map fst (dict_set k v d) = List.map fst d ++ [k].
Proof.
  induction d as [|[k' v'] d IH]; simpl; [reflexivity|].
  destruct (String.eqb k k'); [discriminate|]. intros Hg. simpl. now rewrite IH.
Qed.

Lemma dict_set_keys_present k (v : V) d :
  dict_get k d <> None -> List.map fst (dict_set k v d) = List.map fst d.
Proof.
  induction d as [|[k' v'] d IH]; simpl; [congruence|].
  destruct (String.eqb k k'); [reflexivity|]. intros Hg. simpl. now rewrite IH.
Qed.

Lemma dict_get_None_not_key k d :
  dict_get k d = None -> ~ In k (List.map fst d).
Proof.
  induction d as [|[k' v'] d IH]; simpl; [tauto|].
  destruct (String.eqb_spec k k') as [->|Hne]; [discriminate|].
  intros Hg [Heq|Hin]; [congruence|]. now apply IH.
Qed.

Lemma dict_set_Forall (P : string * V -> Prop) k (v : V) d :
  Forall P d -> P (k, v) -> Forall P (dict_set k v d).
Proof.
  induction d as [|[k' v'] d IH]; simpl; intros HF Hk.
  - now constructor.
  - apply Forall_cons_1 in HF as [Hhd Htl].
    destruct (String.eqb_spec k k') as [->|Hne]; constructor; auto.
Qed.
End DictFacts.

(** ** Python's stable sort *)

Section StableSortFacts.
Context {A : Type} (before : A -> A -> bool).

Lemma stable_insert_perm x l : Permutation (stable_insert before x l) (x :: l).
Proof.
  induction l as [|y l IH]; simpl; [reflexivity|].
  destruct (before x y); [reflexivity|].
  rewrite IH. apply perm_swap.
Qed.

Lemma stable_sort_perm l : Permutation (stable_sort before l) l.
Proof.
  induction l as [|x l IH]; simpl; [reflexivity|].
  rewrite stable_insert_perm. now constructor.
Qed.

Lemma stable_sort_head_In l a r : stable_sort before l = a :: r -> In a l.
Proof.
  intros Hs. apply (Permutation_in a (stable_sort_perm l)).
  rewrite Hs. now left.
Qed.

End StableSortFacts.

(** Sorting by an integer key in ascending order. *)
Section SortByKey.
Context {A : Type} (key : A -> Z).

Let before (a b : A) : bool := key a <=? key b.
Let le_key (a b : A) : Prop := key a <= key b.

Lemma insert_by_key_sorted x l :
  StronglySorted le_key l -> StronglySorted le_key (stable_insert before x l).
Proof.
  induction 1 as [|y l Hs IH Hy]; simpl.
  - repeat constructor.
  - unfold before at 1. destruct (Z.leb_spec (key x) (key y)) as [Hle|Hgt].
    + constructor; [now constructor|].
      constructor; [exact Hle|].
      eapply Forall_impl; [exact Hy|]. unfold le_key. simpl. intros; lia.
    + constructor; [exact IH|].
      apply Forall_forall. intros z Hz. apply list_elem_of_In in Hz.
      apply (Permutation_in z (stable_insert_perm before x l)) in Hz.
      destruct Hz as [<-|Hz]; [unfold le_key; lia|].
      rewrite Forall_forall in Hy. apply Hy. now apply list_elem_of_In.
Qed.

Lemma sort_by_key_sorted l : StronglySorted le_key (stable_sort before l).
Proof.
  induction l as [|x l IH]; simpl; [constructor|]. now apply insert_by_key_sorted.
Qed.

(** Stability: elements with the same key keep their order. *)
Lemma insert_by_key_stable p x l :
  List.filter (fun a => key a =? p) (stable_insert before x l)
  = List.filter (fun a => key a =? p) (x :: l).
Proof.
  induction l as [|y l IH]; simpl; [reflexivity|].
  unfold before at 1. destruct (Z.leb_spec (key x) (key y)) as [Hle|Hgt].
  - reflexivity.
  - simpl in *. rewrite IH.
    destruct (Z.eqb_spec (key x) p), (Z.eqb_spec (key y) p); try reflexivity; lia.
Qed.

Lemma sort_by_key_stable p l :
  List.filter (fun a => key a =? p) (stable_sort before l)
  = List.filter (fun a => key a =? p) l.
Proof.
  induction l as [|x l IH]; simpl; [reflexivity|].
  rewrite insert_by_key_stable. simpl. now rewrite IH.
Qed.
End SortByKey.

(** ** The routing engine: finding a worker *)

Section RoutingFacts.
Import Routing.
Local Open Scope monad_scope.

Implicit Types (st : RoutingAgent) (pool : list (string * AgentProfile)).

(** The worker [_find_best_agent] returns is a candidate of the pool. *)
Lemma find_best_agent_sound pool skill spec lang t :
  _find_best_agent pool skill spec lang = Some t ->
  exists a, In a (List.map snd pool) /\ agent_id a = t
            /\ is_candidate skill spec lang a = true.
Proof.
  unfold _find_best_agent.
  destruct (stable_sort _ _) as [|best rest] eqn:Hs; [discriminate|].
  intros [= <-]. exists best.
  apply stable_sort_head_In in Hs. apply List.filter_In in Hs as [Hin Hc].
  auto.
Qed.

Lemma find_best_agent_none pool skill spec lang :
  (forall k a, In (k, a) pool -> is_candidate skill spec lang a = false) ->
  _find_best_agent pool skill spec lang = None.
Proof.
  intros Hno. unfold _find_best_agent.
  destruct (stable_sort _ _) as [|best rest] eqn:Hs; [reflexivity|].
  apply stable_sort_head_In in Hs. apply List.filter_In in Hs as [Hin Hc].
  apply in_map_iff in Hin as [[k a] [<- Hin]]. simpl in Hc.
  rewrite (Hno _ _ Hin) in Hc. discriminate.
Qed.

Lemma find_supervisor_sound pool t :
  _find_supervisor pool = Some t ->
  exists a, In a (List.map snd pool) /\ agent_id a = t
            /\ is_available a = true.
Proof.
  unfold _find_supervisor.
  destruct (List.filter _ _) as [|s rest] eqn:Hf; [discriminate|].
  intros [= <-]. exists s.
  assert (Hin : In s (List.filter
            (fun a => bool_decide (skill_level a = SUPERVISOR) && is_available a)
            (List.map snd pool))) by (rewrite Hf; now left).
  apply List.filter_In in Hin as [Hin Hc].
  apply andb_true_iff in Hc as [_ Hav]. auto.
Qed.

Lemma is_candidate_available skill spec lang a :
  is_candidate skill spec lang a = true -> is_available a = true.
Proof.
  unfold is_candidate. intros Hc.
  do 3 (apply andb_true_iff in Hc as [Hc _]). exact Hc.
Qed.

Lemma is_available_room a :
  is_available a = true -> current_load a < max_capacity a.
Proof.
  unfold is_available. intros Ha. apply andb_true_iff in Ha as [_ Hlt].
  now apply Z.ltb_lt.
Qed.

(** In a pool keyed by [agent_id], a profile of the pool is the one
    stored under its own id. *)
Lemma keyed_lookup pool a :
  pool_keyed pool -> In a (List.map snd pool) ->
  dict_get (agent_id a) pool = Some a.
Proof.
  intros [Hnd Hkey] Hin. apply in_map_iff in Hin as [[k a'] [Heq Hin]].
  simpl in Heq. subst a'. apply dict_get_unique; [exact Hnd|].
  rewrite Forall_forall in Hkey.
  assert (Hk : fst (k, a) = agent_id (snd (k, a)))
    by (apply Hkey; now apply list_elem_of_In).
  simpl in Hk. now subst k.
Qed.

(** [_initialize_agent_pool] keys the pool by [agent_id]. *)
Lemma register_agents_keyed agents pool :
  pool_keyed pool -> pool_keyed (register_agents agents pool).
Proof.
  revert pool. unfold register_agents.
  induction agents as [|a agents IH]; simpl; intros pool Hk; [exact Hk|].
  apply IH. destruct Hk as [Hnd Hkey]. split.
  - destruct (dict_get (agent_id a) pool) eqn:Hg.
    + rewrite dict_set_keys_present; [exact Hnd|congruence].
    + rewrite dict_set_keys_fresh by exact Hg.
      apply NoDup_app. repeat split; [exact Hnd| |apply NoDup_singleton].
      intros k Hk1 Hk2. apply list_elem_of_In in Hk1, Hk2.
      destruct Hk2 as [<-|[]].
      now apply dict_get_None_not_key in Hg.
  - apply dict_set_Forall; [exact Hkey|reflexivity].
Qed.

Lemma initialize_keyed st :
  pool_keyed (available_agents st) ->
  pool_keyed (available_agents (snd (_initialize st))).
Proof. intros Hk. exact (register_agents_keyed mock_agents _ Hk). Qed.
End RoutingFacts.

(** ** The routing engine: deciding and executing *)

Section RoutingExecution.
Import Routing.
Local Open Scope monad_scope.

Implicit Types (st : RoutingAgent) (pool : list (string * AgentProfile)).

#[local] Instance same_pool_refl : Reflexive same_pool.
Proof. intros s. reflexivity. Qed.

#[local] Instance same_pool_trans : Transitive same_pool.
Proof. intros s1 s2 s3 H12 H23. unfold same_pool in *. congruence. Qed.

Lemma send_message_same_pool m : preserves same_pool (send_message m).
Proof. intros s. reflexivity. Qed.

Lemma lookup_agent_same_pool k : preserves same_pool (lookup_agent k).
Proof. intros s. unfold lookup_agent. now destruct (dict_get k _). Qed.

Lemma add_to_queue_same_pool call md rule now :
  preserves same_pool (_add_to_queue call md rule now).
Proof. intros s. reflexivity. Qed.

(** An applied rule returns a decision; a target it names is an
    available worker of the pool; the pool is as before. *)
Lemma apply_rule_result call md now rule st :
  exists d target st1,
    apply_rule call md now rule st = (Ok (d, target), st1)
    /\ same_pool st st1
    /\ (pool_keyed (available_agents st) -> forall t, target = Some t ->
        exists a, dict_get t (available_agents st) = Some a
                  /\ is_available a = true).
Proof.
  unfold apply_rule. destruct (bool_decide _).
  - unfold bind, get.
    destruct (_find_best_agent _ _ _ _) as [t|] eqn:Hf; simpl.
    + destruct (str_truthy t); simpl.
      * exists (action rule), (Some t), st. repeat split.
        intros Hk t' [= <-].
        apply find_best_agent_sound in Hf as (a & Hin & <- & Hc).
        exists a. split; [now apply keyed_lookup|].
        eapply is_candidate_available, Hc.
      * eexists CALLBACK, None, _. repeat split. intros _ t' [=].
    + eexists CALLBACK, None, _. repeat split. intros _ t' [=].
  - exists (action rule), None, st. repeat split. intros _ t' [=].
Qed.

Lemma default_routing_result md s quality st :
  exists d target,
    default_routing md s quality st = (Ok (d, target), st)
    /\ (pool_keyed (available_agents st) -> forall t, target = Some t ->
        exists a, dict_get t (available_agents st) = Some a
                  /\ is_available a = true).
Proof.
  unfold default_routing, bind, get.
  destruct (Qle_bool _ _); simpl.
  - exists AUTO_RESOLVE, None. split; [reflexivity|]. intros _ t [=].
  - match goal with |- context [if ?b then _ else _] => destruct b end; simpl.
    + eexists ESCALATE, _. split; [reflexivity|]. intros Hk t Ht.
      apply find_supervisor_sound in Ht as (a & Hin & <- & Hav).
      exists a. split; [now apply keyed_lookup|exact Hav].
    + eexists AGENT_TRANSFER, _. split; [reflexivity|]. intros Hk t Ht.
      apply find_best_agent_sound in Ht as (a & Hin & <- & Hc).
      exists a. split; [now apply keyed_lookup|].
      eapply is_candidate_available, Hc.
Qed.

(** [_make_routing_decision] always returns a decision. *)
Lemma make_routing_decision_result call md s quality c st :
  exists d target st1,
    _make_routing_decision call md s quality c st = (Ok (d, target), st1)
    /\ same_pool st st1
    /\ (pool_keyed (available_agents st) -> forall t, target = Some t ->
        exists a, dict_get t (available_agents st) = Some a
                  /\ is_available a = true).
Proof.
  unfold _make_routing_decision, bind, get.
  induction (sorted_rules (routing_rules st)) as [|rule rules IH]; simpl.
  - destruct (default_routing_result md s quality st) as (d & t & Hd & Ht).
    exists d, t, st. repeat split; assumption.
  - destruct (_check_rule_conditions rule _); [|exact IH].
    apply apply_rule_result.
Qed.

(** [_execute_routing] on a decision whose target, if any, is stored in
    the pool: it returns, and the pool changes by one increment of the
    assigned worker's load. *)
Lemma execute_routing_pool call d target now st :
  (forall t, target = Some t -> is_Some (dict_get t (available_agents st))) ->
  exists st1,
    _execute_routing call d target now st = (Ok tt, st1)
    /\ available_agents st1 = pool_after (assigns d target) (available_agents st).
Proof.
  intros Hin. unfold _execute_routing, bind, modify. simpl.
  destruct d; simpl; try (eexists; split; reflexivity).
  - destruct target as [t|]; simpl; [|eexists; split; reflexivity].
    destruct (str_truthy t); simpl; [|eexists; split; reflexivity].
    destruct (Hin t eq_refl) as [a Ha].
    unfold _transfer_to_agent, bump_load, lookup_agent, send_message,
      bind, modify. simpl. rewrite Ha. simpl. rewrite Ha.
    eexists; split; reflexivity.
  - destruct target as [t|]; simpl; [|eexists; split; reflexivity].
    destruct (str_truthy t); simpl; [|eexists; split; reflexivity].
    destruct (Hin t eq_refl) as [a Ha].
    unfold _escalate_to_supervisor, bump_load, lookup_agent, send_message,
      bind, modify. simpl. rewrite Ha. simpl. rewrite Ha.
    eexists; split; reflexivity.
Qed.

(** The pool after a routing request: the decision that was made, and
    the one increment it causes. *)
Lemma handle_routing_request_pool p c st :
  pool_keyed (available_agents st) ->
  exists d target,
    fst (_make_routing_decision (call_id p) (metadata p) (summary p)
           (quality_score p) c st) = Ok (d, target)
    /\ available_agents (snd (_handle_routing_request p c st))
       = pool_after (assigns d target) (available_agents st)
    /\ (forall t, target = Some t ->
        exists a, dict_get t (available_agents st) = Some a
                  /\ is_available a = true).
Proof.
  intros Hk.
  destruct (make_routing_decision_result (call_id p) (metadata p) (summary p)
              (quality_score p) c st) as (d & target & st1 & Hd & Hp & Ht).
  specialize (Ht Hk). exists d, target. rewrite Hd. simpl.
  split; [reflexivity|]. split; [|exact Ht].
  unfold _handle_routing_request, try_except, bind. rewrite Hd. simpl.
  destruct (execute_routing_pool (call_id p) d target (utcnow c) st1)
    as (st2 & He & Hp2).
  { intros t Htt. rewrite Hp. destruct (Ht t Htt) as (a & Ha & _). now exists a. }
  rewrite He. simpl. rewrite Hp2, Hp. reflexivity.
Qed.
End RoutingExecution.

(** ** The routing engine: the queue sweep *)

Section QueueSweep.
Import Routing.
Local Open Scope monad_scope.

Implicit Types (st : RoutingAgent) (items : list QueueItem).

Lemma list_pop_middle {A} (pre : list A) x post :
  list_pop (length pre) (pre ++ x :: post) = pre ++ post.
Proof. induction pre as [|y pre IH]; simpl; [reflexivity|]. now rewrite IH. Qed.

(** Popping the marked indices from the highest down leaves the entries
    that are not handled, in their order. *)
Lemma pop_marks_filter st now items (pre : list QueueItem) :
  fold_left (fun q i => list_pop i q)
    (rev (sweep_marks st now (length pre) items)) (pre ++ items)
  = pre ++ List.filter (fun item => negb (sweep_handles st now item)) items.
Proof.
  revert pre. induction items as [|item items IH]; intros pre; simpl.
  - reflexivity.
  - specialize (IH (pre ++ [item])).
    rewrite length_app in IH. simpl in IH.
    replace (length pre + 1)%nat with (S (length pre)) in IH by lia.
    rewrite <- app_assoc in IH. simpl in IH.
    destruct (sweep_handles st now item); simpl.
    + rewrite fold_left_app. simpl. rewrite IH.
      rewrite <- app_assoc. simpl. apply list_pop_middle.
    + rewrite IH. rewrite <- app_assoc. reflexivity.
Qed.

(** Sending messages changes neither the pool nor the threshold, so it
    does not change what the sweep does with an entry. *)
Lemma sweep_outcome_outbox f st now item :
  sweep_outcome (with_outbox f st) now item = sweep_outcome st now item.
Proof. reflexivity. Qed.

Lemma sweep_marks_outbox f st now i items :
  sweep_marks (with_outbox f st) now i items = sweep_marks st now i items.
Proof.
  revert i. induction items as [|item items IH]; intros i; simpl; [reflexivity|].
  now rewrite IH.
Qed.

Lemma sweep_messages_outbox f st now items :
  sweep_messages (with_outbox f st) now items = sweep_messages st now items.
Proof. reflexivity. Qed.

(** One iteration of the sweep in a pool keyed by [agent_id]. *)
Lemma sweep_item_spec st now i item processed :
  pool_keyed (available_agents st) ->
  sweep_item now i item processed st
  = (Ok (processed ++ if sweep_handles st now item then [i] else []),
     with_outbox (fun o => o ++ match sweep_outcome st now item with
                                | Some m => [m]
                                | None => []
                                end) st).
Proof.
  intros Hk. unfold sweep_item, sweep_handles, sweep_outcome, sweep_target,
    expired, bind, get.
  destruct (_find_best_agent _ _ _ _) as [t|] eqn:Hf; simpl.
  - destruct (str_truthy t) eqn:Ht; simpl.
    + apply find_best_agent_sound in Hf as (a & Hin & <- & _).
      unfold _transfer_to_agent, lookup_agent, send_message, bind, modify, ret.
      rewrite (keyed_lookup _ _ Hk Hin). reflexivity.
    + destruct (Qltb _ _); simpl.
      * reflexivity.
      * unfold ret. rewrite app_nil_r. destruct st. unfold with_outbox. simpl.
        now rewrite app_nil_r.
  - destruct (Qltb _ _); simpl.
    + reflexivity.
    + unfold ret. rewrite app_nil_r. destruct st. unfold with_outbox. simpl.
      now rewrite app_nil_r.
Qed.

Lemma sweep_loop_spec now items : forall st i processed,
  pool_keyed (available_agents st) ->
  sweep_loop now i items processed st
  = (Ok (processed ++ sweep_marks st now i items),
     with_outbox (fun o => o ++ sweep_messages st now items) st).
Proof.
  induction items as [|item items IH]; intros st i processed Hk; simpl.
  - unfold ret. rewrite app_nil_r. destruct st. unfold with_outbox. simpl.
    now rewrite app_nil_r.
  - unfold bind. rewrite sweep_item_spec by exact Hk.
    rewrite IH by exact Hk.
    rewrite sweep_marks_outbox, sweep_messages_outbox. f_equal.
    + now rewrite <- app_assoc.
    + destruct st. unfold with_outbox, sweep_messages. simpl.
      now rewrite <- app_assoc.
Qed.

(** The whole sweep: every entry is looked at once, the handled ones
    leave the queue, their messages are sent in queue order, the pool
    is not touched. *)
Lemma process_queue_spec st now :
  pool_keyed (available_agents st) ->
  _process_queue now st
  = (Ok tt,
     with_queue (List.filter (fun item => negb (sweep_handles st now item)))
       (with_outbox (fun o => o ++ sweep_messages st now (queue st)) st)).
Proof.
  intros Hk. unfold _process_queue, bind, get.
  rewrite sweep_loop_spec by exact Hk. simpl.
  unfold modify, with_queue. simpl. do 2 f_equal.
  apply (pop_marks_filter st now (queue st) []).
Qed.

Lemma process_queue_same_pool st now :
  pool_keyed (available_agents st) ->
  available_agents (snd (_process_queue now st)) = available_agents st.
Proof. intros Hk. now rewrite process_queue_spec. Qed.
(** C7.  A sweep over a pool keyed by agent id returns normally, and a
    queue entry that no worker of the pool matches and that has waited
    longer than [max_queue_time] is not in the queue afterwards, while a
    callback message for its call is among the messages the sweep has
    sent; the pool is the same as before. *)
Theorem sweep_expires_unmatched_entry st now item :
  pool_keyed (available_agents st) ->
  In item (queue st) ->
  no_matching_worker st item ->
  expired st now item = true ->
  let st' := snd (_process_queue now st) in
  fst (_process_queue now st) = Ok tt
  /\ ~ In item (queue st')
  /\ (exists sent, outbox st' = outbox st ++ sent
                   /\ In (MsgCallback (q_call_id item)) sent)
  /\ available_agents st' = available_agents st.
Proof.
  intros Hk Hin Hno Hexp. simpl. rewrite process_queue_spec by exact Hk. simpl.
  assert (Hout : sweep_outcome st now item = Some (MsgCallback (q_call_id item))).
  { unfold sweep_outcome, sweep_target.
    rewrite find_best_agent_none by exact Hno. simpl. now rewrite Hexp. }
  split; [reflexivity|]. split; [|split; [|reflexivity]].
  - intros Hq. apply List.filter_In in Hq as [_ Hq].
    unfold sweep_handles in Hq. rewrite Hout in Hq. discriminate.
  - exists (sweep_messages st now (queue st)). split; [reflexivity|].
    unfold sweep_messages. apply in_flat_map. exists item.
    split; [exact Hin|]. rewrite Hout. now left.
Qed.

(** The default engine with a call for a German-speaking specialist in
    the queue since time 0, swept 301 seconds later. *)
Lemma sweep_expires_unmatched_entry_witness :
  let st := engine_with_german_call in
  let st' := snd (_process_queue 301000000 st) in
  fst (_process_queue 301000000 st) = Ok tt
  /\ ~ In german_call (queue st')
  /\ (exists sent, outbox st' = outbox st ++ sent
                   /\ In (MsgCallback (q_call_id german_call)) sent)
  /\ available_agents st' = available_agents st.
Proof.
  apply (sweep_expires_unmatched_entry engine_with_german_call 301000000 german_call).
  - unfold pool_keyed. apply (bool_decide_unpack _). vm_compute. exact I.
  - simpl. now left.
  - intros k a Hin. vm_compute in Hin.
    repeat (destruct Hin as [[= <- <-]|Hin]; [vm_compute; reflexivity|]).
    destruct Hin.
  - vm_compute. reflexivity.
Defined.
End QueueSweep.

(** ** The routing engine: loads stay within capacity *)

Section LoadInvariant.
Import Routing.

Implicit Types (st : RoutingAgent) (pool : list (string * AgentProfile)).

Lemma pool_after_keyed assigned pool :
  pool_keyed pool -> pool_keyed (pool_after assigned pool).
Proof.
  intros [Hnd Hkey]. destruct assigned as [t|]; simpl; [|now split]. split.
  - now rewrite dict_update_keys.
  - apply dict_update_Forall; [exact Hkey|]. intros v _ Hv. exact Hv.
Qed.

(** Incrementing the load of a worker that has room keeps every load
    within capacity. *)
Lemma pool_after_within assigned pool :
  loads_within_capacity pool ->
  (forall t, assigned = Some t ->
     exists a, dict_get t pool = Some a /\ is_available a = true) ->
  loads_within_capacity (pool_after assigned pool).
Proof.
  intros Hw Hav. destruct assigned as [t|]; simpl; [|exact Hw].
  apply dict_update_Forall; [exact Hw|]. intros v Hv _.
  destruct (Hav t eq_refl) as (a & Ha & Hroom).
  rewrite Hv in Ha. injection Ha as ->.
  apply is_available_room in Hroom. simpl. lia.
Qed.

Lemma assigns_target d target t : assigns d target = Some t -> target = Some t.
Proof.
  unfold assigns. destruct d; try discriminate;
    destruct (opt_truthy target); congruence.
Qed.

(** One operation of the engine keeps the pool keyed and every load
    within capacity. *)
Lemma step_keeps_loads st op :
  pool_keyed (available_agents st) ->
  loads_within_capacity (available_agents st) ->
  pool_keyed (available_agents (step st op))
  /\ loads_within_capacity (available_agents (step st op)).
Proof.
  intros Hk Hw. destruct op as [p c|now|]; unfold step; simpl.
  - destruct (handle_routing_request_pool p c st Hk) as (d & target & _ & Hp & Ht).
    rewrite Hp. split; [now apply pool_after_keyed|].
    apply pool_after_within; [exact Hw|].
    intros t Hass. apply Ht. eapply assigns_target, Hass.
  - rewrite process_queue_same_pool by exact Hk. now split.
  - now split.
Qed.

(** C3.  Whatever sequence of routing requests, queue sweeps and
    load-balancer ticks the engine runs on a pool keyed by agent id in
    which every worker starts with [current_load <= max_capacity], every
    worker's [current_load] is at most its [max_capacity] afterwards;
    the sequence is arbitrary, so this holds after every prefix. *)
Theorem load_never_exceeds_capacity st ops :
  pool_keyed (available_agents st) ->
  loads_within_capacity (available_agents st) ->
  loads_within_capacity (available_agents (run_ops ops st)).
Proof.
  revert st. unfold run_ops.
  induction ops as [|op ops IH]; intros st Hk Hw; simpl; [exact Hw|].
  destruct (step_keeps_loads st op Hk Hw) as [Hk' Hw']. now apply IH.
Qed.

(** The default engine serving the urgent call twice, with a sweep in
    between and a load-balancer tick at the end. *)
Lemma load_never_exceeds_capacity_witness :
  loads_within_capacity
    (available_agents
       (run_ops [HandleRoutingRequest urgent_negative_call office_hours;
                 ProcessQueue 1000000;
                 HandleRoutingRequest urgent_negative_call office_hours;
                 RedistributeLoad] default_engine)).
Proof.
  apply (load_never_exceeds_capacity default_engine).
  - unfold pool_keyed. apply (bool_decide_unpack _). vm_compute. exact I.
  - unfold loads_within_capacity. apply (bool_decide_unpack _). vm_compute. exact I.
Defined.
End LoadInvariant.

(** ** The routing engine: what an assignment does to the loads *)

Section Assignments.
Import Routing.

Implicit Types (st : RoutingAgent) (pool : list (string * AgentProfile)).

Lemma dict_update_get_same {V} (k : string) (f : V -> V) (d : list (string * V)) :
  dict_get k (dict_update k f d) = option_map f (dict_get k d).
Proof.
  induction d as [|[k' v'] d IH]; simpl; [reflexivity|].
  destruct (String.eqb k k') eqn:Hk; simpl; rewrite Hk; [reflexivity|exact IH].
Qed.

Lemma dict_update_get_other {V} (k k0 : string) (f : V -> V) (d : list (string * V)) :
  k0 <> k -> dict_get k0 (dict_update k f d) = dict_get k0 d.
Proof.
  intros Hne. induction d as [|[k' v'] d IH]; simpl; [reflexivity|].
  destruct (String.eqb_spec k k') as [->|Hk]; simpl.
  - destruct (String.eqb_spec k0 k'); [contradiction|reflexivity].
  - destruct (String.eqb k0 k'); [reflexivity|exact IH].
Qed.

(** A routing request raises the load of the worker its decision
    assigns by exactly one and leaves every other load alone. *)
Lemma handle_routing_request_loads p c st :
  pool_keyed (available_agents st) ->
  exists d target,
    fst (_make_routing_decision (call_id p) (metadata p) (summary p)
           (quality_score p) c st) = Ok (d, target)
    /\ (forall t, assigns d target = Some t ->
          exists l, load_of t st = Some l
            /\ load_of t (snd (_handle_routing_request p c st)) = Some (l + 1))
    /\ (forall k, assigns d target <> Some k ->
          load_of k (snd (_handle_routing_request p c st)) = load_of k st).
Proof.
  intros Hk.
  destruct (handle_routing_request_pool p c st Hk) as (d & target & Hd & Hp & Ht).
  exists d, target. split; [exact Hd|]. unfold load_of. rewrite Hp. split.
  - intros t Hass. rewrite Hass. simpl.
    destruct (Ht t (assigns_target _ _ _ Hass)) as (a & Ha & _).
    exists (current_load a). rewrite dict_update_get_same, Ha. now split.
  - intros k Hne. destruct (assigns d target) as [t|]; simpl; [|reflexivity].
    rewrite dict_update_get_other; [reflexivity|congruence].
Qed.

(** The sweep leaves every load as it is, also the load of a worker it
    transfers a call to. *)
Lemma process_queue_loads st now k :
  pool_keyed (available_agents st) ->
  load_of k (snd (_process_queue now st)) = load_of k st.
Proof. intros Hk. unfold load_of. now rewrite process_queue_same_pool. Qed.

(** C1.  The default engine, whose first rule escalates urgent negative
    calls to the supervisor tier, with supervisor SUP001 available: the
    decision for an urgent negative call is [ESCALATE] with no target,
    nothing is sent, and the load of SUP001 stays 0. *)
Theorem escalate_rule_names_no_supervisor :
  let p := urgent_negative_call in
  let factors := routing_factors (metadata p) (summary p) office_hours in
  option_map (fun r => (rule_id r, action r, target_skill_level r))
    (List.find (fun r => _check_rule_conditions r factors)
               (sorted_rules (routing_rules default_engine)))
  = Some ("R001", ESCALATE, Some SUPERVISOR)
  /\ _find_supervisor (available_agents default_engine) = Some "SUP001"
  /\ fst (_make_routing_decision (call_id p) (metadata p) (summary p)
            (quality_score p) office_hours default_engine)
     = Ok (ESCALATE, None)
  /\ load_of "SUP001" default_engine = Some 0
  /\ load_of "SUP001" (step default_engine (HandleRoutingRequest p office_hours))
     = Some 0
  /\ outbox (step default_engine (HandleRoutingRequest p office_hours)) = [].
Proof. vm_compute. repeat split; reflexivity. Qed.

(** C2.  The default engine with a billing call waiting: the sweep finds
    worker AGT001 free, transfers the call to it and takes it off the
    queue, and the load of AGT001 is 2 before and 2 after. *)
Theorem sweep_transfer_keeps_load :
  let st := engine_with_waiting_call in
  let st' := step st (ProcessQueue 1000000) in
  sweep_target st
    {| q_call_id := "call-9"; q_metadata := empty_metadata;
       q_rule := billing_rule; queued_at := 0 |} = Some "AGT001"
  /\ outbox st' = [MsgTransfer "call-9" "AGT001"]
  /\ queue st' = []
  /\ load_of "AGT001" st = Some 2
  /\ load_of "AGT001" st' = Some 2.
Proof. vm_compute. repeat split; reflexivity. Qed.

End Assignments.

(** ** The routing engine: rule evaluation *)

Section RuleEvaluation.
Import Routing.
Local Open Scope monad_scope.

Implicit Types (st : RoutingAgent) (r : RoutingRule)
  (factors : list (string * PyVal)).

(** A rule's conditions are met when every declared key that is a key
    of [factors] has the expected value there. *)
Lemma check_rule_conditions_iff r factors :
  _check_rule_conditions r factors = true <->
  forall k v, In (k, v) (conditions r) ->
  forall a, dict_get k factors = Some a -> py_eqb a v = true.
Proof.
  unfold _check_rule_conditions. rewrite List.forallb_forall. split.
  - intros Hall k v Hin a Ha. specialize (Hall (k, v) Hin).
    simpl in Hall. now rewrite Ha in Hall.
  - intros Hall [k v] Hin. simpl.
    destruct (dict_get k factors) as [a|] eqn:Ha; [|reflexivity].
    now apply (Hall k v Hin).
Qed.

(** The rule loop acts on the first rule of its list whose conditions
    are met and falls through to the default routing when there is
    none. *)
Lemma rule_loop_find call md s quality c rules st :
  rule_loop call md s quality c rules st
  = match List.find (fun r => _check_rule_conditions r (routing_factors md s c))
                    rules with
    | Some r => apply_rule call md (utcnow c) r st
    | None => default_routing md s quality st
    end.
Proof.
  induction rules as [|r rules IH]; simpl; [reflexivity|].
  destruct (_check_rule_conditions r _); [reflexivity|exact IH].
Qed.

(** In a list sorted by priority, the first rule with a property has
    the least priority among the rules with that property. *)
Lemma find_sorted_least (p : RoutingRule -> bool) rules r :
  StronglySorted (fun a b => priority a <= priority b) rules ->
  List.find p rules = Some r ->
  forall r', In r' rules -> p r' = true -> priority r <= priority r'.
Proof.
  induction 1 as [|x rules Hs IH Hx]; simpl; [discriminate|].
  destruct (p x) eqn:Hpx.
  - intros [= <-] r' [<-|Hin] _; [lia|].
    rewrite Forall_forall in Hx. apply Hx. now apply list_elem_of_In.
  - intros Hf r' [<-|Hin] Hp; [congruence|]. now apply IH.
Qed.

Lemma apply_rule_other call md now r st :
  action r <> AGENT_TRANSFER ->
  apply_rule call md now r st = (Ok (action r, None), st).
Proof.
  intros Hne. unfold apply_rule. rewrite bool_decide_eq_false_2 by exact Hne.
  reflexivity.
Qed.

Lemma apply_rule_transfer call md now r st :
  action r = AGENT_TRANSFER ->
  apply_rule call md now r st
  = let target :=
      _find_best_agent (available_agents st) (target_skill_level r)
        (target_specialization r) (get_or (md_language md) "en") in
    if opt_truthy target
    then (Ok (AGENT_TRANSFER, target), st)
    else (Ok (CALLBACK, None),
          with_queue (fun q => q ++ [ {| q_call_id := call; q_metadata := md;
                                         q_rule := r; queued_at := now |} ]) st).
Proof.
  intros Ha. unfold apply_rule. rewrite bool_decide_eq_true_2 by exact Ha.
  unfold bind, get. simpl. destruct (opt_truthy _); simpl; [|reflexivity].
  now rewrite Ha.
Qed.

(** A rule that declares a key which is not a routing factor has its
    conditions met by every call. *)
Lemma undeclared_factor_is_ignored md s c r key v :
  conditions r = [(key, v)] ->
  dict_get key (routing_factors md s c) = None ->
  _check_rule_conditions r (routing_factors md s c) = true
  /\ conditions_hold r (routing_factors md s c) = false.
Proof.
  intros Hc Hk. unfold _check_rule_conditions, conditions_hold.
  rewrite Hc. cbn [forallb]. rewrite Hk. now split.
Qed.

(** C5, as stated: over an empty pool, with a transfer rule of priority
    1 and an end-call rule of priority 2 that both declare no condition,
    the decision is [CALLBACK], which is the action of neither rule. *)
Lemma first_match_action_not_returned : ~ first_match_supplies_action.
Proof.
  intros Hclaim.
  destruct (Hclaim engine_two_rules "call-1" empty_metadata empty_summary None
              office_hours transfer_first eq_refl) as [target Ht].
  vm_compute in Ht. discriminate Ht.
Qed.

(** C5, amended.  The rules are iterated in ascending priority, rules of
    equal priority in list order.  A rule matches when every declared
    key that is one of the call's routing factors has the expected value
    (a declared key that is no routing factor constrains nothing).  The
    first matching rule is the one acted on, and no matching rule has a
    smaller priority: its action is returned, without a target, unless
    it is a transfer; a transfer returns the worker found, or, when none
    is found, queues the call under that rule and returns [CALLBACK].
    Of two matching rules with priorities 1 and 2 the rule of priority 1
    is the one acted on. *)
Theorem first_matching_rule_decides st call md s quality c :
  let factors := routing_factors md s c in
  let matches r := _check_rule_conditions r factors = true in
  let rules := sorted_rules (routing_rules st) in
  let first := List.find (fun r => _check_rule_conditions r factors) rules in
  let decision := _make_routing_decision call md s quality c st in
  StronglySorted (fun a b => priority a <= priority b) rules
  /\ Permutation rules (routing_rules st)
  /\ (forall p, List.filter (fun r => priority r =? p) rules
                = List.filter (fun r => priority r =? p) (routing_rules st))
  /\ (forall r, matches r <->
        forall k v, In (k, v) (conditions r) ->
        forall a, dict_get k factors = Some a -> py_eqb a v = true)
  /\ (forall r, first = Some r ->
        matches r
        /\ (forall r', In r' (routing_rules st) -> matches r' ->
              priority r <= priority r')
        /\ (action r <> AGENT_TRANSFER -> decision = (Ok (action r, None), st))
        /\ (action r = AGENT_TRANSFER ->
              let target :=
                _find_best_agent (available_agents st) (target_skill_level r)
                  (target_specialization r) (get_or (md_language md) "en") in
              decision
              = if opt_truthy target
                then (Ok (AGENT_TRANSFER, target), st)
                else (Ok (CALLBACK, None),
                      with_queue
                        (fun q => q ++ [ {| q_call_id := call; q_metadata := md;
                                            q_rule := r; queued_at := utcnow c |} ])
                        st)))
  /\ (forall r1 r2,
        Permutation (routing_rules st) [r1; r2] ->
        matches r1 -> matches r2 -> priority r1 < priority r2 ->
        first = Some r1).
Proof.
  intros factors matches rules first decision.
  assert (Hsorted : StronglySorted (fun a b => priority a <= priority b) rules)
    by apply (sort_by_key_sorted priority).
  assert (Hperm : Permutation rules (routing_rules st))
    by apply stable_sort_perm.
  split; [exact Hsorted|]. split; [exact Hperm|].
  split; [intros p; apply (sort_by_key_stable priority)|].
  split; [intros r; apply check_rule_conditions_iff|]. split.
  - intros r Hfirst.
    assert (Hdec : decision = apply_rule call md (utcnow c) r st).
    { unfold decision, _make_routing_decision, bind, get. simpl.
      rewrite rule_loop_find. fold factors rules first. now rewrite Hfirst. }
    split; [now apply List.find_some in Hfirst|]. split; [|split].
    + intros r' Hin Hm. apply (find_sorted_least _ rules r Hsorted Hfirst); [|exact Hm].
      apply (Permutation_in r' (Permutation_sym Hperm) Hin).
    + intros Hne. rewrite Hdec. now apply apply_rule_other.
    + intros Ha. rewrite Hdec. now apply apply_rule_transfer.
  - intros r1 r2 Hpair Hm1 Hm2 Hlt.
    assert (Hp2 : Permutation [r1; r2] rules)
      by (rewrite Hperm; now symmetry).
    apply Permutation_length_2_inv in Hp2 as [Heq|Heq]; unfold first; rewrite Heq.
    + simpl. unfold matches in Hm1. now rewrite Hm1.
    + exfalso. rewrite Heq in Hsorted.
      apply StronglySorted_inv in Hsorted as [_ Hhd].
      apply Forall_cons_1 in Hhd as [Hle _]. lia.
Qed.

(** The engine with the end-call rule of priority 2 listed before the
    transfer rule of priority 1. *)
Lemma first_matching_rule_decides_witness :
  List.find
    (fun r => _check_rule_conditions r
                (routing_factors empty_metadata empty_summary office_hours))
    (sorted_rules (routing_rules engine_two_rules))
  = Some transfer_first.
Proof.
  refine (proj2 (proj2 (proj2 (proj2 (proj2
    (first_matching_rule_decides engine_two_rules "call-1" empty_metadata
       empty_summary None office_hours)))))
    transfer_first end_call_second _ _ _ _).
  - simpl. apply perm_swap.
  - reflexivity.
  - reflexivity.
  - simpl. lia.
Defined.
End RuleEvaluation.

(** ** The agent frame: recorded transitions *)

Section Lifecycle.
Import Agent.

Implicit Types (a : BaseAgent) (s : AgentState).

Lemma links_snoc from h mid to :
  links from h mid -> links from (h ++ [(mid, to)]) to.
Proof.
  revert from. induction h as [|[o n] h IH]; simpl; intros from.
  - intros ->. now split.
  - intros [-> Hl]. split; [reflexivity|]. now apply IH.
Qed.

(** [set_state s] keeps the invariant when the frame may record the
    transition from the current state to [s]. *)
Lemma set_state_ok s a :
  lifecycle_ok a ->
  recorded_transition (state a) s = true ->
  lifecycle_ok (snd (set_state s a)).
Proof.
  intros (Hrec & Hnp & Hl & Hs) Hr. unfold lifecycle_ok. simpl.
  assert (Hsp : s <> PROCESSING) by (intros ->; now destruct (state a)).
  repeat split.
  - apply Forall_app. split; [exact Hrec|]. now repeat constructor.
  - apply Forall_app. split; [exact Hnp|]. now repeat constructor.
  - now apply links_snoc.
  - exact Hsp.
Qed.

(** Changes of the other fields do not matter. *)
Lemma lifecycle_ok_fields a a' :
  state a' = state a -> state_history a' = state_history a ->
  lifecycle_ok a -> lifecycle_ok a'.
Proof. unfold lifecycle_ok. intros -> ->. tauto. Qed.

Lemma initialize_ok ok a : lifecycle_ok a -> lifecycle_ok (snd (initialize ok a)).
Proof.
  intros Ha.
  assert (H1 : lifecycle_ok (snd (set_state INITIALIZING a))).
  { apply set_state_ok; [exact Ha|]. now destruct (state a). }
  destruct ok; unfold initialize, try_except, bind; simpl.
  - apply (set_state_ok READY
             (snd (_register_handlers (snd (set_state INITIALIZING a)))));
      [|reflexivity].
    eapply lifecycle_ok_fields; [| |exact H1]; reflexivity.
  - apply (set_state_ok ERROR
             (snd (_register_handlers (snd (set_state INITIALIZING a)))));
      [|reflexivity].
    eapply lifecycle_ok_fields; [| |exact H1]; reflexivity.
Qed.

Lemma start_ok ok a : lifecycle_ok a -> lifecycle_ok (snd (start ok a)).
Proof.
  intros Ha. unfold start, bind, get. simpl.
  destruct (bool_decide (state a = READY)); simpl; [|exact Ha].
  destruct ok; simpl; (eapply lifecycle_ok_fields; [| |exact Ha]; reflexivity).
Qed.

Lemma stop_ok ok a : lifecycle_ok a -> lifecycle_ok (snd (stop ok a)).
Proof.
  intros Ha. unfold stop, bind. simpl. destruct ok; simpl.
  - apply (set_state_ok SHUTDOWN (snd (set_running false a))).
    + eapply lifecycle_ok_fields; [| |exact Ha]; reflexivity.
    + simpl. now destruct (state a).
  - eapply lifecycle_ok_fields; [| |exact Ha]; reflexivity.
Qed.

Lemma bind_ok {A B} (m : M BaseAgent A) (k : A -> M BaseAgent B) a :
  lifecycle_ok (snd (m a)) ->
  (forall x a', lifecycle_ok a' -> lifecycle_ok (snd (k x a'))) ->
  lifecycle_ok (snd (bind m k a)).
Proof.
  intros Hm Hk. unfold bind. destruct (m a) as [[x|e] a']; simpl in *; auto.
Qed.

Lemma run_call_ok c a : lifecycle_ok a -> lifecycle_ok (snd (run_call c a)).
Proof.
  intros Ha. destruct c as [ok|ok|ok|so io st]; simpl.
  - now apply initialize_ok.
  - now apply start_ok.
  - now apply stop_ok.
  - unfold restart. apply bind_ok; [now apply stop_ok|].
    intros _ a1 H1. apply bind_ok; [now apply initialize_ok|].
    intros _ a2 H2. now apply start_ok.
Qed.

Lemma run_calls_ok cs a : lifecycle_ok a -> lifecycle_ok (run_calls cs a).
Proof.
  revert a. unfold run_calls.
  induction cs as [|c cs IH]; intros a Ha; simpl; [exact Ha|].
  apply IH. now apply run_call_ok.
Qed.

(** C4, as stated: initialize, start, restart on a new agent records
    the transition from Shutdown to Initializing, which the table does
    not have. *)
Lemma restart_leaves_table : ~ transitions_legal.
Proof.
  intros Hlegal.
  specialize (Hlegal [Initialize true; Start true; Restart true true true]).
  vm_compute in Hlegal.
  repeat (apply Forall_cons_1 in Hlegal as [Hhd Hlegal];
          simpl in Hhd; first [discriminate Hhd|clear Hhd]).
Qed.

(** C4, amended.  After any sequence of initialize, start, stop and
    restart calls on a new agent, whatever the hooks do, the recorded
    transitions form a chain from Idle to the current state and each is
    one of: any state to Initializing, Initializing to Ready,
    Initializing to Error, any state to Shutdown.  So Ready is entered
    only from Initializing, and neither the current state nor any
    recorded transition is Processing. *)
Theorem recorded_transitions_of_frame (cs : list Call) :
  let a := run_calls cs new in
  Forall (fun tr => recorded_transition (fst tr) (snd tr) = true) (state_history a)
  /\ links IDLE (state_history a) (state a)
  /\ Forall (fun tr => snd tr = READY -> fst tr = INITIALIZING) (state_history a)
  /\ Forall (fun tr => fst tr <> PROCESSING /\ snd tr <> PROCESSING) (state_history a)
  /\ state a <> PROCESSING.
Proof.
  assert (Hnew : lifecycle_ok new).
  { unfold lifecycle_ok. simpl. repeat split; try constructor. discriminate. }
  destruct (run_calls_ok cs new Hnew) as (Hrec & Hnp & Hl & Hs).
  simpl. repeat split; try assumption.
  eapply Forall_impl; [exact Hrec|].
  intros [o n]. simpl. intros Hr ->. now destruct o.
Qed.
End Lifecycle.

(** ** The in-memory broker *)

Section MemoryBrokerFacts.
Context {H : Type}.
Import Msg.

Implicit Types (b : MemoryBroker.t H) (topic : string) (message : Message).

(** Fan-out over a list of handlers: each is called once, in list
    order, and what a call raises is dropped. *)
Lemma fan_out_calls {S} (invoke : H -> Message -> M S unit) message
    (handlers : list H) (s : S) :
  for_each handlers
    (fun handler => try_except (invoke handler message) (fun _ => ret tt)) s
  = (Ok tt, fold_left (fun s handler => snd (invoke handler message s)) handlers s).
Proof.
  revert s. induction handlers as [|h handlers IH]; intros s; simpl; [reflexivity|].
  unfold bind, try_except at 1.
  destruct (invoke h message s) as [[[]|e] s1]; simpl; apply IH.
Qed.

Lemma memory_publish_calls {S} (invoke : H -> Message -> M S unit)
    topic message b (s : S) :
  MemoryBroker.publish invoke topic message b s
  = (Ok b, fold_left (fun s handler => snd (invoke handler message s))
             (MemoryBroker.subscribers b topic) s).
Proof.
  unfold MemoryBroker.publish, MemoryBroker.subscribers.
  destruct (MemoryBroker.subscriptions b !! topic) as [handlers|]; simpl;
    [|reflexivity].
  unfold bind. now rewrite fan_out_calls.
Qed.

Lemma recorded_calls_trace (raises : H -> Message -> bool) message
    (handlers : list H) (trace : list (H * Message)) :
  fold_left
    (fun s handler => snd (MemoryBroker.recorded_call raises handler message s))
    handlers trace
  = trace ++ List.map (fun handler => (handler, message)) handlers.
Proof.
  revert trace. induction handlers as [|h handlers IH]; intros trace; simpl.
  - now rewrite app_nil_r.
  - rewrite IH.
    assert (Hcall : snd (MemoryBroker.recorded_call raises h message trace)
                    = trace ++ [(h, message)]).
    { unfold MemoryBroker.recorded_call, bind, modify. simpl.
      now destruct (raises h message). }
    rewrite Hcall, <- app_assoc. reflexivity.
Qed.

Lemma memory_subscribe_appends topic handler b :
  MemoryBroker.subscribers (snd (MemoryBroker.subscribe topic handler b)) topic
  = MemoryBroker.subscribers b topic ++ [handler].
Proof.
  unfold MemoryBroker.subscribers. simpl. now rewrite lookup_insert_eq.
Qed.

Lemma memory_subscribe_other topic topic' handler b :
  topic' <> topic ->
  MemoryBroker.subscribers (snd (MemoryBroker.subscribe topic handler b)) topic'
  = MemoryBroker.subscribers b topic'.
Proof.
  intros Hne. unfold MemoryBroker.subscribers. simpl.
  now rewrite lookup_insert_ne by congruence.
Qed.

Lemma memory_unsubscribe_topic topic handler_id b :
  MemoryBroker.subscribers (snd (MemoryBroker.unsubscribe topic handler_id b)) topic
  = [].
Proof.
  unfold MemoryBroker.subscribers, MemoryBroker.unsubscribe, modify. simpl.
  destruct (MemoryBroker.subscriptions b !! topic) as [l|] eqn:Hl; simpl.
  - now rewrite lookup_insert_eq.
  - now rewrite Hl.
Qed.

Lemma memory_unsubscribe_other topic topic' handler_id b :
  topic' <> topic ->
  MemoryBroker.subscribers (snd (MemoryBroker.unsubscribe topic handler_id b)) topic'
  = MemoryBroker.subscribers b topic'.
Proof.
  intros Hne. unfold MemoryBroker.subscribers, MemoryBroker.unsubscribe, modify.
  simpl. destruct (MemoryBroker.subscriptions b !! topic); simpl; [|reflexivity].
  now rewrite lookup_insert_ne by congruence.
Qed.

(** The in-memory broker changes its caller's state only through the
    handlers it calls. *)
Lemma memory_publishes_through_handlers :
  publishes_through_handlers H (MemoryBroker.t H).
Proof.
  intros S R HR HT invoke Hinv topic message b s. simpl.
  rewrite memory_publish_calls. simpl.
  generalize (MemoryBroker.subscribers b topic). intros handlers.
  revert s. induction handlers as [|h handlers IH]; intros s; simpl.
  - reflexivity.
  - etransitivity; [apply (Hinv h message s)|apply IH].
Qed.

End MemoryBrokerFacts.

(** ** The message bus over any broker *)

Section BusFacts.
Import Msg MessageBus.
Context {B : Type} `{MessageBroker Wrapped B}.
Variable raises : nat -> Message -> bool.

Implicit Types (bus : MessageBus.t B) (topic : string) (message : Message).

#[local] Instance bus_progress_refl : Reflexive (@bus_progress B).
Proof. intros s. unfold bus_progress. repeat split. lia. Qed.

#[local] Instance bus_progress_trans : Transitive (@bus_progress B).
Proof.
  intros s1 s2 s3 (Hs & He & Hc) (Hs' & He' & Hc'). unfold bus_progress.
  repeat split; [congruence|lia|congruence].
Qed.

(** A call of a wrapped handler counts nothing as sent and loses no
    error count. *)
Lemma wrapped_handler_progress w message :
  preserves (@bus_progress B) (wrapped_handler raises w message).
Proof.
  unfold wrapped_handler. apply preserves_try_except; try typeclasses eauto.
  - match goal with |- context [if ?c then _ else _] => destruct c end.
    + apply preserves_ret; typeclasses eauto.
    + apply preserves_bind; try typeclasses eauto.
      * unfold call_handler_func. apply preserves_bind; try typeclasses eauto.
        -- apply preserves_modify. intros s. unfold bus_progress. simpl.
           repeat split. lia.
        -- intros _. destruct (raises _ _);
             [apply preserves_raise|apply preserves_ret]; typeclasses eauto.
      * intros _. apply preserves_bind; try typeclasses eauto.
        -- apply preserves_modify. intros s. unfold bus_progress. simpl.
           repeat split. lia.
        -- intros _. apply preserves_modify. intros s. unfold bus_progress.
           simpl. repeat split. lia.
  - intros _. apply preserves_modify. intros s. unfold bus_progress. simpl.
    repeat split. lia.
Qed.

(** Delegating to a broker that only calls handlers counts nothing as
    sent. *)
Lemma delegate_publish_progress topic message :
  publishes_through_handlers Wrapped B ->
  preserves (@bus_progress B) (delegate_publish raises topic message).
Proof.
  intros Hlaw. unfold delegate_publish.
  apply preserves_bind; try typeclasses eauto.
  - apply preserves_get. typeclasses eauto.
  - intros bus0. destruct (broker bus0) as [b|].
    + apply preserves_bind; try typeclasses eauto.
      * apply Hlaw; try typeclasses eauto. apply wrapped_handler_progress.
      * intros b'. apply preserves_modify. intros s. unfold bus_progress. simpl.
        repeat split. lia.
    + apply preserves_raise. typeclasses eauto.
Qed.

(** The three ways [publish] can go. *)
Lemma publish_unfold topic message bus :
  publish raises topic message bus
  = if negb (is_connected bus)
    then (Raise (CommunicationException
                   "Publish failed: Message bus not connected"),
          snd (count_error bus))
    else
      match delegate_publish raises topic message bus with
      | (Raise e, busx) =>
          (Raise (CommunicationException
                    (String.append "Publish failed: " (exn_str e))),
           snd (count_error busx))
      | (Ok _, busx) =>
          match type message with
          | Member t =>
              (Ok tt,
               snd (record_history
                      {| a_topic := topic; a_message_id := id message;
                         a_message_type := type_value t;
                         a_sender := sender message;
                         a_recipient := recipient message;
                         a_action := "published" |}
                      (snd (count_sent busx))))
          | Plain _ =>
              (Raise (CommunicationException
                        "Publish failed: 'str' object has no attribute 'value'"),
               snd (count_error (snd (count_sent busx))))
          end
      end.
Proof.
  destruct bus as [br hs mh connected ms mr er inv].
  unfold publish, try_except, bind, get. cbn [is_connected].
  destruct connected; cbn [negb]; [|reflexivity].
  destruct (delegate_publish raises topic message _) as [[[]|e] busx];
    [|reflexivity].
  destruct (type message); reflexivity.
Qed.

(** C6.  Over a broker that only calls handlers.  A publish on a bus
    that is not connected raises [CommunicationException], adds exactly
    one to [errors] and leaves [messages_sent] alone.  When the broker's
    publish raises, the bus raises [CommunicationException], adds one to
    the error count the broker's publish left, and leaves
    [messages_sent] alone.  [messages_sent] changes only by one, and
    only when the bus was connected and the broker's publish returned.
    Whenever the publish raises, it raises [CommunicationException] and
    [errors] has grown. *)
Theorem publish_counts_failures topic message bus :
  publishes_through_handlers Wrapped B ->
  let result := publish raises topic message bus in
  (is_connected bus = false ->
     fst result = Raise (CommunicationException
                           "Publish failed: Message bus not connected")
     /\ errors (snd result) = errors bus + 1
     /\ messages_sent (snd result) = messages_sent bus)
  /\ (forall e busx,
        is_connected bus = true ->
        delegate_publish raises topic message bus = (Raise e, busx) ->
        fst result = Raise (CommunicationException
                              (String.append "Publish failed: " (exn_str e)))
        /\ errors (snd result) = errors busx + 1
        /\ messages_sent (snd result) = messages_sent bus)
  /\ (messages_sent (snd result) <> messages_sent bus ->
        messages_sent (snd result) = messages_sent bus + 1
        /\ is_connected bus = true
        /\ exists busx, delegate_publish raises topic message bus = (Ok tt, busx))
  /\ (forall e, fst result = Raise e ->
        (exists what, e = CommunicationException what)
        /\ errors bus + 1 <= errors (snd result)).
Proof.
  intros Hlaw. simpl. rewrite publish_unfold.
  pose proof (delegate_publish_progress topic message Hlaw bus) as (Hs & He & _).
  destruct (is_connected bus) eqn:Hc; simpl.
  2:{ split; [intros _; repeat split; reflexivity|].
      split; [intros e busx [=]|].
      split; [intros Hne; now contradiction Hne|].
      intros e [= <-]. split; [eauto|simpl; lia]. }
  destruct (delegate_publish raises topic message bus) as [[[]|e0] busx] eqn:Hd;
    simpl in Hs, He.
  - destruct (type message); simpl.
    + split; [discriminate|]. split; [intros e busx' _ [=]|].
      split; [intros _; repeat split; [lia|eauto]|]. intros e [=].
    + split; [discriminate|]. split; [intros e busx' _ [=]|].
      split; [intros _; repeat split; [lia|eauto]|].
      intros e [= <-]. split; [eauto|lia].
  - split; [discriminate|].
    split; [intros e busx' _ [= <- <-]; repeat split; simpl; lia|].
    split; [intros Hne; simpl in Hne; congruence|].
    intros e [= <-]. split; [eauto|simpl; lia].
Qed.
End BusFacts.

(** ** The message bus over the brokers of this repository *)

Section BusOverBrokers.
Import Msg MessageBus.
Variable raises : nat -> Message -> bool.

Implicit Types (topic : string) (message : Message).

(** The Redis broker calls no handler during a publish. *)
Lemma redis_publishes_through_handlers {H} `{EqDecision H} :
  publishes_through_handlers H (RedisBroker.t H).
Proof.
  intros S R HR HT invoke Hinv topic message b s. simpl.
  unfold RedisBroker.publish.
  destruct (RedisBroker.publish_here topic message b) as [[[]|e] b']; reflexivity.
Qed.

(** On a bus over the in-memory broker, delegating a publish calls the
    wrapped handlers of the topic's subscribers in order and returns. *)
Lemma memory_delegate_publish topic message
    (bus : MessageBus.t (MemoryBroker.t Wrapped)) b :
  broker bus = Some b ->
  delegate_publish raises topic message bus
  = (Ok tt,
     snd (set_broker (Some b)
            (fold_left (fun s w => snd (wrapped_handler raises w message s))
                       (MemoryBroker.subscribers b topic) bus))).
Proof.
  intros Hb. unfold delegate_publish, bind, get. rewrite Hb. simpl.
  now rewrite memory_publish_calls.
Qed.

Lemma filter_map_handler_func handler_id (l : list MessageHandler) :
  List.map handler_func
    (List.filter (fun h => negb (Nat.eqb (handler_func h) handler_id)) l)
  = List.filter (fun f => negb (Nat.eqb f handler_id)) (List.map handler_func l).
Proof.
  induction l as [|h l IH]; simpl; [reflexivity|].
  destruct (Nat.eqb (handler_func h) handler_id); simpl; now rewrite IH.
Qed.

(** C10.  On a bus over the in-memory broker, [unsubscribe] of one
    subscription token returns normally and leaves the broker without any
    handler on that topic, whatever the token is; other topics keep their
    handlers.  The bus still lists every other function as registered on
    the topic, but a publish on the topic now calls none of them. *)
Theorem memory_unsubscribe_silences_topic topic handler_id
    (bus : MessageBus.t (MemoryBroker.t Wrapped)) b :
  broker bus = Some b ->
  let bus' := snd (unsubscribe topic handler_id bus) in
  fst (unsubscribe topic handler_id bus) = Ok tt
  /\ (exists b', broker bus' = Some b'
        /\ MemoryBroker.subscribers b' topic = []
        /\ forall topic', topic' <> topic ->
             MemoryBroker.subscribers b' topic' = MemoryBroker.subscribers b topic')
  /\ registered bus' topic
     = List.filter (fun f => negb (Nat.eqb f handler_id)) (registered bus topic)
  /\ forall message,
       invocations (snd (publish raises topic message bus')) = invocations bus'.
Proof.
  intros Hb.
  assert (Hun : unsubscribe topic handler_id bus
                = (Ok tt,
                   snd (set_handlers
                          (fun hs =>
                             match hs !! topic with
                             | Some l =>
                                 <[topic := List.filter
                                    (fun h => negb (Nat.eqb (handler_func h) handler_id))
                                    l]> hs
                             | None => hs
                             end)
                          (snd (set_broker
                                  (Some (snd (MemoryBroker.unsubscribe topic
                                                handler_id b))) bus))))).
  { destruct bus as [br hs mh connected ms mr er inv]. simpl in Hb. subst br.
    reflexivity. }
  cbv zeta. rewrite Hun. cbn [fst snd]. split; [reflexivity|]. split; [|split].
  - exists (snd (MemoryBroker.unsubscribe topic handler_id b)).
    split; [reflexivity|]. split.
    + apply (memory_unsubscribe_topic topic handler_id b).
    + intros topic' Hne. now apply (memory_unsubscribe_other topic topic' handler_id b).
  - unfold registered. simpl.
    destruct (handlers bus !! topic) as [l|] eqn:Hl; simpl.
    + rewrite lookup_insert_eq. simpl. apply filter_map_handler_func.
    + rewrite Hl. reflexivity.
  - intros message.
    match goal with
    | |- invocations (snd (publish _ _ _ ?x)) = _ => set (bus1 := x)
    end.
    assert (Hb1 : broker bus1
                  = Some (snd (MemoryBroker.unsubscribe topic handler_id b)))
      by reflexivity.
    rewrite publish_unfold. destruct (is_connected bus1); cbn [negb]; [|reflexivity].
    rewrite (memory_delegate_publish topic message bus1 _ Hb1).
    rewrite (memory_unsubscribe_topic topic handler_id b). cbn [fold_left].
    destruct (type message); reflexivity.
Qed.

End BusOverBrokers.

Section BusExamples.
Import Msg MessageBus.

(** A publish on an unconnected bus, and a publish on a bus whose Redis
    server is down. *)
Lemma publish_counts_failures_witness :
  (let result := publish (fun _ _ => false) "calls" sample_message fresh_bus in
   fst result = Raise (CommunicationException
                         "Publish failed: Message bus not connected")
   /\ errors (snd result) = errors fresh_bus + 1
   /\ messages_sent (snd result) = messages_sent fresh_bus)
  /\ (let result := publish (fun _ _ => false) "calls" sample_message redis_bus_server_down in
      fst result
      = Raise (CommunicationException
                 (String.append "Publish failed: "
                    (exn_str (CommunicationException
                                "Failed to publish message: publish"))))
      /\ errors (snd result) = errors redis_bus_server_down + 1
      /\ messages_sent (snd result) = messages_sent redis_bus_server_down).
Proof.
  split.
  - apply (proj1 (publish_counts_failures (fun _ _ => false) "calls" sample_message fresh_bus
                    memory_publishes_through_handlers)).
    reflexivity.
  - apply (proj1 (proj2 (publish_counts_failures (fun _ _ => false) "calls" sample_message
                           redis_bus_server_down
                           redis_publishes_through_handlers))
             (CommunicationException "Failed to publish message: publish")
             redis_bus_server_down).
    + reflexivity.
    + reflexivity.
Defined.

(** The in-memory bus with the functions 1 and 2 on "calls", after the
    token of function 1 has been unsubscribed. *)
Lemma memory_unsubscribe_silences_topic_witness :
  let bus := memory_bus_two_handlers in
  let bus' := snd (unsubscribe "calls" 1%nat bus) in
  registered bus "calls" = [1%nat; 2%nat]
  /\ registered bus' "calls" = [2%nat]
  /\ forall message,
       invocations (snd (publish (fun _ _ => false) "calls" message bus')) = invocations bus'.
Proof.
  destruct (memory_unsubscribe_silences_topic (fun _ _ => false) "calls" 1%nat memory_bus_two_handlers
              (snd (MemoryBroker.subscribe "calls"
                      {| w_topic := "calls"; w_func := 2%nat; w_types := None |}
                      (snd (MemoryBroker.subscribe "calls"
                              {| w_topic := "calls"; w_func := 1%nat;
                                 w_types := None |}
                              MemoryBroker.new))))
              eq_refl) as (_ & _ & Hreg & Hsilent).
  split; [vm_compute; reflexivity|]. split; [|exact Hsilent].
  rewrite Hreg. vm_compute. reflexivity.
Defined.
End BusExamples.

Section LiveDelivery.
Import Msg MemoryBroker.Live.

Lemma deliver_from {H} (callback : H -> Message -> World H -> Outcome * World H)
    topic message (rest : list H) :
  leaves_topic_alone callback topic message ->
  forall (done : list H) (w : World H) fuel,
    MemoryBroker.subscribers (w_broker w) topic = done ++ rest ->
    (length rest < fuel)%nat ->
    let result := deliver callback fuel topic message (length done) w in
    fst result = Delivered
    /\ w_calls (snd result)
       = w_calls w ++ List.map (fun handler => (handler, message)) rest
    /\ MemoryBroker.subscribers (w_broker (snd result)) topic
       = MemoryBroker.subscribers (w_broker w) topic.
Proof.
  intros Hframe. induction rest as [|h rest IH]; intros done w fuel Hl Hfuel;
    (destruct fuel as [|fuel]; [simpl in Hfuel; lia|]); cbn [deliver].
  - assert (Hnone : MemoryBroker.subscribers (w_broker w) topic !! length done = None)
      by (rewrite Hl, app_nil_r; apply lookup_ge_None_2; lia).
    rewrite Hnone. simpl. now rewrite app_nil_r.
  - assert (Hat : (done ++ h :: rest) !! length done = Some h)
      by (rewrite lookup_app_r, Nat.sub_diag by lia; reflexivity).
    assert (Hsome : MemoryBroker.subscribers (w_broker w) topic !! length done = Some h)
      by (rewrite Hl; exact Hat).
    rewrite Hsome.
    destruct (Hframe h (log_call h message w)) as (Hesc & Hsubs & Hcalls).
    destruct (callback h message (log_call h message w)) as [out w1] eqn:Hcb.
    simpl in Hesc, Hsubs, Hcalls.
    assert (Hl1 : MemoryBroker.subscribers (w_broker w1) topic = (done ++ [h]) ++ rest)
      by (rewrite Hsubs, Hl, <- app_assoc; reflexivity).
    assert (Hfuel1 : (length rest < fuel)%nat) by (simpl in Hfuel; lia).
    specialize (IH (done ++ [h]) w1 fuel Hl1 Hfuel1).
    rewrite length_app, Nat.add_1_r in IH. cbv zeta in IH.
    destruct IH as (Hd & Hc & Hs).
    destruct out as [|e|what]; [| |exfalso; exact (Hesc what eq_refl)];
      (split; [exact Hd|]; split;
       [rewrite Hc, Hcalls; simpl; now rewrite <- app_assoc
       |rewrite Hs, Hsubs; reflexivity]).
Qed.

(** For handlers that return or raise an [Exception] and leave the
    broker alone, the loop over the live list makes the calls of
    [MemoryBroker.publish]. *)
Lemma live_publish_matches_publish {H} (raises : H -> Message -> bool)
    topic message (b : MemoryBroker.t H) (trace : list (H * Message)) fuel :
  (length (MemoryBroker.subscribers b topic) < fuel)%nat ->
  let live :=
    publish
      (fun handler m w =>
         (if raises handler m then Raises (HandlerError "handler") else Returns, w))
      fuel topic message {| w_broker := b; w_calls := trace |} in
  fst live = Delivered
  /\ w_calls (snd live)
     = snd (MemoryBroker.publish (MemoryBroker.recorded_call raises)
              topic message b trace).
Proof.
  intros Hfuel. cbv zeta.
  rewrite memory_publish_calls, recorded_calls_trace. cbn [snd].
  set (callback := fun (handler : H) (m : Message) (w : World H) =>
         (if raises handler m then Raises (HandlerError "handler") else Returns, w)).
  assert (Hframe : leaves_topic_alone callback topic message).
  { intros handler w. unfold callback.
    destruct (raises handler message); simpl; repeat split; discriminate. }
  unfold publish. cbn [w_broker].
  destruct (MemoryBroker.subscriptions b !! topic) as [l|] eqn:Hl.
  - destruct (deliver_from callback topic message _ Hframe []
                {| w_broker := b; w_calls := trace |} fuel eq_refl Hfuel)
      as (Hd & Hc & _).
    split; [exact Hd|exact Hc].
  - unfold MemoryBroker.subscribers. rewrite Hl. simpl.
    now rewrite app_nil_r.
Qed.


(** What is no [Exception] leaves the publish and the later handlers
    are not called. *)
Lemma escaping_callback_stops_delivery (fuel : nat) :
  publish (fun _ _ w => (Escapes "CancelledError", w)) (S fuel) "calls"
    MessageBus.sample_message two_subscribers
  = (Propagated "CancelledError",
     {| w_broker := w_broker two_subscribers;
        w_calls := [(1%nat, MessageBus.sample_message)] |}).
Proof. reflexivity. Qed.

(** A handler subscribed by a callback while the publish runs is called
    by that same publish. *)
Lemma subscribing_handler_is_followed (fuel : nat) :
  w_calls
    (snd (publish
            (fun handler _ w =>
               if Nat.eqb handler 1
               then (Returns, on_broker (MemoryBroker.subscribe "calls" 3%nat) w)
               else (Returns, w))
            (4 + fuel) "calls" MessageBus.sample_message two_subscribers))
  = [(1%nat, MessageBus.sample_message); (2%nat, MessageBus.sample_message); (3%nat, MessageBus.sample_message)].
Proof. reflexivity. Qed.



End LiveDelivery.

(** ** The event system: the history *)

Section EventHistory.
Import Events.

Implicit Types (es : EventSystem) (event : Event).

#[local] Instance keeps_history_refl : Reflexive keeps_history.
Proof. intros s. now split. Qed.

#[local] Instance keeps_history_trans : Transitive keeps_history.
Proof. intros s1 s2 s3 [H1 H2] [H3 H4]. split; congruence. Qed.

(** Notifying the listeners does not touch the history. *)
Lemma notify_listeners_keeps_history event :
  preserves keeps_history (_notify_listeners event).
Proof.
  unfold _notify_listeners. apply preserves_bind; try typeclasses eauto.
  - apply preserves_get. typeclasses eauto.
  - intros es0. destruct (listeners_of _ _) as [ls|];
      [|apply preserves_ret; typeclasses eauto].
    apply preserves_for_each; try typeclasses eauto.
    intros l. unfold notify_one.
    apply preserves_try_except; try typeclasses eauto;
      [|intros _; apply preserves_ret; typeclasses eauto].
    apply preserves_bind; try typeclasses eauto.
    + destruct (filter_func l) as [f|]; [destruct (f event)|];
        first [apply preserves_ret|apply preserves_raise]; typeclasses eauto.
    + intros [|]; [|apply preserves_ret; typeclasses eauto].
      apply preserves_bind; try typeclasses eauto.
      * apply preserves_modify. intros s. now split.
      * intros _. destruct (handler l event);
          first [apply preserves_ret|apply preserves_raise]; typeclasses eauto.
Qed.

(** The history after one event is the history [_add_to_history]
    leaves. *)
Lemma process_event_history event es :
  event_history (snd (process_event event es))
  = event_history (snd (_add_to_history event es))
  /\ max_history (snd (process_event event es)) = max_history es.
Proof.
  unfold process_event, bind.
  destruct (_add_to_history event es) as [[[]|e] es1] eqn:Ha;
    [|unfold _add_to_history, modify in Ha; discriminate].
  assert (Hm : max_history es1 = max_history es).
  { unfold _add_to_history, modify in Ha. injection Ha as <-. reflexivity. }
  pose proof (notify_listeners_keeps_history event es1) as [Hh Hmax].
  destruct (_notify_listeners event es1) as [[[]|e] es2]; simpl in *.
  - split; congruence.
  - split; congruence.
Qed.

Lemma py_slice_from_zero {A} (l : list A) : py_slice_from (- 0) l = l.
Proof.
  unfold py_slice_from. change (- 0) with 0. change (0 <? 0) with false.
  cbv iota. rewrite Z.min_l by lia. reflexivity.
Qed.

(** With a bound of zero nothing is ever evicted. *)
Lemma add_to_history_zero event es :
  max_history es = 0 ->
  event_history (snd (_add_to_history event es)) = event_history es ++ [event].
Proof.
  intros H0. unfold _add_to_history, modify. simpl. rewrite H0.
  rewrite py_slice_from_zero. now destruct (_ <? _).
Qed.

(** With a positive bound the history is the last [max_history] events
    of the old history followed by the new event. *)
Lemma add_to_history_positive event es :
  0 < max_history es ->
  event_history (snd (_add_to_history event es))
  = last_n (Z.to_nat (max_history es)) (event_history es ++ [event]).
Proof.
  intros Hpos. unfold _add_to_history, modify, last_n. simpl.
  set (h := event_history es ++ [event]).
  destruct (Z.ltb_spec (max_history es) (Z.of_nat (length h))) as [Hlt|Hge].
  - unfold py_slice_from.
    destruct (Z.ltb_spec (- max_history es) 0) as [_|Hn]; [|lia].
    f_equal. lia.
  - replace (length h - Z.to_nat (max_history es))%nat with 0%nat by lia.
    reflexivity.
Qed.

Lemma last_n_length {A} n (l : list A) : (length (last_n n l) <= n)%nat.
Proof. unfold last_n. rewrite length_drop. lia. Qed.

(** For a positive bound the history stays within the bound and holds
    the most recent events in arrival order. *)
Lemma process_event_bounded event es :
  0 < max_history es ->
  event_history (snd (process_event event es))
  = last_n (Z.to_nat (max_history es)) (event_history es ++ [event])
  /\ Z.of_nat (length (event_history (snd (process_event event es))))
     <= max_history es.
Proof.
  intros Hpos. destruct (process_event_history event es) as [-> _].
  rewrite add_to_history_positive by exact Hpos. split; [reflexivity|].
  pose proof (last_n_length (Z.to_nat (max_history es)) (event_history es ++ [event])).
  lia.
Qed.

Lemma after_events_zero events : forall es,
  max_history es = 0 ->
  event_history (after_events events es) = event_history es ++ events.
Proof.
  unfold after_events.
  induction events as [|event events IH]; intros es H0; simpl.
  - now rewrite app_nil_r.
  - destruct (process_event_history event es) as [Hh Hm].
    rewrite IH by congruence. rewrite Hh, add_to_history_zero by exact H0.
    now rewrite <- app_assoc.
Qed.

(** C9.  An event system created with [max_history = 0]: after it has
    processed any events, its history holds all of them, in arrival
    order; after one event the history has one element, which is more
    than the bound. *)
Theorem zero_bound_history_keeps_everything (events : list Event) :
  event_history (after_events events (new 0)) = events
  /\ length (event_history (snd (process_event sample_event (new 0)))) = 1%nat
  /\ max_history (snd (process_event sample_event (new 0))) = 0.
Proof.
  split; [|split; reflexivity].
  now rewrite after_events_zero.
Qed.
End EventHistory.

(* ===================================================================== *)
(** * Further properties of the routing engine *)
(* ===================================================================== *)

(** ** The first element of a stable descending sort *)

Section SortHead.
Context {A : Type} (lt : A -> A -> bool).
Hypothesis lt_trans : forall a b c, lt a b = true -> lt b c = true -> lt a c = true.
Hypothesis lt_split : forall a b c, lt a c = true -> lt a b = true \/ lt b c = true.

End SortHead.

(** ** The order of [_find_best_agent] *)

Section BestAgent.
Import Routing.

Implicit Types (a b c : AgentProfile) (pool : list (string * AgentProfile)).

Lemma Qltb_lt (x y : Q) : Qltb x y = true <-> (x < y)%Q.
Proof.
  unfold Qltb. rewrite negb_true_iff. split.
  - intros Hle. apply Qnot_le_lt. intros Hyx.
    apply Qle_bool_iff in Hyx. congruence.
  - intros Hlt. destruct (Qle_bool y x) eqn:Hle; [|reflexivity].
    apply Qle_bool_iff in Hle. exfalso. now apply (Qlt_not_le x y).
Qed.






End BestAgent.

(** ** A routing request, step by step *)

Section RequestBookkeeping.
Import Routing.
Local Open Scope monad_scope.

Implicit Types (st : RoutingAgent) (p : Payload) (c : Clock).

(** [_execute_routing] when the target, if any, is stored in the pool. *)
Lemma execute_routing_spec call d target now st :
  (forall t, target = Some t -> is_Some (dict_get t (available_agents st))) ->
  _execute_routing call d target now st
  = (Ok tt,
     with_agents (pool_after (assigns d target))
       (with_outbox (fun o => o ++ decision_messages call d target)
          (with_active_routes (fun routes => <[call := route_of d target now]> routes)
             st))).
Proof.
  intros Hin. destruct st as [pool rules routes q hist art et mq out].
  unfold _execute_routing, bind, modify. simpl in *.
  assert (Hnone : forall routes',
    ret tt {| available_agents := pool; routing_rules := rules;
              active_routes := routes'; queue := q; routing_history := hist;
              auto_resolve_threshold := art; escalation_threshold := et;
              max_queue_time := mq; outbox := out |}
    = (Ok tt, {| available_agents := pool; routing_rules := rules;
                 active_routes := routes'; queue := q; routing_history := hist;
                 auto_resolve_threshold := art; escalation_threshold := et;
                 max_queue_time := mq; outbox := out ++ [] |})).
  { intros routes'. unfold ret. now rewrite app_nil_r. }
  destruct d; simpl; try reflexivity.
  - destruct target as [t|]; simpl; [|apply Hnone].
    destruct (str_truthy t); simpl; [|apply Hnone].
    destruct (Hin t eq_refl) as [a Ha].
    unfold _transfer_to_agent, bump_load, lookup_agent, send_message, bind, modify.
    simpl. rewrite Ha. simpl. rewrite Ha. reflexivity.
  - destruct target as [t|]; simpl; [|apply Hnone].
    destruct (str_truthy t); simpl; [|apply Hnone].
    destruct (Hin t eq_refl) as [a Ha].
    unfold _escalate_to_supervisor, bump_load, lookup_agent, send_message, bind, modify.
    simpl. rewrite Ha. simpl. rewrite Ha. reflexivity.
Qed.

(** A request whose decision names, if anyone, a worker stored in the
    pool. *)
Lemma handle_routing_request_spec p c st d target st1 :
  _make_routing_decision (call_id p) (metadata p) (summary p) (quality_score p) c st
  = (Ok (d, target), st1) ->
  (forall t, target = Some t -> is_Some (dict_get t (available_agents st1))) ->
  _handle_routing_request p c st
  = (Ok tt,
     with_history (fun h => h ++ [(call_id p, route_of d target (utcnow c))])
       (with_agents (pool_after (assigns d target))
          (with_outbox (fun o => o ++ decision_messages (call_id p) d target)
             (with_active_routes
                (fun routes => <[call_id p := route_of d target (utcnow c)]> routes)
                st1)))).
Proof.
  intros Hd Hin. unfold _handle_routing_request, try_except, bind. rewrite Hd.
  simpl. rewrite execute_routing_spec by exact Hin. reflexivity.
Qed.


End RequestBookkeeping.

(** ** The default routing *)

Section DefaultRouting.
Import Routing.
Local Open Scope monad_scope.

Implicit Types (st : RoutingAgent) (p : Payload) (c : Clock).

Lemma make_routing_decision_default p c st :
  no_rule_matches st p c ->
  _make_routing_decision (call_id p) (metadata p) (summary p) (quality_score p) c st
  = default_routing (metadata p) (summary p) (quality_score p) st.
Proof.
  intros Hno. unfold _make_routing_decision, bind, get. simpl.
  rewrite rule_loop_find. unfold no_rule_matches in Hno. now rewrite Hno.
Qed.

(** X3.  A call that no rule matches and whose resolution confidence
    (0.5 when the summary has none) reaches the auto-resolve threshold is
    auto-resolved: the request returns normally, one auto-resolve message
    is sent, the decision is recorded without a target, and neither the
    pool nor the wait queue changes. *)
Theorem confident_call_is_auto_resolved p c st :
  no_rule_matches st p c ->
  (auto_resolve_threshold st
   <= get_or (resolution_confidence (summary p)) (1 # 2))%Q ->
  _handle_routing_request p c st
  = (Ok tt,
     with_history
       (fun h => h ++ [(call_id p, route_of AUTO_RESOLVE None (utcnow c))])
       (with_outbox (fun o => o ++ [MsgAutoResolve (call_id p)])
          (with_active_routes
             (fun routes =>
                <[call_id p := route_of AUTO_RESOLVE None (utcnow c)]> routes)
             st))).
Proof.
  intros Hno Hconf.
  rewrite (handle_routing_request_spec p c st AUTO_RESOLVE None st).
  - reflexivity.
  - rewrite make_routing_decision_default by exact Hno.
    unfold default_routing, bind, get. simpl.
    apply Qle_bool_iff in Hconf. now rewrite Hconf.
  - intros t [=].
Qed.

Lemma confident_call_is_auto_resolved_witness :
  _handle_routing_request confident_call office_hours default_engine
  = (Ok tt,
     with_history
       (fun h => h ++ [(call_id confident_call,
                        route_of AUTO_RESOLVE None (utcnow office_hours))])
       (with_outbox (fun o => o ++ [MsgAutoResolve (call_id confident_call)])
          (with_active_routes
             (fun routes =>
                <[call_id confident_call :=
                    route_of AUTO_RESOLVE None (utcnow office_hours)]> routes)
             default_engine))).
Proof.
  apply (confident_call_is_auto_resolved confident_call office_hours default_engine).
  - vm_compute. reflexivity.
  - vm_compute. discriminate.
Defined.

(** X4.  The default routing escalates only on a quality score that is
    present, different from zero and below the escalation threshold: a
    call that no rule matches, whose confidence is below the auto-resolve
    threshold and whose quality score is missing or exactly zero, is
    routed as a transfer to the best worker for its category, never as an
    escalation. *)
Theorem zero_quality_is_not_escalated p c st :
  no_rule_matches st p c ->
  ~ (auto_resolve_threshold st
     <= get_or (resolution_confidence (summary p)) (1 # 2))%Q ->
  (quality_score p = None
   \/ exists q, quality_score p = Some q /\ (q == 0)%Q) ->
  _make_routing_decision (call_id p) (metadata p) (summary p) (quality_score p) c st
  = (Ok (AGENT_TRANSFER,
         _find_best_agent (available_agents st) None
           (Some (_determine_category (summary p)))
           (get_or (md_language (metadata p)) "en")),
     st).
Proof.
  intros Hno Hconf Hq. rewrite make_routing_decision_default by exact Hno.
  unfold default_routing, bind, get. simpl.
  destruct (Qle_bool _ _) eqn:Hle; [apply Qle_bool_iff in Hle; contradiction|].
  destruct Hq as [->|(q & -> & Hz)]; [reflexivity|].
  apply Qeq_bool_iff in Hz. rewrite Hz. reflexivity.
Qed.

Lemma zero_quality_is_not_escalated_witness :
  let p := {| call_id := "call-4"; metadata := empty_metadata;
              summary := {| topics := ["question"]; action_items := ["a"; "b"];
                            customer_issues := []; sentiment := None;
                            resolution_confidence := Some (1 # 10) |};
              quality_score := Some 0%Q |} in
  _make_routing_decision (call_id p) (metadata p) (summary p) (quality_score p)
    office_hours default_engine
  = (Ok (AGENT_TRANSFER,
         _find_best_agent (available_agents default_engine) None
           (Some (_determine_category (summary p)))
           (get_or (md_language (metadata p)) "en")),
     default_engine).
Proof.
  cbv zeta.
  apply (zero_quality_is_not_escalated
           {| call_id := "call-4"; metadata := empty_metadata;
              summary := {| topics := ["question"]; action_items := ["a"; "b"];
                            customer_issues := []; sentiment := None;
                            resolution_confidence := Some (1 # 10) |};
              quality_score := Some 0%Q |} office_hours default_engine).
  - vm_compute. reflexivity.
  - vm_compute. intros H. apply H. reflexivity.
  - right. exists 0%Q. split; reflexivity.
Defined.

(** X5.  When the default routing decides for a transfer and finds no
    worker, the call is neither queued nor given a callback: the request
    returns normally, sends nothing, leaves pool and queue alone and only
    records the decision [AGENT_TRANSFER] without a target. *)
Theorem default_transfer_without_worker_is_dropped p c st :
  no_rule_matches st p c ->
  fst (default_routing (metadata p) (summary p) (quality_score p) st)
  = Ok (AGENT_TRANSFER, None) ->
  let st' := snd (_handle_routing_request p c st) in
  fst (_handle_routing_request p c st) = Ok tt
  /\ outbox st' = outbox st
  /\ queue st' = queue st
  /\ available_agents st' = available_agents st
  /\ routing_history st'
     = routing_history st ++ [(call_id p, route_of AGENT_TRANSFER None (utcnow c))].
Proof.
  intros Hno Hdef.
  assert (Hd : _make_routing_decision (call_id p) (metadata p) (summary p)
                 (quality_score p) c st = (Ok (AGENT_TRANSFER, None), st)).
  { rewrite make_routing_decision_default by exact Hno.
    destruct (default_routing_result (metadata p) (summary p) (quality_score p) st)
      as (d & t & Heq & _).
    rewrite Heq in Hdef |- *. simpl in Hdef. now injection Hdef as -> ->. }
  simpl. rewrite (handle_routing_request_spec p c st AGENT_TRANSFER None st Hd).
  2:{ intros t [=]. }
  simpl. repeat split; try reflexivity. apply app_nil_r.
Qed.

Lemma default_transfer_without_worker_is_dropped_witness :
  let p := {| call_id := "call-5";
              metadata := {| md_priority := None; md_language := Some "de";
                             md_customer_phone := None |};
              summary := {| topics := ["question"]; action_items := ["a"; "b"];
                            customer_issues := []; sentiment := None;
                            resolution_confidence := Some (1 # 10) |};
              quality_score := None |} in
  let st' := snd (_handle_routing_request p office_hours default_engine) in
  fst (_handle_routing_request p office_hours default_engine) = Ok tt
  /\ outbox st' = outbox default_engine
  /\ queue st' = queue default_engine
  /\ available_agents st' = available_agents default_engine
  /\ routing_history st'
     = routing_history default_engine
       ++ [(call_id p, route_of AGENT_TRANSFER None (utcnow office_hours))].
Proof.
  cbv zeta.
  apply (default_transfer_without_worker_is_dropped
           {| call_id := "call-5";
              metadata := {| md_priority := None; md_language := Some "de";
                             md_customer_phone := None |};
              summary := {| topics := ["question"]; action_items := ["a"; "b"];
                            customer_issues := []; sentiment := None;
                            resolution_confidence := Some (1 # 10) |};
              quality_score := None |} office_hours default_engine).
  - vm_compute. reflexivity.
  - vm_compute. reflexivity.
Defined.
(** X27.  On the default path an escalation does reach a supervisor: a
    call that no rule matches, whose confidence is below the auto-resolve
    threshold and whose quality score is not zero and below the
    escalation threshold, is escalated to the first available supervisor
    of the pool.  The request returns normally, sends one escalation
    message to that supervisor, raises the supervisor's load by one,
    leaves every other load alone and queues nothing. *)
Theorem low_quality_call_is_escalated p c st q t :
  pool_keyed (available_agents st) ->
  no_rule_matches st p c ->
  ~ (auto_resolve_threshold st
     <= get_or (resolution_confidence (summary p)) (1 # 2))%Q ->
  quality_score p = Some q -> ~ (q == 0)%Q -> (q < escalation_threshold st)%Q ->
  _find_supervisor (available_agents st) = Some t -> t <> "" ->
  let st' := snd (_handle_routing_request p c st) in
  fst (_handle_routing_request p c st) = Ok tt
  /\ outbox st' = outbox st ++ [MsgEscalate (call_id p) t]
  /\ (exists l, load_of t st = Some l /\ load_of t st' = Some (l + 1))
  /\ (forall k, k <> t -> load_of k st' = load_of k st)
  /\ queue st' = queue st.
Proof.
  intros Hk Hno Hconf Hq Hnz Hlow Hsup Hne. cbv zeta.
  assert (Htruthy : str_truthy t = true).
  { unfold str_truthy. destruct (String.eqb_spec t ""); [contradiction|reflexivity]. }
  destruct (find_supervisor_sound _ _ Hsup) as (a & Hin & Hid & _).
  assert (Ha : dict_get t (available_agents st) = Some a)
    by (rewrite <- Hid; now apply keyed_lookup).
  rewrite (handle_routing_request_spec p c st ESCALATE (Some t) st).
  - simpl. rewrite Htruthy. simpl. unfold load_of. simpl.
    repeat split.
    + exists (current_load a). rewrite dict_update_get_same, Ha. now split.
    + intros k Hkt. now rewrite dict_update_get_other.
  - rewrite make_routing_decision_default by exact Hno.
    unfold default_routing, bind, get. simpl.
    destruct (Qle_bool _ _) eqn:Hle; [apply Qle_bool_iff in Hle; contradiction|].
    rewrite Hq, Hsup.
    destruct (Qeq_bool q 0) eqn:Hz; [apply Qeq_bool_iff in Hz; contradiction|].
    unfold Qltb.
    destruct (Qle_bool (escalation_threshold st) q) eqn:Hge;
      [apply Qle_bool_iff in Hge; exfalso; apply (Qlt_not_le _ _ Hlow Hge)|].
    reflexivity.
  - intros t' [= <-]. rewrite Ha. eauto.
Qed.

Lemma low_quality_call_is_escalated_witness :
  let p := {| call_id := "call-5"; metadata := empty_metadata;
              summary := {| topics := ["question"]; action_items := ["a"; "b"];
                            customer_issues := []; sentiment := None;
                            resolution_confidence := Some (1 # 10) |};
              quality_score := Some (1 # 10) |} in
  let st' := snd (_handle_routing_request p office_hours default_engine) in
  fst (_handle_routing_request p office_hours default_engine) = Ok tt
  /\ outbox st' = outbox default_engine ++ [MsgEscalate (call_id p) "SUP001"]
  /\ (exists l, load_of "SUP001" default_engine = Some l
                /\ load_of "SUP001" st' = Some (l + 1))
  /\ (forall k, k <> "SUP001" -> load_of k st' = load_of k default_engine)
  /\ queue st' = queue default_engine.
Proof.
  apply (low_quality_call_is_escalated
           {| call_id := "call-5"; metadata := empty_metadata;
              summary := {| topics := ["question"]; action_items := ["a"; "b"];
                            customer_issues := []; sentiment := None;
                            resolution_confidence := Some (1 # 10) |};
              quality_score := Some (1 # 10) |}
           office_hours default_engine (1 # 10) "SUP001").
  - unfold pool_keyed. apply (bool_decide_unpack _). vm_compute. exact I.
  - vm_compute. reflexivity.
  - vm_compute. intros H. apply H. reflexivity.
  - reflexivity.
  - vm_compute. discriminate.
  - vm_compute. reflexivity.
  - vm_compute. reflexivity.
  - discriminate.
Defined.
End DefaultRouting.

(** ** What the engine never does to a worker *)

Section PoolGrowth.
Import Routing.

Implicit Types (st : RoutingAgent) (pool : list (string * AgentProfile)).

Lemma only_load_grew_refl a : only_load_grew a a.
Proof. unfold only_load_grew. repeat split. lia. Qed.

Lemma only_load_grew_trans a b c :
  only_load_grew a b -> only_load_grew b c -> only_load_grew a c.
Proof.
  unfold only_load_grew.
  intros (H1 & H2 & H3 & H4 & H5 & H6 & H7 & H8 & H9)
         (G1 & G2 & G3 & G4 & G5 & G6 & G7 & G8 & G9).
  repeat split; try congruence. lia.
Qed.

Lemma pool_grew_refl pool : pool_grew pool pool.
Proof.
  induction pool as [|ka pool IH]; constructor; [|exact IH].
  split; [reflexivity|apply only_load_grew_refl].
Qed.

Lemma pool_grew_trans pool1 pool2 pool3 :
  pool_grew pool1 pool2 -> pool_grew pool2 pool3 -> pool_grew pool1 pool3.
Proof.
  intros H12. revert pool3. induction H12 as [|ka kb l1 l2 [Hk Hg] _ IH];
    intros pool3 H23; inversion H23 as [|kb' kc l2' l3 [Hk' Hg'] Htl]; subst.
  - constructor.
  - constructor; [|now apply IH].
    split; [congruence|]. eapply only_load_grew_trans; eassumption.
Qed.

Lemma incr_load_grew pool t : pool_grew pool (dict_update t incr_load pool).
Proof.
  induction pool as [|[k a] pool IH]; simpl; [constructor|].
  destruct (String.eqb t k).
  - constructor; [|apply pool_grew_refl].
    split; [reflexivity|]. unfold only_load_grew. simpl. repeat split. lia.
  - constructor; [|exact IH]. split; [reflexivity|apply only_load_grew_refl].
Qed.

Lemma step_pool_grew st op :
  pool_keyed (available_agents st) ->
  pool_grew (available_agents st) (available_agents (step st op)).
Proof.
  intros Hk. destruct op as [p c|now|]; unfold step; simpl.
  - destruct (handle_routing_request_pool p c st Hk) as (d & target & _ & Hp & _).
    rewrite Hp. destruct (assigns d target); simpl;
      [apply incr_load_grew|apply pool_grew_refl].
  - rewrite process_queue_same_pool by exact Hk. apply pool_grew_refl.
  - apply pool_grew_refl.
Qed.

(** X6.  Over a pool keyed by agent id, whatever requests, sweeps and
    load-balancer ticks the engine runs, the pool keeps its workers in
    their order and each worker keeps its id, name, skill level,
    specializations, languages, capacity, availability flag and score;
    only [current_load] changes, and it never decreases: the engine has
    no operation that releases a worker. *)
Theorem engine_only_adds_load st ops :
  pool_keyed (available_agents st) ->
  pool_grew (available_agents st) (available_agents (run_ops ops st)).
Proof.
  revert st. unfold run_ops.
  induction ops as [|op ops IH]; intros st Hk; simpl; [apply pool_grew_refl|].
  eapply pool_grew_trans; [apply step_pool_grew, Hk|].
  apply IH.
  destruct op as [p c|now|]; unfold step; simpl.
  - destruct (handle_routing_request_pool p c st Hk) as (d & target & _ & Hp & _).
    rewrite Hp. now apply pool_after_keyed.
  - now rewrite process_queue_same_pool.
  - exact Hk.
Qed.

Lemma engine_only_adds_load_witness :
  pool_grew (available_agents default_engine)
    (available_agents
       (run_ops [HandleRoutingRequest confident_call office_hours;
                 ProcessQueue 5000000;
                 HandleRoutingRequest german_technical_call office_hours]
                default_engine)).
Proof.
  apply (engine_only_adds_load default_engine).
  unfold pool_keyed. apply (bool_decide_unpack _). vm_compute. exact I.
Defined.
End PoolGrowth.

(** ** The queue sweep as a whole *)

Section SweepAsAWhole.
Import Routing.
Local Open Scope monad_scope.

Implicit Types (st : RoutingAgent) (items : list QueueItem).

Lemma sweep_messages_length st now items :
  length (sweep_messages st now items)
  = length (List.filter (sweep_handles st now) items).
Proof.
  unfold sweep_messages, sweep_handles.
  induction items as [|item items IH]; simpl; [reflexivity|].
  destruct (sweep_outcome st now item); simpl; now rewrite IH.
Qed.

Lemma filter_split_length {A} (f : A -> bool) (l : list A) :
  (length (List.filter f l) + length (List.filter (fun x => negb (f x)) l)
   = length l)%nat.
Proof.
  induction l as [|x l IH]; simpl; [reflexivity|].
  destruct (f x); simpl; lia.
Qed.

(** X7.  A sweep over a pool keyed by agent id returns normally and
    splits the queue: the entries for which it finds no worker and which
    have not waited longer than [max_queue_time] stay, in their order;
    every other entry leaves the queue and gets exactly one message, a
    transfer if a worker was found (also for an entry that has expired),
    a callback otherwise; the messages are sent in queue order. *)
Theorem sweep_splits_the_queue st now :
  pool_keyed (available_agents st) ->
  let st' := snd (_process_queue now st) in
  fst (_process_queue now st) = Ok tt
  /\ queue st'
     = List.filter
         (fun item => negb (opt_truthy (sweep_target st item))
                      && negb (expired st now item))
         (queue st)
  /\ outbox st'
     = outbox st
       ++ flat_map
            (fun item =>
               if opt_truthy (sweep_target st item)
               then [MsgTransfer (q_call_id item) (get_or (sweep_target st item) "")]
               else if expired st now item then [MsgCallback (q_call_id item)]
               else [])
            (queue st)
  /\ (length (queue st') + (length (outbox st') - length (outbox st))
      = length (queue st))%nat.
Proof.
  intros Hk. simpl. rewrite process_queue_spec by exact Hk. simpl.
  split; [reflexivity|]. split; [|split].
  - apply List.filter_ext. intros item. unfold sweep_handles, sweep_outcome.
    destruct (opt_truthy _); [reflexivity|]. now destruct (expired _ _ _).
  - f_equal. unfold sweep_messages. apply flat_map_ext. intros item.
    unfold sweep_outcome.
    destruct (opt_truthy _); [reflexivity|]. now destruct (expired _ _ _).
  - rewrite length_app, sweep_messages_length.
    pose proof (filter_split_length (sweep_handles st now) (queue st)). lia.
Qed.

Lemma sweep_splits_the_queue_witness :
  let st := engine_with_german_call in
  let st' := snd (_process_queue 1000000 st) in
  fst (_process_queue 1000000 st) = Ok tt
  /\ queue st'
     = List.filter
         (fun item => negb (opt_truthy (sweep_target st item))
                      && negb (expired st 1000000 item))
         (queue st)
  /\ outbox st'
     = outbox st
       ++ flat_map
            (fun item =>
               if opt_truthy (sweep_target st item)
               then [MsgTransfer (q_call_id item) (get_or (sweep_target st item) "")]
               else if expired st 1000000 item then [MsgCallback (q_call_id item)]
               else [])
            (queue st)
  /\ (length (queue st') + (length (outbox st') - length (outbox st))
      = length (queue st))%nat.
Proof.
  apply (sweep_splits_the_queue engine_with_german_call 1000000).
  unfold pool_keyed. apply (bool_decide_unpack _). vm_compute. exact I.
Defined.

Lemma filter_idem {A} (f : A -> bool) (l : list A) :
  List.filter f (List.filter f l) = List.filter f l.
Proof.
  induction l as [|x l IH]; simpl; [reflexivity|].
  destruct (f x) eqn:Hx; simpl; [rewrite Hx|]; now rewrite IH.
Qed.

Lemma sweep_messages_none st now items :
  Forall (fun item => sweep_handles st now item = false) items ->
  sweep_messages st now items = [].
Proof.
  unfold sweep_messages, sweep_handles.
  induction 1 as [|item items Hi _ IH]; simpl; [reflexivity|].
  destruct (sweep_outcome st now item); [discriminate|exact IH].
Qed.

(** X8.  A second sweep at the same time does nothing: after one sweep
    over a pool keyed by agent id, sweeping again with the same clock
    returns normally and leaves the engine exactly as it is. *)
Theorem sweep_twice_is_sweep_once st now :
  pool_keyed (available_agents st) ->
  let st' := snd (_process_queue now st) in
  _process_queue now st' = (Ok tt, st').
Proof.
  intros Hk. simpl. rewrite (process_queue_spec st now Hk). simpl.
  set (st' := with_queue _ _).
  assert (Hk' : pool_keyed (available_agents st')) by exact Hk.
  rewrite (process_queue_spec st' now Hk').
  assert (Hh : forall item, sweep_handles st' now item = sweep_handles st now item)
    by reflexivity.
  f_equal.
  assert (Hq : queue st'
               = List.filter (fun item => negb (sweep_handles st now item)) (queue st))
    by reflexivity.
  assert (Hnone : sweep_messages st' now (queue st') = []).
  { apply sweep_messages_none. rewrite Hq. apply Forall_forall.
    intros item Hin. apply list_elem_of_In, List.filter_In in Hin as [_ Hin].
    rewrite Hh. now apply negb_true_iff in Hin. }
  rewrite Hnone.
  assert (Hf : List.filter (fun item => negb (sweep_handles st' now item)) (queue st')
               = queue st').
  { rewrite Hq. apply filter_idem. }
  destruct st' as [pool rules routes q hist art et mq out].
  unfold with_queue, with_outbox. simpl in *.
  rewrite app_nil_r. now rewrite Hf.
Qed.

Lemma sweep_twice_is_sweep_once_witness :
  let st' := snd (_process_queue 1000000 engine_with_waiting_call) in
  _process_queue 1000000 st' = (Ok tt, st').
Proof.
  apply (sweep_twice_is_sweep_once engine_with_waiting_call 1000000).
  unfold pool_keyed. apply (bool_decide_unpack _). vm_compute. exact I.
Defined.
End SweepAsAWhole.

(** ** From the wait queue to the callback *)

Section QueuedCall.
Import Routing.
Local Open Scope monad_scope.

Implicit Types (st : RoutingAgent) (p : Payload) (c : Clock).

(** X9.  A call whose first matching rule is a transfer for which the
    pool has no candidate is answered with a callback message at once and
    put on the wait queue under that rule; when a sweep later finds it
    expired, still without a candidate, the call gets a second callback
    message and leaves the queue.  No load changes on the way. *)
Theorem queued_call_gets_a_second_callback p c now st r :
  pool_keyed (available_agents st) ->
  queue st = [] ->
  List.find
    (fun r => _check_rule_conditions r (routing_factors (metadata p) (summary p) c))
    (sorted_rules (routing_rules st)) = Some r ->
  action r = AGENT_TRANSFER ->
  (forall k a, In (k, a) (available_agents st) ->
     is_candidate (target_skill_level r) (target_specialization r)
       (get_or (md_language (metadata p)) "en") a = false) ->
  (max_queue_time st < total_seconds (now - utcnow c))%Q ->
  let st1 := step st (HandleRoutingRequest p c) in
  let st2 := step st1 (ProcessQueue now) in
  queue st1 = [ {| q_call_id := call_id p; q_metadata := metadata p;
                   q_rule := r; queued_at := utcnow c |} ]
  /\ outbox st1 = outbox st ++ [MsgCallback (call_id p)]
  /\ queue st2 = []
  /\ outbox st2 = outbox st ++ [MsgCallback (call_id p); MsgCallback (call_id p)]
  /\ available_agents st2 = available_agents st.
Proof.
  intros Hk Hq Hfirst Hact Hno Hexp. cbv zeta. unfold step. simpl.
  set (entry := {| q_call_id := call_id p; q_metadata := metadata p;
                   q_rule := r; queued_at := utcnow c |}).
  assert (Hd : _make_routing_decision (call_id p) (metadata p) (summary p)
                 (quality_score p) c st
               = (Ok (CALLBACK, None), with_queue (fun q => q ++ [entry]) st)).
  { unfold _make_routing_decision, bind, get. simpl.
    rewrite rule_loop_find, Hfirst, (apply_rule_transfer _ _ _ _ _ Hact).
    cbv zeta. now rewrite (find_best_agent_none _ _ _ _ Hno). }
  rewrite (handle_routing_request_spec p c st CALLBACK None _ Hd).
  2:{ intros t [=]. }
  simpl. set (st1 := with_history _ _).
  assert (Hk1 : pool_keyed (available_agents st1)) by exact Hk.
  rewrite (process_queue_spec st1 now Hk1). simpl. rewrite Hq. simpl.
  assert (Hout : sweep_outcome st1 now entry = Some (MsgCallback (call_id p))).
  { unfold sweep_outcome, sweep_target. simpl.
    rewrite (find_best_agent_none _ _ _ _ Hno). simpl.
    unfold expired. simpl. apply Qltb_lt in Hexp. now rewrite Hexp. }
  unfold sweep_handles, sweep_messages. simpl. rewrite Hout. simpl.
  repeat split; try reflexivity. now rewrite <- app_assoc.
Qed.

Lemma queued_call_gets_a_second_callback_witness :
  let p := german_technical_call in
  let st1 := step default_engine (HandleRoutingRequest p office_hours) in
  let st2 := step st1 (ProcessQueue 301000000) in
  queue st1 = [ {| q_call_id := call_id p; q_metadata := metadata p;
                   q_rule := technical_rule; queued_at := utcnow office_hours |} ]
  /\ outbox st1 = outbox default_engine ++ [MsgCallback (call_id p)]
  /\ queue st2 = []
  /\ outbox st2
     = outbox default_engine ++ [MsgCallback (call_id p); MsgCallback (call_id p)]
  /\ available_agents st2 = available_agents default_engine.
Proof.
  apply (queued_call_gets_a_second_callback german_technical_call office_hours
           301000000 default_engine technical_rule).
  - unfold pool_keyed. apply (bool_decide_unpack _). vm_compute. exact I.
  - reflexivity.
  - vm_compute. reflexivity.
  - reflexivity.
  - intros k a Hin. vm_compute in Hin.
    repeat (destruct Hin as [[= <- <-]|Hin]; [vm_compute; reflexivity|]).
    destruct Hin.
  - vm_compute. reflexivity.
Defined.
End QueuedCall.

(** ** The category of a call *)

Section Category.
Import Routing.




End Category.

(* ===================================================================== *)
(** * Further properties of the agent frame *)
(* ===================================================================== *)

Section LifecycleCalls.
Import Agent.

Implicit Types (a : BaseAgent) (s : AgentState).

Lemma start_refused ok a :
  state a <> READY ->
  exists what, start ok a = (Raise (AgentException what), a).
Proof.
  intros Hs. unfold start, bind, get. simpl.
  rewrite bool_decide_eq_false_2 by exact Hs. eexists. reflexivity.
Qed.




(** Awaited from outside the agent's tasks, [restart_by] is [restart]. *)
Lemma restart_by_outside stop_ok init_ok start_ok a :
  restart_by FromOutside stop_ok init_ok start_ok a
  = (Ends (fst (restart stop_ok init_ok start_ok a)),
     snd (restart stop_ok init_ok start_ok a)).
Proof.
  destruct a as [s h reg run tasks]. destruct stop_ok; reflexivity.
Qed.


End LifecycleCalls.

(** ** The orchestrator's loops over the agents *)

Section Orchestrator.
Import Agent System.

Implicit Types (sys : CallCenterSystem) (hook_ok : string -> bool).

Lemma start_loop_changes_nothing hook_ok todo : forall done,
  snd (start_loop hook_ok done todo) = done ++ todo
  /\ (fst (start_loop hook_ok done todo) = Ok tt <->
      Forall (fun na => state (snd na) = READY) todo).
Proof.
  induction todo as [|[n a] todo IH]; intros done; simpl.
  - split; [now rewrite app_nil_r|]. split; [constructor|reflexivity].
  - destruct (decide (state a = READY)) as [Hr|Hr].
    + rewrite bool_decide_eq_true_2 by exact Hr. simpl.
      destruct (IH (done ++ [(n, a)])) as [H1 H2]. rewrite H1, H2.
      split; [now rewrite <- app_assoc|].
      split; [intros Hall; now constructor|].
      intros Hall. now apply Forall_cons_1 in Hall as [_ Hall].
    + rewrite bool_decide_eq_false_2 by exact Hr. simpl.
      destruct (start_refused (hook_ok n) a Hr) as [what ->]. simpl.
      split; [reflexivity|].
      split; [discriminate|]. intros Hall. apply Forall_cons_1 in Hall as [Hn _].
      contradiction.
Qed.

(** X14.  The agent loop of [CallCenterSystem.start] never starts an
    agent: it calls [start] only on agents that are not ready, which is
    exactly when [start] refuses.  Every agent is left as it was, and the
    loop ends without an exception exactly when the system already runs
    or every agent is ready. *)
Theorem system_start_starts_nobody hook_ok sys :
  agents (snd (start_agents hook_ok sys)) = agents sys
  /\ (fst (start_agents hook_ok sys) = Ok tt <->
      is_running sys = true
      \/ Forall (fun na => state (snd na) = READY) (agents sys)).
Proof.
  unfold start_agents. destruct (is_running sys) eqn:Hrun; simpl.
  - split; [reflexivity|]. split; auto.
  - destruct (start_loop_changes_nothing hook_ok (agents sys) []) as [H1 H2].
    destruct (start_loop hook_ok [] (agents sys)) as [r l]. simpl in *.
    split; [exact H1|]. rewrite H2. split; [auto|]. intros [|]; [discriminate|auto].
Qed.

End Orchestrator.

(** ** The metrics of an agent *)

Section MetricsFacts.
Import Metrics.

Implicit Types (m : AgentMetrics) (outcomes : list Outcome).

Lemma after_counts outcomes : forall m,
  messages_processed (after outcomes m)
  = messages_processed m + Z.of_nat (length (List.filter is_handled outcomes))
  /\ messages_failed (after outcomes m)
     = messages_failed m
       + Z.of_nat (length (List.filter (fun o => negb (is_handled o)) outcomes)).
Proof.
  unfold after. induction outcomes as [|o outcomes IH]; intros m; simpl.
  - split; lia.
  - destruct (IH (record m o)) as [H1 H2]. rewrite H1, H2.
    destruct o; simpl; split; lia.
Qed.

Lemma success_rate_bounds m :
  0 <= messages_processed m -> 0 <= messages_failed m ->
  (0 <= success_rate m <= 1)%Q.
Proof.
  intros Hp Hf. unfold success_rate.
  destruct (Z.ltb_spec 0 (messages_processed m + messages_failed m)) as [Hpos|Hz].
  - assert (Hq : (0 < inject_Z (messages_processed m + messages_failed m))%Q).
    { change 0%Q with (inject_Z 0). now rewrite <- Zlt_Qlt. }
    split.
    + apply Qle_shift_div_l; [exact Hq|]. rewrite Qmult_0_l.
      change 0%Q with (inject_Z 0). rewrite <- Zle_Qle. exact Hp.
    + apply Qle_shift_div_r; [exact Hq|]. rewrite Qmult_1_l.
      rewrite <- Zle_Qle. lia.
  - split; [apply Qle_refl|discriminate].
Qed.

(** X16.  After the run loop has reported any sequence of outcomes to
    fresh metrics, [messages_processed] is the number of handled
    messages, [messages_failed] the number of failed ones, together the
    number of outcomes; the success rate lies between 0 and 1, is 0 when
    nothing was reported (no division by zero) and is 1 exactly when
    something was handled and nothing failed. *)
Theorem metrics_count_outcomes outcomes :
  let m := after outcomes new in
  messages_processed m = Z.of_nat (length (List.filter is_handled outcomes))
  /\ messages_failed m
     = Z.of_nat (length (List.filter (fun o => negb (is_handled o)) outcomes))
  /\ messages_processed m + messages_failed m = Z.of_nat (length outcomes)
  /\ (0 <= success_rate m <= 1)%Q
  /\ (outcomes = [] -> success_rate m = 0%Q)
  /\ ((success_rate m == 1)%Q <->
      0 < messages_processed m /\ messages_failed m = 0).
Proof.
  cbv zeta. destruct (after_counts outcomes new) as [Hp Hf]. simpl in Hp, Hf.
  set (m := after outcomes new) in *.
  assert (Hsum : messages_processed m + messages_failed m = Z.of_nat (length outcomes)).
  { rewrite Hp, Hf. pose proof (filter_split_length is_handled outcomes). lia. }
  split; [exact Hp|]. split; [exact Hf|]. split; [exact Hsum|].
  split; [apply success_rate_bounds; lia|]. split.
  - intros ->. reflexivity.
  - unfold success_rate.
    destruct (Z.ltb_spec 0 (messages_processed m + messages_failed m)) as [Hpos|Hz].
    + assert (Hq : ~ (inject_Z (messages_processed m + messages_failed m) == 0)%Q).
      { unfold Qeq. simpl. lia. }
      split.
      * intros Hone. apply (Qmult_inj_r _ _ _ Hq) in Hone.
        rewrite Qmult_1_l in Hone. unfold Qdiv in Hone.
        rewrite <- Qmult_assoc, (Qmult_comm (/ _)), Qmult_inv_r, Qmult_1_r in Hone
          by exact Hq.
        unfold Qeq in Hone. simpl in Hone. lia.
      * intros [Hp0 Hf0]. rewrite Hf0, Z.add_0_r. apply Qmult_inv_r.
        unfold Qeq. simpl. lia.
    + split; [intros Heq; discriminate Heq|]. lia.
Qed.
End MetricsFacts.

(* ===================================================================== *)
(** * Further properties of the message bus *)
(* ===================================================================== *)

Section BusDelivery.
Import Msg MessageBus.
Variable raises : nat -> Message -> bool.

Implicit Types (topic : string) (message : Message)
  (bus : MessageBus.t (MemoryBroker.t Wrapped)).

(** One call of a wrapped handler: it never raises, calls the
    subscriber's function when it accepts the message, and counts the
    call as received or as an error. *)
Lemma wrapped_handler_fields {B} (w : Wrapped) message (bus : MessageBus.t B) :
  let bus' := snd (wrapped_handler raises w message bus) in
  fst (wrapped_handler raises w message bus) = Ok tt
  /\ invocations bus'
     = invocations bus ++ (if accepts w message then [(w_func w, message)] else [])
  /\ messages_received bus'
     = messages_received bus
       + (if accepts w message && negb (raises (w_func w) message) then 1 else 0)
  /\ errors bus'
     = errors bus
       + (if accepts w message && raises (w_func w) message then 1 else 0)
  /\ messages_sent bus' = messages_sent bus
  /\ message_history bus' = message_history bus
  /\ is_connected bus' = is_connected bus
  /\ broker bus' = broker bus.
Proof.
  destruct bus as [br hs mh connected ms mr er inv].
  unfold wrapped_handler, accepts, try_except, bind, call_handler_func.
  destruct (w_types w) as [[|ty types]|]; cbv beta iota.
  - destruct (raises (w_func w) message); simpl;
      repeat split; try reflexivity; lia.
  - destruct (type_in (type message) (ty :: types)); cbn [negb andb].
    + destruct (raises (w_func w) message); simpl;
        repeat split; try reflexivity; try lia.
    + simpl. repeat split; try reflexivity; try lia. now rewrite app_nil_r.
  - destruct (raises (w_func w) message); simpl;
      repeat split; try reflexivity; lia.
Qed.

Lemma wrapped_handlers_fields {B} (ws : list Wrapped) message :
  forall bus0 : MessageBus.t B,
  let bus' := fold_left (fun s w => snd (wrapped_handler raises w message s)) ws bus0 in
  invocations bus' = invocations bus0 ++ calls_of ws message
  /\ messages_received bus' = messages_received bus0 + returned raises ws message
  /\ errors bus' = errors bus0 + raised raises ws message
  /\ messages_sent bus' = messages_sent bus0
  /\ message_history bus' = message_history bus0
  /\ is_connected bus' = is_connected bus0
  /\ broker bus' = broker bus0.
Proof.
  unfold calls_of, returned, raised.
  induction ws as [|w ws IH]; intros bus0; simpl.
  - repeat split; try reflexivity; try lia. now rewrite app_nil_r.
  - destruct (IH (snd (wrapped_handler raises w message bus0)))
      as (H1 & H2 & H3 & H4 & H5 & H6 & H7).
    destruct (wrapped_handler_fields w message bus0)
      as (_ & G1 & G2 & G3 & G4 & G5 & G6 & G7).
    simpl in *. rewrite H1, H2, H3, H4, H5, H6, H7, G1, G2, G3, G4, G5, G6, G7.
    destruct (accepts w message); simpl.
    + destruct (raises (w_func w) message); simpl;
        repeat split; try reflexivity; try lia; now rewrite <- app_assoc.
    + repeat split; try reflexivity; try lia. now rewrite app_nil_r.
Qed.

(** A publish on a connected bus over the in-memory broker: the
    handlers are called and the message is counted as sent before the
    audit entry reads [message.type.value]. *)
Lemma memory_bus_publish_fields topic message bus b :
  is_connected bus = true -> broker bus = Some b ->
  let ws := MemoryBroker.subscribers b topic in
  let bus' := snd (publish raises topic message bus) in
  invocations bus' = invocations bus ++ calls_of ws message
  /\ messages_sent bus' = messages_sent bus + 1
  /\ messages_received bus' = messages_received bus + returned raises ws message
  /\ broker bus' = Some b
  /\ match type message with
     | Member t =>
         fst (publish raises topic message bus) = Ok tt
         /\ errors bus' = errors bus + raised raises ws message
         /\ message_history bus'
            = message_history bus
              ++ [ {| a_topic := topic; a_message_id := id message;
                      a_message_type := type_value t;
                      a_sender := sender message; a_recipient := recipient message;
                      a_action := "published" |} ]
     | Plain _ =>
         (exists what,
            fst (publish raises topic message bus)
            = Raise (CommunicationException what))
         /\ errors bus' = errors bus + raised raises ws message + 1
         /\ message_history bus' = message_history bus
     end.
Proof.
  intros Hc Hb. cbv zeta. rewrite publish_unfold, Hc. cbn [negb].
  rewrite (memory_delegate_publish raises topic message bus b Hb).
  destruct (wrapped_handlers_fields (MemoryBroker.subscribers b topic) message bus)
    as (H1 & H2 & H3 & H4 & H5 & H6 & H7).
  destruct (type message) as [t|plain]; simpl.
  - repeat split; assumption || (f_equal; assumption) || (rewrite H4; reflexivity).
  - repeat split; try assumption.
    + rewrite H4. reflexivity.
    + eexists. reflexivity.
    + rewrite H3. reflexivity.
Qed.

(** X17.  A publish on a connected bus over the in-memory broker, with
    subscribers' functions that return or raise an [Exception] and do
    not call back into the bus.  It calls, in subscription order, the function of every
    subscription on the topic that was made without kinds or with the
    message's kind among them, and no other; it adds one to
    [messages_sent], one to [messages_received] for every called function
    that returns and one to [errors] for every called function that
    raises.  If the message's [type] holds an enum member, the publish
    returns normally and adds one entry to the audit log.  If it holds
    the member's plain string, as in every message the constructor
    builds, the publish raises [CommunicationException] after all that:
    the functions were called and the message counted as sent, one more
    error is counted and no audit entry is written. *)
Theorem memory_bus_publish_delivers topic message bus b :
  is_connected bus = true -> broker bus = Some b ->
  let ws := MemoryBroker.subscribers b topic in
  let bus' := snd (publish raises topic message bus) in
  invocations bus' = invocations bus ++ calls_of ws message
  /\ messages_sent bus' = messages_sent bus + 1
  /\ messages_received bus' = messages_received bus + returned raises ws message
  /\ match type message with
     | Member _ =>
         fst (publish raises topic message bus) = Ok tt
         /\ errors bus' = errors bus + raised raises ws message
         /\ length (message_history bus') = S (length (message_history bus))
     | Plain _ =>
         (exists what,
            fst (publish raises topic message bus)
            = Raise (CommunicationException what))
         /\ errors bus' = errors bus + raised raises ws message + 1
         /\ message_history bus' = message_history bus
     end.
Proof.
  intros Hc Hb.
  destruct (memory_bus_publish_fields topic message bus b Hc Hb)
    as (H1 & H2 & H3 & _ & H4).
  cbv zeta in *. split; [exact H1|]. split; [exact H2|]. split; [exact H3|].
  destruct (type message) as [t|plain].
  - destruct H4 as (G1 & G2 & G3). split; [exact G1|]. split; [exact G2|].
    rewrite G3, length_app. simpl. lia.
  - exact H4.
Qed.

(** X18.  Subscribing on a connected bus over the in-memory broker
    returns the function's identity as token, lists the function last
    among those registered on the topic, and makes the next publish on
    the topic call it after the functions subscribed before, provided
    its kinds accept the message (the subscribers' functions return or
    raise an [Exception] and do not call back into the bus). *)
Theorem subscribed_function_is_called topic f types message bus b :
  is_connected bus = true -> broker bus = Some b ->
  let w := {| w_topic := topic; w_func := f; w_types := types |} in
  let bus1 := snd (subscribe topic f types bus) in
  fst (subscribe topic f types bus) = Ok f
  /\ registered bus1 topic = registered bus topic ++ [f]
  /\ invocations (snd (publish raises topic message bus1))
     = invocations bus
       ++ calls_of (MemoryBroker.subscribers b topic) message
       ++ (if accepts w message then [(f, message)] else []).
Proof.
  intros Hc Hb. cbv zeta.
  set (w := {| w_topic := topic; w_func := f; w_types := types |}).
  assert (Hsub : subscribe topic f types bus
                 = (Ok f,
                    snd (set_handlers
                           (fun hs =>
                              <[topic := default [] (hs !! topic)
                                         ++ [ {| handler_func := f;
                                                 message_types := default [] types;
                                                 message_count := 0 |} ]]> hs)
                           (snd (set_broker
                                   (Some (snd (MemoryBroker.subscribe topic w b)))
                                   bus))))).
  { destruct bus as [br hs mh connected ms mr er inv]. simpl in Hc, Hb.
    subst br connected. reflexivity. }
  rewrite Hsub. cbn [fst snd]. split; [reflexivity|]. split.
  - unfold registered. simpl. rewrite lookup_insert_eq. simpl.
    now rewrite map_app.
  - match goal with
    | |- invocations (snd (publish _ _ _ ?x)) = _ => set (bus1 := x)
    end.
    destruct (memory_bus_publish_fields topic message bus1
                (snd (MemoryBroker.subscribe topic w b)))
      as (H2 & _); [exact Hc|reflexivity|].
    cbv zeta in H2. rewrite H2.
    rewrite (memory_subscribe_appends topic w b).
    unfold calls_of. rewrite List.filter_app, map_app. simpl.
    destruct (accepts w message); reflexivity.
Qed.

(** X19.  What a bus refuses.  On a bus that is not connected,
    [subscribe] raises [CommunicationException], counts one error and
    registers nothing.  On a bus without a broker, [unsubscribe] raises
    [CommunicationException] too but, unlike [publish] and [subscribe],
    counts no error: the bus is left exactly as it was. *)
Theorem bus_refusals {B} `{MessageBroker Wrapped B} topic f types handler_id
    (bus : MessageBus.t B) :
  (is_connected bus = false ->
   subscribe topic f types bus
   = (Raise (CommunicationException "Subscribe failed: Message bus not connected"),
      snd (count_error bus)))
  /\ (broker bus = None ->
      exists what,
        unsubscribe topic handler_id bus = (Raise (CommunicationException what), bus)).
Proof.
  destruct bus as [br hs mh connected ms mr er inv]. simpl. split.
  - intros ->. reflexivity.
  - intros ->. eexists. reflexivity.
Qed.
End BusDelivery.

Section BusDeliveryExamples.
Import Msg MessageBus.

Lemma memory_bus_publish_delivers_witness :
  let bus := memory_bus_two_handlers in
  let bus' :=
    snd (publish (fun f _ => Nat.eqb f 1) "calls" constructed_message bus) in
  invocations bus' = [(1%nat, constructed_message); (2%nat, constructed_message)]
  /\ messages_sent bus' = 1
  /\ messages_received bus' = 1
  /\ (exists what,
        fst (publish (fun f _ => Nat.eqb f 1) "calls" constructed_message bus)
        = Raise (CommunicationException what))
  /\ errors bus' = 2
  /\ message_history bus' = [].
Proof.
  destruct (memory_bus_publish_delivers (fun f _ => Nat.eqb f 1) "calls"
              constructed_message memory_bus_two_handlers
              (snd (MemoryBroker.subscribe "calls"
                      {| w_topic := "calls"; w_func := 2%nat; w_types := None |}
                      (snd (MemoryBroker.subscribe "calls"
                              {| w_topic := "calls"; w_func := 1%nat;
                                 w_types := None |}
                              MemoryBroker.new))))
              eq_refl eq_refl)
    as (H1 & H2 & H3 & H4 & H5 & H6).
  cbv zeta in *.
  split; [rewrite H1; vm_compute; reflexivity|].
  split; [rewrite H2; reflexivity|].
  split; [rewrite H3; vm_compute; reflexivity|].
  split; [exact H4|].
  split; [rewrite H5; vm_compute; reflexivity|].
  rewrite H6. reflexivity.
Defined.

Lemma subscribed_function_is_called_witness :
  let bus := memory_bus_two_handlers in
  let bus1 := snd (subscribe "calls" 3%nat (Some [ROUTING]) bus) in
  fst (subscribe "calls" 3%nat (Some [ROUTING]) bus) = Ok 3%nat
  /\ registered bus1 "calls" = [1%nat; 2%nat; 3%nat]
  /\ invocations (snd (publish (fun _ _ => false) "calls" constructed_message bus1))
     = [(1%nat, constructed_message); (2%nat, constructed_message);
        (3%nat, constructed_message)].
Proof.
  destruct (subscribed_function_is_called (fun _ _ => false) "calls" 3%nat
              (Some [ROUTING]) constructed_message memory_bus_two_handlers
              (snd (MemoryBroker.subscribe "calls"
                      {| w_topic := "calls"; w_func := 2%nat; w_types := None |}
                      (snd (MemoryBroker.subscribe "calls"
                              {| w_topic := "calls"; w_func := 1%nat;
                                 w_types := None |}
                              MemoryBroker.new))))
              eq_refl eq_refl)
    as (H1 & H2 & H3).
  cbv zeta in *. split; [exact H1|].
  split; [rewrite H2; vm_compute; reflexivity|].
  rewrite H3. vm_compute. reflexivity.
Defined.

Lemma bus_refusals_witness :
  subscribe "calls" 1%nat None fresh_bus
  = (Raise (CommunicationException "Subscribe failed: Message bus not connected"),
     snd (count_error fresh_bus))
  /\ exists what,
       unsubscribe "calls" 1%nat fresh_bus
       = (Raise (CommunicationException what), fresh_bus).
Proof.
  split.
  - apply (proj1 (bus_refusals "calls" 1%nat None 1%nat fresh_bus)). reflexivity.
  - apply (proj2 (bus_refusals "calls" 1%nat None 1%nat fresh_bus)). reflexivity.
Defined.
End BusDeliveryExamples.

(* ===================================================================== *)
(** * Further properties of the event system *)
(* ===================================================================== *)

(** ** Listeners *)

Section Listeners.
Import Events.

Implicit Types (d : list (EventType * list EventListener)) (t k : EventType)
  (l : EventListener) (es : EventSystem).

Lemma listeners_of_set t k ls d :
  listeners_of t (listeners_set k ls d)
  = if bool_decide (t = k) then Some ls else listeners_of t d.
Proof.
  induction d as [|[t' ls'] d IH]; simpl.
  - destruct (bool_decide (t = k)); reflexivity.
  - destruct (decide (k = t')) as [->|Hk].
    + rewrite (bool_decide_eq_true_2 (t' = t')) by reflexivity. simpl.
      destruct (bool_decide (t = t')); reflexivity.
    + rewrite (bool_decide_eq_false_2 (k = t')) by exact Hk. simpl.
      destruct (decide (t = t')) as [->|Ht].
      * rewrite (bool_decide_eq_true_2 (t' = t')) by reflexivity.
        rewrite (bool_decide_eq_false_2 (t' = k)) by congruence. reflexivity.
      * rewrite (bool_decide_eq_false_2 (t = t')) by exact Ht. exact IH.
Qed.

Lemma listeners_of_del t k d :
  listeners_of t (listeners_del k d)
  = if bool_decide (t = k) then None else listeners_of t d.
Proof.
  unfold listeners_del. induction d as [|[t' ls'] d IH]; simpl.
  - destruct (bool_decide (t = k)); reflexivity.
  - destruct (decide (k = t')) as [->|Hk].
    + rewrite (bool_decide_eq_true_2 (t' = t')) by reflexivity. simpl. rewrite IH.
      destruct (bool_decide (t = t')); reflexivity.
    + rewrite (bool_decide_eq_false_2 (k = t')) by exact Hk. simpl. rewrite IH.
      destruct (decide (t = t')) as [->|Ht].
      * rewrite (bool_decide_eq_true_2 (t' = t')) by reflexivity.
        rewrite (bool_decide_eq_false_2 (t' = k)) by congruence. reflexivity.
      * rewrite (bool_decide_eq_false_2 (t = t')) by exact Ht. reflexivity.
Qed.

Lemma listeners_of_keys t d :
  listeners_of t d = None <-> ~ In t (List.map fst d).
Proof.
  induction d as [|[t' ls'] d IH]; simpl; [tauto|].
  destruct (decide (t = t')) as [->|Ht].
  - rewrite bool_decide_eq_true_2 by reflexivity. split; [discriminate|tauto].
  - rewrite bool_decide_eq_false_2 by exact Ht. rewrite IH.
    split; [intros H [E|I]; [congruence|tauto]|tauto].
Qed.

Lemma listeners_set_keys k ls d :
  NoDup (List.map fst d) -> NoDup (List.map fst (listeners_set k ls d)).
Proof.
  induction d as [|[t' ls'] d IH]; simpl; intros Hnd.
  - apply NoDup_singleton.
  - apply NoDup_cons in Hnd as [Hfresh Hnd].
    destruct (decide (k = t')) as [->|Hk].
    + rewrite bool_decide_eq_true_2 by reflexivity. simpl.
      apply NoDup_cons. now split.
    + rewrite bool_decide_eq_false_2 by exact Hk. simpl.
      apply NoDup_cons. split; [|now apply IH].
      intros Hin. apply Hfresh. apply list_elem_of_In in Hin.
      apply list_elem_of_In. clear -Hin Hk.
      induction d as [|[t2 l2] d IH]; simpl in *.
      * destruct Hin as [E|[]]. congruence.
      * destruct (bool_decide (k = t2)); simpl in Hin; [exact Hin|].
        destruct Hin as [E|Hin]; [now left|right; now apply IH].
Qed.

Lemma drop_listener_lookup listener_id0 t k d :
  listeners_of t (drop_listener listener_id0 d k)
  = if bool_decide (t = k)
    then without listener_id0 (listeners_of k d)
    else listeners_of t d.
Proof.
  unfold drop_listener, without.
  destruct (listeners_of k d) as [ls|] eqn:Hk.
  - destruct (List.filter _ ls) as [|l0 ls'] eqn:Hf.
    + rewrite listeners_of_del, listeners_of_set.
      destruct (bool_decide (t = k)); reflexivity.
    + rewrite listeners_of_set. destruct (bool_decide (t = k)); reflexivity.
  - destruct (decide (t = k)) as [->|Ht].
    + rewrite bool_decide_eq_true_2 by reflexivity. exact Hk.
    + rewrite bool_decide_eq_false_2 by exact Ht. reflexivity.
Qed.

Lemma drop_listeners_lookup listener_id0 t (ks : list EventType) : forall d,
  NoDup ks ->
  listeners_of t (fold_left (drop_listener listener_id0) ks d)
  = if bool_decide (t ∈ ks)
    then without listener_id0 (listeners_of t d)
    else listeners_of t d.
Proof.
  induction ks as [|k ks IH]; intros d Hnd.
  - reflexivity.
  - apply NoDup_cons in Hnd as [Hfresh Hnd]. cbn [fold_left].
    rewrite IH by exact Hnd. rewrite drop_listener_lookup.
    repeat case_bool_decide; subst; try reflexivity; exfalso;
      rewrite ?elem_of_cons in *; tauto.
Qed.

Lemma unsubscribe_lookup listener_id0 t d :
  NoDup (List.map fst d) ->
  listeners_of t (fold_left (drop_listener listener_id0) (List.map fst d) d)
  = without listener_id0 (listeners_of t d).
Proof.
  intros Hnd. rewrite drop_listeners_lookup by exact Hnd.
  destruct (decide (t ∈ List.map fst d)) as [Hin|Hin].
  - now rewrite bool_decide_eq_true_2 by exact Hin.
  - rewrite bool_decide_eq_false_2 by exact Hin.
    assert (Hnone : listeners_of t d = None).
    { apply listeners_of_keys. intros Hc. apply Hin. now apply list_elem_of_In. }
    now rewrite Hnone.
Qed.

Lemma unsubscribe_removes_listener_aux listener_id0 es :
  NoDup (List.map fst (listeners es)) ->
  (forall t, listeners_of t (listeners (snd (unsubscribe listener_id0 es)))
             = without listener_id0 (listeners_of t (listeners es)))
  /\ listener_count (snd (unsubscribe listener_id0 es)) = listener_count es - 1.
Proof.
  intros Hnd. unfold unsubscribe, modify. simpl.
  split; [|reflexivity]. intros t. now apply unsubscribe_lookup.
Qed.

(** X20.  [unsubscribe] never fails.  For every event type it leaves the
    listeners registered under the type except those with the given id,
    in their order, and the type disappears from the dict when no
    listener is left.  [listener_count] goes down by one whether or not a
    listener had that id. *)
Theorem unsubscribe_removes_listener listener_id0 es :
  NoDup (List.map fst (listeners es)) ->
  let es' := snd (unsubscribe listener_id0 es) in
  fst (unsubscribe listener_id0 es) = Ok tt
  /\ (forall t, listeners_of t (listeners es')
                = without listener_id0 (listeners_of t (listeners es)))
  /\ listener_count es' = listener_count es - 1
  /\ event_history es' = event_history es.
Proof.
  intros Hnd. cbv zeta. unfold unsubscribe, modify. simpl.
  repeat split. intros t. now apply unsubscribe_lookup.
Qed.

Lemma add_listeners_lookup l t (types : list EventType) : forall d,
  listeners_of t (fold_left (add_listener l) types d)
  = match count_occ (decide_rel eq) types t with
    | O => listeners_of t d
    | n => Some (default [] (listeners_of t d) ++ repeat l n)
    end.
Proof.
  induction types as [|ty types IH]; intros d; simpl; [reflexivity|].
  rewrite IH.
  assert (Hset : listeners_of t (add_listener l d ty)
                 = if bool_decide (t = ty)
                   then Some (default [] (listeners_of ty d) ++ [l])
                   else listeners_of t d)
    by apply listeners_of_set.
  rewrite Hset. clear Hset.
  destruct (decide_rel eq ty t) as [->|Hne].
  - rewrite bool_decide_eq_true_2 by reflexivity. simpl.
    destruct (count_occ _ types t) as [|n]; [reflexivity|].
    now rewrite <- app_assoc.
  - rewrite bool_decide_eq_false_2 by congruence. reflexivity.
Qed.

Lemma subscribe_appends_listener_aux l es :
  (forall t,
     listeners_of t (listeners (snd (subscribe l es)))
     = match count_occ (decide_rel eq) (event_types l) t with
       | O => listeners_of t (listeners es)
       | n => Some (default [] (listeners_of t (listeners es)) ++ repeat l n)
       end)
  /\ listener_count (snd (subscribe l es)) = listener_count es + 1.
Proof.
  unfold subscribe, bind, modify, ret. simpl.
  split; [|reflexivity]. intros t. apply add_listeners_lookup.
Qed.

(** X21.  [subscribe] returns the listener's id, adds one to
    [listener_count] and appends the listener to the list of every event
    type it names, once per occurrence of the type: a type named twice
    registers the listener twice, an empty list of types registers it
    nowhere.  The other types keep their listeners. *)
Theorem subscribe_appends_listener l es :
  let es' := snd (subscribe l es) in
  fst (subscribe l es) = Ok (listener_id l)
  /\ (forall t,
        listeners_of t (listeners es')
        = match count_occ (decide_rel eq) (event_types l) t with
          | O => listeners_of t (listeners es)
          | n => Some (default [] (listeners_of t (listeners es)) ++ repeat l n)
          end)
  /\ listener_count es' = listener_count es + 1.
Proof.
  cbv zeta. unfold subscribe, bind, modify, ret. simpl.
  repeat split. intros t. apply add_listeners_lookup.
Qed.

Lemma add_listeners_keys l (types : list EventType) : forall d,
  NoDup (List.map fst d) ->
  NoDup (List.map fst (fold_left (add_listener l) types d)).
Proof.
  induction types as [|ty types IH]; intros d Hnd; simpl; [exact Hnd|].
  apply IH. now apply listeners_set_keys.
Qed.

Lemma filter_fresh listener_id0 (ls : list EventListener) :
  Forall (fun l => listener_id l <> listener_id0) ls ->
  List.filter (fun l => negb (Nat.eqb (listener_id l) listener_id0)) ls = ls.
Proof.
  induction 1 as [|l ls Hl _ IH]; simpl; [reflexivity|].
  apply Nat.eqb_neq in Hl. rewrite Hl. simpl. now rewrite IH.
Qed.

Lemma filter_repeat_self l n :
  List.filter (fun l0 => negb (Nat.eqb (listener_id l0) (listener_id l))) (repeat l n)
  = [].
Proof.
  induction n as [|n IH]; simpl; [reflexivity|].
  now rewrite Nat.eqb_refl.
Qed.

(** X22.  Subscribing a listener and unsubscribing its id again leaves
    every event type with the listeners it had and [listener_count] at
    its old value, provided the dict is well formed (no type with an
    empty list) and no registered listener shares the id. *)
Theorem subscribe_unsubscribe_round_trip l es :
  listeners_wf (listeners es) ->
  (forall t ls, listeners_of t (listeners es) = Some ls ->
     Forall (fun l0 => listener_id l0 <> listener_id l) ls) ->
  let es' := snd (unsubscribe (listener_id l) (snd (subscribe l es))) in
  (forall t, listeners_of t (listeners es') = listeners_of t (listeners es))
  /\ listener_count es' = listener_count es.
Proof.
  intros [Hnd Hne] Hfresh. cbv zeta. split.
  - intros t.
    destruct (unsubscribe_removes_listener_aux (listener_id l) (snd (subscribe l es)))
      as [Hun _].
    { unfold subscribe, bind, modify, ret. simpl. now apply add_listeners_keys. }
    rewrite Hun. clear Hun.
    destruct (subscribe_appends_listener_aux l es) as [Hsub _]. rewrite Hsub.
    assert (Hold : forall ls, listeners_of t (listeners es) = Some ls ->
              ls <> [] /\ List.filter
                            (fun l0 => negb (Nat.eqb (listener_id l0) (listener_id l))) ls
                          = ls).
    { intros ls Hls. split; [|apply filter_fresh; eapply Hfresh, Hls].
      clear -Hne Hls. induction (listeners es) as [|[t' ls'] d IH]; simpl in *;
        [discriminate|].
      apply Forall_cons_1 in Hne as [Hhd Htl].
      destruct (bool_decide (t = t')); [injection Hls as <-; exact Hhd|now apply IH]. }
    destruct (count_occ _ _ t) as [|n].
    + unfold without. destruct (listeners_of t (listeners es)) as [ls|] eqn:Hls;
        [|reflexivity].
      destruct (Hold ls eq_refl) as [Hnonempty ->].
      now destruct ls.
    + unfold without. rewrite List.filter_app, filter_repeat_self, app_nil_r.
      destruct (listeners_of t (listeners es)) as [ls|] eqn:Hls; simpl.
      * destruct (Hold ls eq_refl) as [Hnonempty ->]. now destruct ls.
      * reflexivity.
  - unfold unsubscribe, subscribe, bind, modify, ret. simpl. lia.
Qed.
Lemma unsubscribe_removes_listener_witness :
  let es' := snd (unsubscribe 7 one_listener_system) in
  fst (unsubscribe 7 one_listener_system) = Ok tt
  /\ (forall t, listeners_of t (listeners es')
                = without 7 (listeners_of t (listeners one_listener_system)))
  /\ listener_count es' = listener_count one_listener_system - 1
  /\ event_history es' = event_history one_listener_system.
Proof.
  apply (unsubscribe_removes_listener 7 one_listener_system).
  apply (bool_decide_unpack _). vm_compute. exact I.
Defined.

Lemma subscribe_unsubscribe_round_trip_witness :
  let l := quiet_listener 8 [CALL_STARTED; CALL_ENDED; CALL_STARTED] in
  let es' := snd (unsubscribe (listener_id l) (snd (subscribe l one_listener_system))) in
  (forall t, listeners_of t (listeners es')
             = listeners_of t (listeners one_listener_system))
  /\ listener_count es' = listener_count one_listener_system.
Proof.
  apply (subscribe_unsubscribe_round_trip
           (quiet_listener 8 [CALL_STARTED; CALL_ENDED; CALL_STARTED])
           one_listener_system).
  - split.
    + apply (bool_decide_unpack _). vm_compute. exact I.
    + repeat constructor. discriminate.
  - intros t ls Hls. destruct t; vm_compute in Hls; try discriminate Hls.
    injection Hls as <-. repeat constructor. simpl. lia.
Defined.
End Listeners.

(** ** Delivery, history queries and the queue *)

Section EventFlow.
Import Events.
Local Open Scope monad_scope.

Implicit Types (es : EventSystem) (event : Event) (l : EventListener).

Lemma with_delivered_nil es : with_delivered (fun d => d ++ []) es = es.
Proof. destruct es. unfold with_delivered. simpl. now rewrite app_nil_r. Qed.

Lemma notify_one_spec event l es :
  notify_one event l es
  = (Ok tt,
     with_delivered
       (fun d => d ++ if passes event l then [(listener_id l, event)] else []) es).
Proof.
  unfold notify_one, passes, try_except, bind, log_delivery, modify.
  destruct (filter_func l) as [f|]; simpl.
  - destruct (f event) as [[|]|e]; simpl.
    + destruct (handler l event); reflexivity.
    + now rewrite with_delivered_nil.
    + now rewrite with_delivered_nil.
  - destruct (handler l event); reflexivity.
Qed.

Lemma notify_all_spec event (ls : list EventListener) : forall es,
  for_each ls (notify_one event) es
  = (Ok tt,
     with_delivered
       (fun d => d ++ List.map (fun l => (listener_id l, event))
                               (List.filter (passes event) ls)) es).
Proof.
  induction ls as [|l ls IH]; intros es; simpl.
  - now rewrite with_delivered_nil.
  - unfold bind. rewrite notify_one_spec, IH.
    destruct es. unfold with_delivered. simpl.
    destruct (passes event l); simpl; now rewrite <- app_assoc.
Qed.

Lemma notify_listeners_spec event es :
  _notify_listeners event es
  = (Ok tt,
     with_delivered
       (fun d => d ++ List.map (fun l => (listener_id l, event))
                        (List.filter (passes event)
                           (default [] (listeners_of (type event) (listeners es)))))
       es).
Proof.
  unfold _notify_listeners, bind, get.
  destruct (listeners_of _ _) as [ls|]; simpl.
  - apply notify_all_spec.
  - now rewrite with_delivered_nil.
Qed.

Lemma process_event_delivers_aux event es :
  fst (process_event event es) = Ok tt
  /\ events_processed (snd (process_event event es)) = events_processed es + 1
  /\ event_queue (snd (process_event event es)) = event_queue es
  /\ events_published (snd (process_event event es)) = events_published es.
Proof.
  unfold process_event, bind.
  unfold _add_to_history at 1 2 3 4, modify.
  rewrite notify_listeners_spec. simpl. repeat split.
Qed.

(** X23.  With handlers and filters that return or raise an
    [Exception] and do not call back into the event system, processing
    an event never fails.
    The handlers called are those of the listeners registered for the
    event's type whose filter is absent or returns true, each once, in
    registration order; a filter that raises skips its listener only, and
    a handler that raises does not keep the later ones from being called.
    The listeners, the queue and the published count are untouched and
    [events_processed] grows by one. *)
Theorem process_event_delivers event es :
  let es' := snd (process_event event es) in
  fst (process_event event es) = Ok tt
  /\ delivered es'
     = delivered es
       ++ List.map (fun l => (listener_id l, event))
            (List.filter (passes event)
               (default [] (listeners_of (type event) (listeners es))))
  /\ events_processed es' = events_processed es + 1
  /\ listeners es' = listeners es
  /\ event_queue es' = event_queue es
  /\ events_published es' = events_published es.
Proof.
  cbv zeta. unfold process_event, bind.
  unfold _add_to_history at 1 2 3 4 5 6, modify.
  rewrite notify_listeners_spec. simpl. repeat split.
Qed.

Lemma filter_twice {A} (f g : A -> bool) (l : list A) :
  List.filter f (List.filter g l) = List.filter (fun x => g x && f x) l.
Proof.
  induction l as [|x l IH]; simpl; [reflexivity|].
  destruct (g x); simpl; [destruct (f x)|]; now rewrite IH.
Qed.

Lemma py_slice_last {A} (n : Z) (l : list A) :
  0 < n -> py_slice_from (- n) l = last_n (Z.to_nat n) l.
Proof.
  intros Hn. unfold py_slice_from, last_n.
  destruct (Z.ltb_spec (- n) 0) as [_|Hc]; [|lia]. f_equal. lia.
Qed.

(** X24.  [get_event_history] returns events of the history, in history
    order: all of them, or those of the given type, or of the given
    source (an empty source string filters nothing).  A positive limit
    keeps the last [limit] of them; a limit of 0 is no limit at all and
    returns everything; a negative limit [-k] drops the first [k]. *)
Theorem get_event_history_cases (event_type : option EventType)
    (source0 : option string) (limit : option Z) es :
  let unlimited := get_event_history event_type source0 None es in
  let result := get_event_history event_type source0 limit es in
  unlimited
  = List.filter
      (fun e =>
         match event_type with Some t => bool_decide (type e = t) | None => true end
         && match source0 with
            | Some s => negb (str_truthy s) || String.eqb (source e) s
            | None => true
            end)
      (event_history es)
  /\ (limit = None \/ limit = Some 0 -> result = unlimited)
  /\ (forall n, limit = Some n -> 0 < n ->
        result = last_n (Z.to_nat n) unlimited
        /\ Z.of_nat (length result) <= n)
  /\ (forall k, limit = Some (- k) -> 0 < k ->
        result = drop (Z.to_nat k) unlimited).
Proof.
  cbv zeta. split; [|split; [|split]].
  - unfold get_event_history.
    destruct event_type as [t|], source0 as [s|]; simpl.
    + destruct (str_truthy s); simpl.
      * apply filter_twice.
      * apply List.filter_ext. intros e. now rewrite andb_true_r.
    + apply List.filter_ext. intros e. now rewrite andb_true_r.
    + destruct (str_truthy s); simpl; [reflexivity|].
      induction (event_history es) as [|e h IH]; simpl; [reflexivity|].
      now rewrite <- IH.
    + induction (event_history es) as [|e h IH]; simpl; [reflexivity|].
      now rewrite <- IH.
  - intros [->| ->]; reflexivity.
  - intros n -> Hn. unfold get_event_history at 1 3.
    destruct (Z.eqb_spec n 0) as [->|_]; [lia|].
    rewrite py_slice_last by exact Hn. split; [reflexivity|].
    match goal with |- context [last_n ?m ?l] => pose proof (last_n_length m l) end.
    lia.
  - intros k -> Hk. unfold get_event_history at 1.
    destruct (Z.eqb_spec (- k) 0) as [Hz|_]; [lia|].
    unfold py_slice_from. rewrite Z.opp_involutive.
    destruct (Z.ltb_spec k 0) as [Hc|_]; [lia|].
    set (l := get_event_history event_type source0 None es).
    change (drop (Z.to_nat (Z.min k (Z.of_nat (length l)))) l = drop (Z.to_nat k) l).
    destruct (Z.le_gt_cases k (Z.of_nat (length l))) as [Hle|Hgt].
    + now rewrite Z.min_l by exact Hle.
    + rewrite Z.min_r by lia. rewrite Nat2Z.id, drop_all.
      symmetry. apply drop_ge. lia.
Qed.

Lemma last_n_app_last {A} (n : nat) (l k : list A) :
  last_n n (last_n n l ++ k) = last_n n (l ++ k).
Proof.
  unfold last_n. rewrite !length_app, length_drop.
  destruct (Nat.le_gt_cases (length l) n) as [Hle|Hgt].
  - replace (length l - n)%nat with 0%nat by lia. simpl.
    f_equal. lia.
  - replace (length l - (length l - n) + length k - n)%nat with (length k) by lia.
    replace (length l + length k - n)%nat with ((length l - n) + length k)%nat by lia.
    rewrite <- drop_drop. f_equal.
    rewrite drop_app_le by lia. reflexivity.
Qed.

Lemma after_events_positive events : forall es,
  0 < max_history es ->
  event_history (after_events events es)
  = last_n (Z.to_nat (max_history es)) (event_history es ++ events)
    \/ events = [].
Proof.
  unfold after_events.
  induction events as [|event events IH]; intros es Hpos; simpl; [now right|].
  left. destruct (process_event_history event es) as [Hh Hm].
  destruct (IH (snd (process_event event es))) as [Hrec| ->]; [lia| |].
  - rewrite Hrec, Hm, Hh, add_to_history_positive by exact Hpos.
    rewrite last_n_app_last. now rewrite <- app_assoc.
  - simpl. rewrite Hh. now apply add_to_history_positive.
Qed.

(** X25.  With a bound of at least one, an event system that starts
    with an empty history holds, after processing any events, exactly
    the last [max_history] of them in arrival order, and so never more
    than [max_history]. *)
Theorem positive_bound_keeps_most_recent (bound : Z) (events : list Event) :
  0 < bound ->
  event_history (after_events events (new bound)) = last_n (Z.to_nat bound) events
  /\ Z.of_nat (length (event_history (after_events events (new bound)))) <= bound.
Proof.
  intros Hpos.
  assert (Hh : event_history (after_events events (new bound))
               = last_n (Z.to_nat bound) events).
  { destruct (after_events_positive events (new bound) Hpos) as [H| ->].
    - exact H.
    - reflexivity. }
  split; [exact Hh|]. rewrite Hh.
  pose proof (last_n_length (Z.to_nat bound) events). lia.
Qed.

Lemma positive_bound_keeps_most_recent_witness :
  event_history (after_events [sample_event; sample_event; sample_event] (new 2))
  = last_n (Z.to_nat 2) [sample_event; sample_event; sample_event]
  /\ Z.of_nat (length (event_history
                         (after_events [sample_event; sample_event; sample_event]
                            (new 2)))) <= 2.
Proof.
  apply (positive_bound_keeps_most_recent 2 [sample_event; sample_event; sample_event]).
  lia.
Defined.

Lemma run_op_accounts o pub es :
  queue_accounts pub es ->
  queue_accounts (pub ++ published [o]) (snd (run_op o es)).
Proof.
  intros (k & Hk & Hle & Hq & Hp). destruct o as [e|]; simpl.
  - exists k. simpl. rewrite length_app. simpl.
    repeat split; [exact Hk|lia| |lia].
    rewrite Hq. rewrite drop_app_le by exact Hle. reflexivity.
  - rewrite app_nil_r. unfold process_next, bind, get. simpl.
    destruct (event_queue es) as [|event rest] eqn:Hqueue; simpl.
    + exists k. repeat split; try assumption. now rewrite Hqueue.
    + unfold try_except, modify. simpl.
      match goal with |- context [process_event event ?x] => set (es1 := x) end.
      destruct (process_event_delivers_aux event es1) as (Hok & Hproc & Hqueue1 & Hpub1).
      destruct (process_event event es1) as [[[]|err] es2]; simpl in *;
        [|discriminate].
      assert (Hlt : (k < length pub)%nat).
      { destruct (Nat.le_gt_cases (length pub) k) as [Hge|Hlt]; [|exact Hlt].
        rewrite drop_ge in Hq by exact Hge. discriminate. }
      exists (S k). repeat split; [lia|lia| |lia].
      rewrite Hqueue1. simpl.
      assert (Hd : drop (S k) pub = drop 1 (drop k pub))
        by (rewrite drop_drop; f_equal; lia).
      rewrite Hd, <- Hq. reflexivity.
Qed.

(** X26.  Events are consumed in the order they were published.  After
    any interleaving of [publish] calls and turns of the processing loop
    on a new event system, [events_published] is the number of
    publishes, [events_processed] is at most that, and the queue holds
    exactly the published events that have not been processed, in
    publishing order; a turn on an empty queue processes nothing. *)
Theorem events_are_consumed_in_order (bound : Z) (ops : list Op) :
  let es := run_ops ops (new bound) in
  events_published es = Z.of_nat (length (published ops))
  /\ 0 <= events_processed es <= events_published es
  /\ event_queue es = drop (Z.to_nat (events_processed es)) (published ops).
Proof.
  cbv zeta.
  assert (Hacc : queue_accounts (published ops) (run_ops ops (new bound))).
  { unfold run_ops. induction ops as [|o ops IH] using rev_ind.
    - exists 0%nat. simpl. repeat split. lia.
    - rewrite fold_left_app. simpl. unfold published. rewrite flat_map_app.
      now apply run_op_accounts. }
  destruct Hacc as (k & Hk & Hle & Hq & Hp).
  rewrite Hp, Hk, Nat2Z.id. repeat split; [lia|lia|exact Hq].
Qed.
End EventFlow.
